(** * bench_event: the EM event API micro benchmark driver

    A shallow embedding of [programs/performance/bench_event.c]: the
    bounded-retry event provisioner, the release of an event table, the
    two-pass benchmark loop with its indefinite single-case mode, the
    validation of the command line and the mapping of the outcome to the
    process exit status, and the table indices used by the test bodies.

    C integers are modelled as [Z]; where the source computes in an
    unsigned type the reduction modulo the width is written out ([u32],
    [u64]).  Calls into EM/ODP are parameters of the model. *)

From Stdlib Require Import ZArith Lia.
From stdpp Require Import base numbers list strings.

Local Open Scope Z_scope.

(** ** Constants of the source *)

(** Number of API function calls per test case *)
Definition REPEAT_COUNT : Z := 1000.

(** Maximum burst size for *_multi() operations *)
Definition MAX_BURST : Z := 64.

(** Maximum number of test events *)
Definition MAX_EVENTS : Z := REPEAT_COUNT * MAX_BURST.

(** Default number of rounds per test case *)
Definition ROUNDS : Z := 1000.

(** Default event size *)
Definition EVENT_SIZE : Z := 1024.

(** Default burst size for *_multi() operations *)
Definition BURST_SIZE : Z := 8.

(** Default vector size *)
Definition VECTOR_SIZE : Z := 8.

(** Maximum number of retries *)
Definition MAX_RETRY : Z := 1024.

(** <stdlib.h> *)
Definition EXIT_SUCCESS : Z := 0.
Definition EXIT_FAILURE : Z := 1.

(** Conversion to [uint32_t] and [uint64_t]. *)
Definition u32 (z : Z) : Z := z mod 2 ^ 32.
Definition u64 (z : Z) : Z := z mod 2 ^ 64.

(** ** Allocation of test events *)

Section Provisioner.
(** The state of the event pools, and [em_alloc_multi(&event[off], num,
    size, type, pool)] as the number of events it hands out for a request
    of [num] together with the pools afterwards. *)
Context {pool_t : Type}.
Variable em_alloc_multi : pool_t -> Z -> Z * pool_t.

(** One call of the allocator: the offset [num_events] into the table, the
    number of events asked for, and the value returned. *)
Record alloc_call : Type := AllocCall {
  call_off : Z;
  call_num : Z;
  call_ret : Z
}.

Inductive alloc_result : Type :=
| AllocDone (num_events : Z) (p : pool_t) (calls : list alloc_call)
| AllocAbort (p : pool_t) (calls : list alloc_call)
    (* ODPH_ABORT("Allocating test events failed") *)
| AllocFuel (calls : list alloc_call).

(** The [while (num_events < num)] loop of [allocate_test_events].
    [num_events += ret] is an [int] addition; it stays in range whenever
    the allocator returns at most what was asked for. *)
Fixpoint alloc_loop (fuel : nat) (num num_events num_retries : Z)
         (p : pool_t) (calls : list alloc_call) : alloc_result :=
  match fuel with
  | O => AllocFuel calls
  | S fuel' =>
    if num_events <? num then
      let '(ret, p') := em_alloc_multi p (num - num_events) in
      let calls' := calls ++ [AllocCall num_events (num - num_events) ret] in
      if ret <? 1 then
        let num_retries := num_retries + 1 in
        if (ret <? 0) || (num_retries >? MAX_RETRY)
        then AllocAbort p' calls'
        else alloc_loop fuel' num num_events num_retries p' calls'
      else
        alloc_loop fuel' num (num_events + ret) 0 p' calls'
    else AllocDone num_events p calls
  end.

Definition allocate_test_events (fuel : nat) (p : pool_t) (num : Z)
  : alloc_result :=
  alloc_loop fuel num 0 0 p [].

(** The calls made, however the loop ended. *)
Definition alloc_calls (r : alloc_result) : list alloc_call :=
  match r with
  | AllocDone _ _ calls => calls
  | AllocAbort _ calls => calls
  | AllocFuel calls => calls
  end.
End Provisioner.

(** ** Release of an event table *)

Section Release.
(** Event handles, and the handle [EM_EVENT_UNDEF] of the EM headers. *)
Variable EM_EVENT_UNDEF : Z.

(** The loop of [free_event_tbl] from index [i] on, [n] iterations left.
    [freed] lists the handles passed to [em_free], oldest first.  An index
    past the end of the table has no meaning in C: the model stops with
    [None]. *)
Fixpoint free_event_loop (n : nat) (i : nat) (event_tbl : list Z)
         (freed : list Z) : option (list Z * list Z) :=
  match n with
  | O => Some (event_tbl, freed)
  | S n' =>
    match event_tbl !! i with
    | None => None
    | Some ev =>
      if negb (ev =? EM_EVENT_UNDEF)
      then free_event_loop n' (S i) (<[i := EM_EVENT_UNDEF]> event_tbl)
                           (freed ++ [ev])
      else free_event_loop n' (S i) event_tbl freed
    end
  end.

Definition free_event_tbl (event_tbl : list Z) (num : Z)
  : option (list Z * list Z) :=
  free_event_loop (Z.to_nat num) 0 event_tbl [].

Definition valid_event (ev : Z) : Prop := ev <> EM_EVENT_UNDEF.
End Release.

(** Allocators used in the examples: a pool that hands out one event per
    call, and one that is exhausted. *)
Definition alloc_one (p : unit) (num : Z) : Z * unit := (1, p).
Definition alloc_none (p : unit) (num : Z) : Z * unit := (0, p).

(** ** The benchmark driver *)

(** The three functions of a test case. *)
Inductive test_fn : Type := FnInit | FnRun | FnTerm.

(** What the driver prints and which test functions it calls, in order. *)
Inductive event : Type :=
| PrintHeader (meas_time : Z)
    (* "Average %s per function call" and the rule below it *)
| PrintIndef (desc : string)
    (* "Running %s test indefinitely" *)
| CallInit (j : Z)
| CallRun (j : Z) (ret : Z)
| CallTerm (j : Z)
| PrintResult (idx : Z) (label : string) (total : Z) (divisor : Z)
    (* "[%02d] %-35s: %12.2f" with result = (double)total / divisor *)
| PrintUsage
| PrintInfo
| Err (msg : string)
| Aborted (f : test_fn) (j : Z).
    (* ODPH_ABORT inside the function [f] of case [j] *)

(** Command line options ([gbl_args->opt]). *)
Record opt_t : Type := Opt {
  opt_time : Z;          (* int: measure time vs CPU cycles *)
  opt_bench_idx : Z;     (* int: benchmark index to run indefinitely *)
  opt_burst_size : Z;    (* int *)
  opt_event_size : Z;    (* int *)
  opt_rounds : Z;        (* uint32_t: rounds per test case *)
  opt_cache_size : Z;    (* int *)
  opt_vector_size : Z    (* int *)
}.

Section Driver.
(** The state of everything outside the driver: pools, queues, clocks and
    the [exit_thread] flag the signal handler sets.  A signal that arrives
    while a test function runs is part of that function's transition. *)
Context {world : Type}.

Record platform : Type := Platform {
  exit_thread : world -> Z;          (* odp_atomic_load_u32(&exit_thread) *)
  odp_time_local : world -> Z;
  odp_cpu_cycles : world -> Z;
  odp_time_diff_ns : Z -> Z -> Z;
  odp_cpu_cycles_diff : Z -> Z -> Z;
  em_init_core : world -> bool * world;   (* true: EM_OK *)
  em_term_core : world -> bool * world;   (* true: EM_OK *)
  em_pool_create : string -> Z -> Z -> world -> bool * world
    (* name, subpool size, number of events; true: not EM_POOL_UNDEF *)
}.

(** Benchmark data ([bench_info_t]).  A test function returns, or it
    ends the process in ODPH_ABORT ([None]), as the init functions do when
    the events of a test cannot be allocated.  [init] and [term] may be
    NULL. *)
Record bench_info_t : Type := BenchInfo {
  name : string;
  run : world -> option (Z * world);   (* returns >0 on success *)
  init : option (world -> option world);
  term : option (world -> option world);
  max_rounds : Z;                      (* uint32_t, 0: no limit *)
  desc : option string
}.

Variable P : platform.

(** [if (f != NULL) f();] *)
Definition call_opt (f : option (world -> option world)) (w : world)
  : option world :=
  match f with Some g => g w | None => Some w end.

Definition call_log (f : option (world -> option world)) (e : event)
  : list event :=
  match f with Some _ => [e] | None => [] end.

(** [desc = bench->desc != NULL ? bench->desc : bench->name] *)
Definition bench_desc (bench : bench_info_t) : string :=
  match desc bench with Some d => d | None => name bench end.

(** The text after the index in a result line: the description, or
    "em_" followed by the default name. *)
Definition bench_label (bench : bench_info_t) : string :=
  match desc bench with
  | Some d => d
  | None => String.append "em_" (name bench)
  end.

Inductive indef_result : Type :=
| IndefReturn (w : world) (log : list event)
| IndefAbort (w : world) (log : list event)
    (* ODPH_ABORT("Benchmark %s failed") *)
| IndefTestAbort (log : list event)   (* ODPH_ABORT in a test function *)
| IndefFuel.

(** The [while (!odp_atomic_load_u32(&gbl_args->exit_thread))] loop of
    [run_indef]. *)
Fixpoint indef_loop (fuel : nat) (idx : Z) (bench : bench_info_t)
         (w : world) (log : list event) : indef_result :=
  match fuel with
  | O => IndefFuel
  | S fuel' =>
    if exit_thread P w =? 0 then
      match call_opt (init bench) w with
      | None =>
        IndefTestAbort (log ++ call_log (init bench) (CallInit idx)
                            ++ [Aborted FnInit idx])
      | Some w1 =>
        match run bench w1 with
        | None =>
          IndefTestAbort (log ++ call_log (init bench) (CallInit idx)
                              ++ [Aborted FnRun idx])
        | Some (ret, w2) =>
          let log' := log ++ call_log (init bench) (CallInit idx)
                          ++ [CallRun idx ret]
                          ++ call_log (term bench) (CallTerm idx) in
          match call_opt (term bench) w2 with
          | None => IndefTestAbort (log' ++ [Aborted FnTerm idx])
          | Some w3 =>
            if ret =? 0
            then IndefAbort w3 (log' ++ [Err "Benchmark failed"])
            else indef_loop fuel' idx bench w3 log'
          end
        end
      end
    else IndefReturn w log
  end.

(** [run_indef(args, idx)], with [bench = &args->bench[idx]] looked up by
    the caller. *)
Definition run_indef (fuel : nat) (idx : Z) (bench : bench_info_t)
           (w : world) (log : list event) : indef_result :=
  indef_loop fuel idx bench w (log ++ [PrintIndef (bench_desc bench)]).

(** The variables of [run_benchmarks] that live across iterations of the
    inner loop, with [args->bench_failed]. *)
Record loop_state : Type := LoopState {
  ls_j : Z;              (* int j *)
  ls_round : Z;          (* uint32_t round *)
  ls_total : Z;          (* uint64_t total *)
  ls_failed : Z;         (* int args->bench_failed *)
  ls_world : world;
  ls_log : list event
}.

Inductive loop_result : Type :=
| LoopEnd (s : loop_state)       (* the loop condition is false *)
| GotoExit (s : loop_state)      (* goto exit *)
| LoopAbort (w : world) (log : list event)
| LoopTestAbort (log : list event)   (* ODPH_ABORT in a test function *)
| LoopBadIndex                   (* args->bench[j] outside the table *)
| LoopFuel.

Variable bench_tbl : list bench_info_t.   (* gbl_args->bench *)
Variable o : opt_t.                       (* gbl_args->opt *)

(** [gbl_args->num_bench = ARRAY_SIZE(test_suite)] *)
Definition num_bench : Z := Z.of_nat (length bench_tbl).

(** [max_rounds = args->opt.rounds;
    if (bench->max_rounds && max_rounds > bench->max_rounds)
            max_rounds = bench->max_rounds;] *)
Definition round_limit (bench : bench_info_t) : Z :=
  if negb (max_rounds bench =? 0) && (opt_rounds o >? max_rounds bench)
  then max_rounds bench
  else opt_rounds o.

(** [t1]/[c1] and [t2]/[c2], and their difference. *)
Definition stamp (w : world) : Z :=
  if negb (opt_time o =? 0) then odp_time_local P w else odp_cpu_cycles P w.

Definition stamp_diff (t2 t1 : Z) : Z :=
  if negb (opt_time o =? 0)
  then odp_time_diff_ns P t2 t1
  else odp_cpu_cycles_diff P t2 t1.

(** The inner [for (j = 0; j < num_bench && !exit_thread; round++)] loop
    of pass [i]. *)
Fixpoint bench_loop (fuel : nat) (i : Z) (s : loop_state) : loop_result :=
  match fuel with
  | O => LoopFuel
  | S fuel' =>
    let w := ls_world s in
    let j := ls_j s in
    if (j <? num_bench) && (exit_thread P w =? 0) then
      match bench_tbl !! Z.to_nat j with
      | None => LoopBadIndex
      | Some bench =>
        let max_rounds := round_limit bench in
        if negb (opt_bench_idx o =? 0) then
          (* Run selected test indefinitely *)
          if negb (j + 1 =? opt_bench_idx o) then
            (* j++; continue;  then round++ *)
            bench_loop fuel' i
              (LoopState (j + 1) (u32 (ls_round s + 1)) (ls_total s)
                         (ls_failed s) w (ls_log s))
          else
            match run_indef fuel' j bench w (ls_log s) with
            | IndefReturn w' log' =>
              GotoExit (LoopState j (ls_round s) (ls_total s)
                                  (ls_failed s) w' log')
            | IndefAbort w' log' => LoopAbort w' log'
            | IndefTestAbort log' => LoopTestAbort log'
            | IndefFuel => LoopFuel
            end
        else
          match call_opt (init bench) w with
          | None =>
            LoopTestAbort (ls_log s ++ call_log (init bench) (CallInit j)
                                    ++ [Aborted FnInit j])
          | Some w1 =>
            let t1 := stamp w1 in
            match run bench w1 with
            | None =>
              LoopTestAbort (ls_log s
                               ++ call_log (init bench) (CallInit j)
                               ++ [Aborted FnRun j])
            | Some (ret, w2) =>
              let t2 := stamp w2 in
              let log1 := ls_log s ++ call_log (init bench) (CallInit j)
                                   ++ [CallRun j ret] in
              if ret =? 0 then
                (* ODPH_ERR; args->bench_failed = -1; ret = -1;
                   goto exit *)
                GotoExit (LoopState j (ls_round s) (ls_total s) (-1) w2
                                    (log1 ++ [Err "Benchmark failed"]))
              else
                let log2 := log1 ++ call_log (term bench) (CallTerm j) in
                match call_opt (term bench) w2 with
                | None => LoopTestAbort (log2 ++ [Aborted FnTerm j])
                | Some w3 =>
                  let total := u64 (ls_total s + stamp_diff t2 t1) in
                  if ls_round s >=? max_rounds then
                    (* result = ((double)total)
                                / (max_rounds * REPEAT_COUNT),
                       the product being computed in uint32_t *)
                    let log3 :=
                      if i >? 0
                      then log2 ++ [PrintResult (j + 1) (bench_label bench)
                                      total
                                      (u32 (max_rounds * REPEAT_COUNT))]
                      else log2 in
                    (* j++; total = 0; round = 1;  then round++ *)
                    bench_loop fuel' i
                      (LoopState (j + 1) (u32 (1 + 1)) 0 (ls_failed s) w3
                                 log3)
                  else
                    bench_loop fuel' i
                      (LoopState j (u32 (ls_round s + 1)) total
                                 (ls_failed s) w3 log2)
                end
            end
          end
      end
    else LoopEnd s
  end.

(** [create_pools] *)
Definition create_pools (w : world) : Z * world * list event :=
  let num_events :=
    u32 (if opt_burst_size o <? 2 then 2 * REPEAT_COUNT
         else opt_burst_size o * REPEAT_COUNT) in
  let '(ok, w) :=
    em_pool_create P "sw_event_pool" (opt_event_size o) num_events w in
  if negb ok then (-1, w, [Err "EM SW event pool create failed"]) else
  let '(ok, w) :=
    em_pool_create P "packet_pool" (opt_event_size o) num_events w in
  if negb ok then (-1, w, [Err "EM packet pool create failed"]) else
  let '(ok, w) :=
    em_pool_create P "vector_pool" (opt_vector_size o) num_events w in
  if negb ok then (-1, w, [Err "EM vector pool create failed"]) else
  (0, w, []).

Inductive worker_result : Type :=
| WorkerReturn (ret : Z) (failed : Z) (w : world) (log : list event)
| WorkerAbort (w : world) (log : list event)
| WorkerTestAbort (log : list event)
| WorkerBadIndex
| WorkerFuel.

(** The [exit:] label of [run_benchmarks].  The [ret] returned is the one
    declared at the top of the function; the loop body declares its own
    [ret], so the outer one still holds 0 here. *)
Definition worker_exit (ret : Z) (s : loop_state) : worker_result :=
  let '(ok, w) := em_term_core P (ls_world s) in
  WorkerReturn ret (ls_failed s) w
    (ls_log s ++ if ok then [] else [Err "EM core terminate failed"]).

(** [run_benchmarks]; [failed] is [args->bench_failed] on entry. *)
Definition run_benchmarks (fuel : nat) (failed : Z) (w : world)
  : worker_result :=
  let ret := 0 in
  let '(ok, w) := em_init_core P w in
  if negb ok then WorkerReturn (-1) failed w [Err "EM core init failed"] else
  let '(r, w, elog) := create_pools w in
  if negb (r =? 0) then WorkerReturn (-1) failed w elog else
  let log := [PrintHeader (opt_time o)] in
  (* Run each test twice. Results from the first warm-up round are
     ignored. *)
  match bench_loop fuel 0 (LoopState 0 1 0 failed w log) with
  | LoopEnd s0 =>
    match bench_loop fuel 1
            (LoopState 0 1 0 (ls_failed s0) (ls_world s0) (ls_log s0)) with
    | LoopEnd s1 => worker_exit ret s1
    | GotoExit s1 => worker_exit ret s1
    | LoopAbort w' log' => WorkerAbort w' log'
    | LoopTestAbort log' => WorkerTestAbort log'
    | LoopBadIndex => WorkerBadIndex
    | LoopFuel => WorkerFuel
    end
  | GotoExit s0 => worker_exit ret s0
  | LoopAbort w' log' => WorkerAbort w' log'
  | LoopTestAbort log' => WorkerTestAbort log'
  | LoopBadIndex => WorkerBadIndex
  | LoopFuel => WorkerFuel
  end.
End Driver.

Arguments platform world : clear implicits.
Arguments bench_info_t world : clear implicits.
Arguments loop_state world : clear implicits.
Arguments loop_result world : clear implicits.
Arguments indef_result world : clear implicits.
Arguments worker_result world : clear implicits.

(** ** Command line and process *)

(** What [getopt_long] yields for one option, [optarg] already through
    [atoi]. *)
Inductive cli_opt : Type :=
| OptBurst (n : Z)        (* -b *)
| OptCacheSize (n : Z)    (* -c *)
| OptEventSize (n : Z)    (* -e *)
| OptTime (n : Z)         (* -t *)
| OptIndex (n : Z)        (* -i *)
| OptRounds (n : Z)       (* -r *)
| OptVectorSize (n : Z)   (* -v *)
| OptHelp                 (* -h *)
| OptBad.                 (* anything else *)

(** The [while (1)] loop of [parse_args]: the options when [getopt_long]
    returns -1, or the value returned from inside the [switch] with the
    options stored up to there. *)
Fixpoint getopt_loop (argv : list cli_opt) (o : opt_t)
  : opt_t + (Z * opt_t * list event) :=
  match argv with
  | [] => inl o
  | a :: argv' =>
    match a with
    | OptBurst n =>
      getopt_loop argv'
        (Opt (opt_time o) (opt_bench_idx o) n (opt_event_size o)
             (opt_rounds o) (opt_cache_size o) (opt_vector_size o))
    | OptCacheSize n =>
      getopt_loop argv'
        (Opt (opt_time o) (opt_bench_idx o) (opt_burst_size o)
             (opt_event_size o) (opt_rounds o) n (opt_vector_size o))
    | OptEventSize n =>
      getopt_loop argv'
        (Opt (opt_time o) (opt_bench_idx o) (opt_burst_size o) n
             (opt_rounds o) (opt_cache_size o) (opt_vector_size o))
    | OptTime n =>
      getopt_loop argv'
        (Opt n (opt_bench_idx o) (opt_burst_size o) (opt_event_size o)
             (opt_rounds o) (opt_cache_size o) (opt_vector_size o))
    | OptIndex n =>
      getopt_loop argv'
        (Opt (opt_time o) n (opt_burst_size o) (opt_event_size o)
             (opt_rounds o) (opt_cache_size o) (opt_vector_size o))
    | OptRounds n =>
      getopt_loop argv'
        (Opt (opt_time o) (opt_bench_idx o) (opt_burst_size o)
             (opt_event_size o) (u32 n) (opt_cache_size o)
             (opt_vector_size o))
    | OptVectorSize n =>
      getopt_loop argv'
        (Opt (opt_time o) (opt_bench_idx o) (opt_burst_size o)
             (opt_event_size o) (opt_rounds o) (opt_cache_size o) n)
    | OptHelp => inr (1, o, [PrintUsage])
    | OptBad => inr (-1, o, [Err "Bad option. Use -h for help."])
    end
  end.

Inductive parse_result : Type :=
| ParseReturn (ret : Z) (o : opt_t) (log : list event)
| ParseExit (status : Z) (log : list event).   (* exit(status) *)

Definition default_opt : opt_t :=
  Opt 0 0 BURST_SIZE EVENT_SIZE ROUNDS (-1) VECTOR_SIZE.

(** [parse_args]; [nbench] is [gbl_args->num_bench]. *)
Definition parse_args (nbench : Z) (argv : list cli_opt) : parse_result :=
  match getopt_loop argv default_opt with
  | inr (ret, o, log) => ParseReturn ret o log
  | inl o =>
    if (opt_burst_size o <? 1) || (opt_burst_size o >? MAX_BURST) then
      ParseExit EXIT_FAILURE [Err "Invalid burst size"]
    else if opt_rounds o <? 1 then
      ParseReturn (-1) o [Err "Invalid test cycle repeat count"]
    else if (opt_bench_idx o <? 0) || (opt_bench_idx o >? nbench) then
      ParseReturn (-1) o [Err "Bad bench index"]
    else ParseReturn 0 o []
  end.

(** The outcome of the calls [main] makes on the control thread. *)
Record boot_t : Type := Boot {
  odph_options_ok : bool;
  odp_init_global_ok : bool;
  odp_init_local_ok : bool;
  odp_cpumask_default_worker_ok : bool;
  em_init_ok : bool;
  main_em_init_core_ok : bool;
  setup_sig_handler_ok : bool;
  odp_shm_reserve_ok : bool;
  odp_shm_addr_ok : bool;
  create_queues_ok : bool;
  em_queue_delete_ok : bool;
  main_em_term_core_ok : bool;
  em_term_ok : bool;
  odp_shm_free_ok : bool;
  odp_term_local_ok : bool;
  odp_term_global_ok : bool
}.

Inductive process_result : Type :=
| ProcessExit (status : Z) (log : list event)
| ProcessAbort (log : list event)
| ProcessBadIndex
| ProcessFuel.

(** The [exit:] label of [main].  [queue] tells whether the unscheduled queue
    exists: [delete_queues] returns -1 without it, and after its own error
    message when [em_queue_delete] fails. *)
Definition main_exit (boot : boot_t) (queue : bool) (ret : Z)
           (log : list event) : process_result :=
  let log :=
    log ++ (if queue
            then if em_queue_delete_ok boot then []
                 else [Err "em_queue_delete() fails";
                       Err "Deleting queues failed"]
            else [Err "Deleting queues failed"])
        ++ (if main_em_term_core_ok boot then []
            else [Err "EM core terminate failed"])
        ++ (if em_term_ok boot then [] else [Err "EM terminate failed"]) in
  if negb (odp_shm_free_ok boot) then
    ProcessExit EXIT_FAILURE (log ++ [Err "Shared mem free failed"])
  else if negb (odp_term_local_ok boot) then
    ProcessExit EXIT_FAILURE (log ++ [Err "Local term failed"])
  else if negb (odp_term_global_ok boot) then
    ProcessExit EXIT_FAILURE (log ++ [Err "Global term failed"])
  else if ret <? 0 then ProcessExit EXIT_FAILURE log
  else ProcessExit EXIT_SUCCESS log.

(** [main]: the worker thread runs [run_benchmarks] from world [w0] and is
    joined; [gbl_args] was cleared, so [bench_failed] starts at 0. *)
Definition main {world : Type} (P : platform world) (fuel : nat)
           (boot : boot_t) (bench_tbl : list (bench_info_t world))
           (argv : list cli_opt) (w0 : world) : process_result :=
  if negb (odph_options_ok boot) then
    ProcessExit EXIT_FAILURE [Err "Reading ODP helper options failed"]
  else if negb (odp_init_global_ok boot) then
    ProcessExit EXIT_FAILURE [Err "Global init failed"]
  else if negb (odp_init_local_ok boot) then
    ProcessExit EXIT_FAILURE [Err "Local init failed"]
  else if negb (odp_cpumask_default_worker_ok boot) then
    ProcessExit EXIT_FAILURE [Err "Unable to allocate worker thread"]
  else if negb (em_init_ok boot) then
    ProcessExit EXIT_FAILURE [Err "EM init failed"]
  else if negb (main_em_init_core_ok boot) then
    ProcessExit EXIT_FAILURE [Err "EM core init failed"]
  else if negb (setup_sig_handler_ok boot) then
    ProcessExit EXIT_FAILURE [Err "Signal handler setup failed"]
  else if negb (odp_shm_reserve_ok boot) then
    ProcessExit EXIT_FAILURE [Err "Shared mem reserve failed"]
  else if negb (odp_shm_addr_ok boot) then
    ProcessExit EXIT_FAILURE [Err "Shared mem alloc failed"]
  else
    match parse_args (num_bench bench_tbl) argv with
    | ParseExit status log => ProcessExit status log
    | ParseReturn ret o log =>
      if negb (ret =? 0) then main_exit boot false ret log else
      let log := log ++ [PrintInfo] in
      if negb (create_queues_ok boot) then
        main_exit boot false ret
                  (log ++ [Err "EM unscheduled queue create failed"])
      else
        match run_benchmarks P bench_tbl o fuel 0 w0 with
        | WorkerReturn _ failed _ wlog =>
          (* ret = gbl_args->bench_failed *)
          main_exit boot true failed (log ++ wlog)
        | WorkerAbort _ wlog => ProcessAbort (log ++ wlog)
        | WorkerTestAbort wlog => ProcessAbort (log ++ wlog)
        | WorkerBadIndex => ProcessBadIndex
        | WorkerFuel => ProcessFuel
        end
    end.

(** ** Rounds of a test case, for the statements below *)

Section Rounds.
Context {world : Type}.
Variable P : platform world.
Variable o : opt_t.

(** One [init -> run -> term] cycle of [bench] from world [w] with every
    call written out: the world after [init], the value [run] returns, the
    world after [run] and the world after [term].  [None] when one of the
    three calls ends in ODPH_ABORT. *)
Record cycle_t : Type := Cycle {
  after_init : world;
  run_ret : Z;
  after_run : world;
  after_term : world
}.

Definition cycle (bench : bench_info_t world) (w : world)
  : option cycle_t :=
  match match init bench with Some f => f w | None => Some w end with
  | None => None
  | Some w1 =>
    match run bench w1 with
    | None => None
    | Some (ret, w2) =>
      match match term bench with Some f => f w2 | None => Some w2 end with
      | None => None
      | Some w3 => Some (Cycle w1 ret w2 w3)
      end
    end
  end.

(** The round started in world [w] goes through: the flag is clear when it
    is polled, the three calls return and [run] does not return 0. *)
Definition round_ok (bench : bench_info_t world) (w : world) : bool :=
  (exit_thread P w =? 0)
  && match cycle bench w with
     | Some c => negb (run_ret c =? 0)
     | None => false
     end.

(** The value [run] returns in the cycle, the world after the cycle, the
    elapsed measure and the calls made.  They are used for cycles whose
    calls return. *)
Definition round_ret (bench : bench_info_t world) (w : world) : Z :=
  match cycle bench w with Some c => run_ret c | None => 0 end.

Definition round_world (bench : bench_info_t world) (w : world) : world :=
  match cycle bench w with Some c => after_term c | None => w end.

Definition round_elapsed (bench : bench_info_t world) (w : world) : Z :=
  match cycle bench w with
  | Some c => stamp_diff P o (stamp P o (after_run c))
                         (stamp P o (after_init c))
  | None => 0
  end.

Definition round_log (j : Z) (bench : bench_info_t world) (w : world)
  : list event :=
  match init bench with Some _ => [CallInit j] | None => [] end
    ++ [CallRun j (round_ret bench w)]
    ++ match term bench with Some _ => [CallTerm j] | None => [] end.

Fixpoint rounds_world (bench : bench_info_t world) (n : nat) (w : world)
  : world :=
  match n with
  | O => w
  | S n' => rounds_world bench n' (round_world bench w)
  end.

(** The first [n] rounds from [w] on go through. *)
Fixpoint rounds_ok (bench : bench_info_t world) (n : nat) (w : world)
  : bool :=
  match n with
  | O => true
  | S n' => round_ok bench w && rounds_ok bench n' (round_world bench w)
  end.

Fixpoint rounds_total (bench : bench_info_t world) (n : nat) (w : world)
         (total : Z) : Z :=
  match n with
  | O => total
  | S n' =>
    rounds_total bench n' (round_world bench w)
                 (u64 (total + round_elapsed bench w))
  end.

Fixpoint rounds_log (j : Z) (bench : bench_info_t world) (n : nat)
         (w : world) : list event :=
  match n with
  | O => []
  | S n' => round_log j bench w ++ rounds_log j bench n' (round_world bench w)
  end.

(** Rounds a case runs when the loop reaches it with [round] and its limit
    is [limit]. *)
Definition rounds_run (limit round : Z) : nat :=
  if round <? limit then Z.to_nat (limit - round + 1) else 1%nat.

(** One pass over the cases [bs], the first of which has index [j] and is
    entered with [round]: the world afterwards and what is logged. *)
Fixpoint pass_spec (i j round : Z) (bs : list (bench_info_t world))
         (w : world) : world * list event :=
  match bs with
  | [] => (w, [])
  | bench :: bs' =>
    let limit := round_limit o bench in
    let n := rounds_run limit round in
    let line :=
      if i >? 0
      then [PrintResult (j + 1) (bench_label bench)
                        (rounds_total bench n w 0)
                        (u32 (limit * REPEAT_COUNT))]
      else [] in
    let '(w', log) := pass_spec i (j + 1) 2 bs' (rounds_world bench n w) in
    (w', rounds_log j bench n w ++ line ++ log)
  end.

(** Every round of the pass goes through: it is neither cancelled nor
    does a test function end the process or a [run] return 0. *)
Fixpoint pass_ok (round : Z) (bs : list (bench_info_t world)) (w : world)
  : bool :=
  match bs with
  | [] => true
  | bench :: bs' =>
    let n := rounds_run (round_limit o bench) round in
    rounds_ok bench n w && pass_ok 2 bs' (rounds_world bench n w)
  end.

Fixpoint pass_fuel (round : Z) (bs : list (bench_info_t world)) : nat :=
  match bs with
  | [] => O
  | bench :: bs' =>
    (rounds_run (round_limit o bench) round + pass_fuel 2 bs')%nat
  end.
End Rounds.

Arguments cycle_t world : clear implicits.

(** The result lines of a log: index and label. *)
Definition result_line (e : event) : option (Z * string) :=
  match e with
  | PrintResult idx label _ _ => Some (idx, label)
  | _ => None
  end.

Definition result_lines (log : list event) : list (Z * string) :=
  omap result_line log.

(** The [run] calls of case [j] in a log. *)
Definition is_run_of (j : Z) (e : event) : bool :=
  match e with
  | CallRun j' _ => j' =? j
  | _ => false
  end.

Definition runs_of (j : Z) (log : list event) : nat :=
  length (filter (fun e => is_run_of j e = true) log).

Definition is_output (e : event) : bool :=
  match e with
  | PrintHeader _ | PrintResult _ _ _ _ | CallInit _ | CallRun _ _
  | CallTerm _ | PrintIndef _ | Aborted _ _ => true
  | _ => false
  end.

(** ** A platform for examples

    The world is a tick counter: every [run] advances it by one, the clocks
    read it, and the signal is delivered once it reaches [cancel_at] (never,
    if [cancel_at] is negative). *)
Definition tick_platform (cancel_at : Z) : platform Z :=
  Platform
    (fun w => if (0 <=? cancel_at) && (cancel_at <=? w) then 1 else 0)
    (fun w => w) (fun w => w)
    (fun t2 t1 => t2 - t1) (fun c2 c1 => c2 - c1)
    (fun w => (true, w)) (fun w => (true, w))
    (fun _ _ _ w => (true, w)).

(** A test case whose [run] returns [ret]. *)
Definition tick_case (nm : string) (ret : Z) : bench_info_t Z :=
  BenchInfo nm (fun w => Some (ret, w + 1)) None None 0 None.

(** A control thread on which every call succeeds. *)
Definition boot_all_ok : boot_t :=
  Boot true true true true true true true true true true true true true true
       true true.

Definition boot_ok (boot : boot_t) : Prop :=
  odph_options_ok boot = true /\ odp_init_global_ok boot = true /\
  odp_init_local_ok boot = true /\
  odp_cpumask_default_worker_ok boot = true /\ em_init_ok boot = true /\
  main_em_init_core_ok boot = true /\ setup_sig_handler_ok boot = true /\
  odp_shm_reserve_ok boot = true /\ odp_shm_addr_ok boot = true.

Definition teardown_ok (boot : boot_t) : Prop :=
  odp_shm_free_ok boot = true /\ odp_term_local_ok boot = true /\
  odp_term_global_ok boot = true.

(** Is this event a result line? *)
Definition is_result (e : event) : bool :=
  match e with
  | PrintResult _ _ _ _ => true
  | _ => false
  end.

(** Total and divisor of a result line: the number printed is their
    quotient, computed in [double]. *)
Definition result_quotient (e : event) : option (Z * Z) :=
  match e with
  | PrintResult _ _ total divisor => Some (total, divisor)
  | _ => None
  end.

Section Results.
Context {world : Type}.
Variable P : platform world.
Variable o : opt_t.

(** The result lines of a measured pass ([pass_spec] with [i > 0]). *)
Fixpoint pass_results (j round : Z) (bs : list (bench_info_t world))
         (w : world) : list event :=
  match bs with
  | [] => []
  | bench :: bs' =>
    let limit := round_limit o bench in
    let n := rounds_run limit round in
    PrintResult (j + 1) (bench_label bench) (rounds_total P o bench n w 0)
                (u32 (limit * REPEAT_COUNT))
      :: pass_results (j + 1) 2 bs' (rounds_world bench n w)
  end.

(** Index and label of the lines for the cases [bs], the first of which
    has index [j]: 1-based, in table order. *)
Fixpoint expected_lines (j : Z) (bs : list (bench_info_t world))
  : list (Z * string) :=
  match bs with
  | [] => []
  | bench :: bs' => (j + 1, bench_label bench) :: expected_lines (j + 1) bs'
  end.

(** The loop state after one round that neither fails nor is cancelled. *)
Definition next_round (i : Z) (bench : bench_info_t world)
           (s : loop_state world) : loop_state world :=
  let w := ls_world s in
  let j := ls_j s in
  let total := u64 (ls_total s + round_elapsed P o bench w) in
  let log := ls_log s ++ round_log j bench w in
  if ls_round s >=? round_limit o bench then
    LoopState (j + 1) 2 0 (ls_failed s) (round_world bench w)
      (if i >? 0
       then log ++ [PrintResult (j + 1) (bench_label bench) total
                                (u32 (round_limit o bench * REPEAT_COUNT))]
       else log)
  else
    LoopState j (u32 (ls_round s + 1)) total (ls_failed s)
              (round_world bench w) log.

(** A normal run whose loop starts in [w] goes through: every round of
    the warm-up pass and of the measured pass after it. *)
Definition run_ok (bench_tbl : list (bench_info_t world)) (w : world)
  : bool :=
  pass_ok P o 1 bench_tbl w
  && pass_ok P o 1 bench_tbl (fst (pass_spec P o 0 0 1 bench_tbl w)).

(** The world in which the benchmark loop starts: after [em_init_core] and
    [create_pools]. *)
Definition worker_start (w0 : world) : world :=
  snd (fst (create_pools P o (snd (em_init_core P w0)))).

Definition worker_setup_ok (w0 : world) : Prop :=
  fst (em_init_core P w0) = true
  /\ fst (fst (create_pools P o (snd (em_init_core P w0)))) = 0.
End Results.

(** Options and tables for the examples: [rounds] rounds, case index [idx]
    (0: run all), everything else at its default. *)
Definition demo_opt (rounds idx : Z) : opt_t :=
  Opt 0 idx BURST_SIZE EVENT_SIZE rounds (-1) VECTOR_SIZE.

Definition two_cases : list (bench_info_t Z) :=
  [tick_case "a" 1000; tick_case "b" 1000].

(** A test case whose functions leave their marks on the counter: [init]
    adds 100, [run] adds 1 and returns [ret] of the counter it finds, [term]
    adds 10. *)
Definition marked_case (nm : string) (ret : Z -> Z) : bench_info_t Z :=
  BenchInfo nm (fun w => Some (ret w, w + 1))
            (Some (fun w => Some (w + 100))) (Some (fun w => Some (w + 10)))
            0 None.

(** A test case whose [init] cannot allocate its events once the counter has
    reached [limit], and ends the process. *)
Definition starved_case (nm : string) (limit : Z) : bench_info_t Z :=
  BenchInfo nm (fun w => Some (1000, w + 1))
            (Some (fun w => if w <? limit then Some w else None)) None
            0 None.

(** A table whose first case has an [init] and a [term], and a [run] that
    fails once the counter has reached 5000. *)
Definition mixed_cases : list (bench_info_t Z) :=
  [marked_case "a" (fun w => if w <? 5000 then 1000 else 0);
   tick_case "b" 1000].

(** ** Table indices used by the test functions

    For every init, run and term function of [test_suite]: the places of the
    tables of [gbl_args] it reads or writes, in order.  [tbl[i]] is an access
    of length 1 at [i]; [&tbl[off]] handed to a *_multi() call with a count
    of [len] is an access of length [len] at [off].  A function that returns
    early on an error makes a prefix of the accesses listed. *)

Module Footprint.

Inductive table : Type :=
| event_tbl | event2_tbl | ptr_tbl | u16_tbl | u32_tbl | et_tbl | pool_tbl
| odp_event_tbl.

Record access : Type := Access {
  acc_tbl : table;
  acc_off : Z;
  acc_len : Z
}.

Definition at_index (t : table) (i : Z) : access := Access t i 1.
Definition span (t : table) (off len : Z) : access := Access t off len.

(** [for (i = 0; i < n; i++) body] *)
Definition for_loop (n : Z) (body : Z -> list access) : list access :=
  concat (map body (seqZ 0 n)).

Section TestFunctions.
Context {pool_t : Type}.
Variable em_alloc_multi : pool_t -> Z -> Z * pool_t.
Variable fuel : nat.
Variable pool : pool_t.
Variable burst_size : Z.      (* gbl_args->opt.burst_size *)

(** *** Initialization *)

Definition init_test_events (num : Z) : list access :=
  for_loop num (fun i => [at_index event_tbl i; at_index odp_event_tbl i]).

(** Every call [em_alloc_multi(&event[num_events], num - num_events, ...)]
    made by the loop of [allocate_test_events] (the model above, run on
    [gbl_args->event_tbl]). *)
Definition allocate_test_events (num : Z) : list access :=
  map (fun c => span event_tbl (call_off c) (call_num c))
      (alloc_calls
         (allocate_test_events em_alloc_multi fuel pool num)).

(** The packets are collected in local arrays of [num] entries and
    converted by [em_odp_events2em(odp_evs, events, num)]. *)
Definition allocate_test_ext_pktevents (num : Z) : list access :=
  [span event_tbl 0 num].

Definition create_packets : list access :=
  allocate_test_events REPEAT_COUNT ++ init_test_events REPEAT_COUNT.

Definition create_ext_packets : list access :=
  allocate_test_ext_pktevents REPEAT_COUNT.

Definition create_packets_multi : list access :=
  let num_events := REPEAT_COUNT * burst_size in
  allocate_test_events num_events ++ init_test_events num_events.

Definition create_sw_events : list access :=
  allocate_test_events REPEAT_COUNT ++ init_test_events REPEAT_COUNT.

Definition create_sw_events_multi : list access :=
  let num_events := REPEAT_COUNT * burst_size in
  allocate_test_events num_events ++ init_test_events num_events.

Definition create_vectors : list access :=
  allocate_test_events REPEAT_COUNT ++ init_test_events REPEAT_COUNT.

Definition create_vectors_multi : list access :=
  let num_events := REPEAT_COUNT * burst_size in
  allocate_test_events num_events ++ init_test_events REPEAT_COUNT.

(** *** Release *)

Definition free_event_tbl (t : table) (num : Z) : list access :=
  for_loop num (fun i => [at_index t i]).

Definition free_events : list access :=
  free_event_tbl event_tbl REPEAT_COUNT.

Definition free_events_multi : list access :=
  free_event_tbl event_tbl (REPEAT_COUNT * burst_size).

Definition free_vectors : list access :=
  for_loop REPEAT_COUNT (fun i => [at_index event_tbl i]) ++ free_events.

Definition free_clone_events : list access :=
  free_event_tbl event_tbl REPEAT_COUNT
    ++ free_event_tbl event2_tbl REPEAT_COUNT.

(** *** Test functions *)

Definition event_alloc : list access :=
  for_loop REPEAT_COUNT (fun i => [at_index event_tbl i]).

Definition event_sw_alloc : list access :=
  event_alloc.

Definition event_pkt_alloc : list access :=
  event_alloc.

Definition event_vector_alloc : list access :=
  event_alloc.

Definition event_alloc_multi : list access :=
  for_loop REPEAT_COUNT
  (fun i => [span event_tbl (i * burst_size) burst_size]).

Definition event_sw_alloc_multi : list access :=
  event_alloc_multi.

Definition event_pkt_alloc_multi : list access :=
  event_alloc_multi.

Definition event_vector_alloc_multi : list access :=
  event_alloc_multi.

Definition alloc_free : list access :=
  for_loop REPEAT_COUNT (fun _ => []).

Definition event_sw_alloc_free : list access :=
  alloc_free.

Definition event_pkt_alloc_free : list access :=
  alloc_free.

Definition event_vector_alloc_free : list access :=
  alloc_free.

(** [em_alloc_multi(event_tbl, burst_size, ...)], then
    [em_free_multi(event_tbl, ret)] on the [ret <= burst_size] events
    just allocated. *)

Definition alloc_free_multi : list access :=
  for_loop REPEAT_COUNT
  (fun _ => [span event_tbl 0 burst_size; span event_tbl 0 burst_size]).

Definition event_sw_alloc_free_multi : list access :=
  alloc_free_multi.

Definition event_pkt_alloc_free_multi : list access :=
  alloc_free_multi.

Definition event_vector_alloc_free_multi : list access :=
  alloc_free_multi.

Definition event_free : list access :=
  for_loop REPEAT_COUNT (fun i => [at_index event_tbl i]).

Definition event_free_multi : list access :=
  for_loop REPEAT_COUNT
  (fun i => [span event_tbl (i * burst_size) burst_size]).

Definition event_pointer : list access :=
  for_loop REPEAT_COUNT (fun i => [at_index event_tbl i; at_index ptr_tbl i]).

Definition event_uarea_get : list access :=
  for_loop REPEAT_COUNT (fun i => [at_index event_tbl i; at_index ptr_tbl i]).

Definition event_uarea_get_size : list access :=
  for_loop REPEAT_COUNT (fun i => [at_index event_tbl i; at_index ptr_tbl i]).

Definition event_get_size : list access :=
  for_loop REPEAT_COUNT (fun i => [at_index event_tbl i; at_index u32_tbl i]).

Definition event_get_type : list access :=
  for_loop REPEAT_COUNT (fun i => [at_index event_tbl i; at_index et_tbl i]).

Definition event_get_type_multi : list access :=
  for_loop REPEAT_COUNT
  (fun i => [span event_tbl (i * burst_size) burst_size;
             span et_tbl (i * burst_size) burst_size]).

Definition event_same_type_multi : list access :=
  for_loop REPEAT_COUNT
  (fun i => [span event_tbl (i * burst_size) burst_size;
             at_index et_tbl i]).

Definition event_set_type : list access :=
  for_loop REPEAT_COUNT (fun i => [at_index event_tbl i]).

Definition event_get_pool : list access :=
  for_loop REPEAT_COUNT (fun i => [at_index event_tbl i; at_index pool_tbl i]).

Definition event_uarea_id_get : list access :=
  for_loop REPEAT_COUNT (fun i => [at_index event_tbl i; at_index u16_tbl i]).

Definition event_uarea_id_set : list access :=
  for_loop REPEAT_COUNT (fun i => [at_index event_tbl i]).

Definition event_uarea_info : list access :=
  for_loop REPEAT_COUNT (fun i => [at_index event_tbl i]).

Definition event_has_ref : list access :=
  for_loop REPEAT_COUNT (fun i => [at_index event_tbl i]).

Definition event_ref : list access :=
  for_loop REPEAT_COUNT (fun i => [at_index event_tbl i; at_index event2_tbl i]).

Definition event_clone : list access :=
  for_loop REPEAT_COUNT (fun i => [at_index event_tbl i; at_index event2_tbl i]).

Definition event_vector_free : list access :=
  for_loop REPEAT_COUNT (fun i => [at_index event_tbl i]).

Definition event_vector_tbl : list access :=
  for_loop REPEAT_COUNT (fun i => [at_index event_tbl i]).

Definition event_vector_size : list access :=
  for_loop REPEAT_COUNT (fun i => [at_index event_tbl i]).

Definition event_vector_max_size : list access :=
  for_loop REPEAT_COUNT (fun i => [at_index event_tbl i]).

Definition event_vector_size_set : list access :=
  for_loop REPEAT_COUNT (fun i => [at_index event_tbl i]).

Definition event_vector_info : list access :=
  for_loop REPEAT_COUNT (fun i => [at_index event_tbl i]).

Definition core_id : list access :=
  for_loop REPEAT_COUNT (fun i => [at_index u32_tbl i]).

Definition core_count : list access :=
  for_loop REPEAT_COUNT (fun i => [at_index u32_tbl i]).

Definition odp_event2odp : list access :=
  for_loop REPEAT_COUNT (fun i => [at_index event_tbl i; at_index odp_event_tbl i]).

Definition odp_events2odp : list access :=
  for_loop REPEAT_COUNT
  (fun i => [span event_tbl (i * burst_size) burst_size;
             span odp_event_tbl (i * burst_size) burst_size]).

Definition odp_event2em : list access :=
  for_loop REPEAT_COUNT (fun i => [at_index odp_event_tbl i; at_index event_tbl i]).

Definition odp_events2em : list access :=
  for_loop REPEAT_COUNT
  (fun i => [span odp_event_tbl (i * burst_size) burst_size;
             span event_tbl (i * burst_size) burst_size]).

Definition unsched_send : list access :=
  for_loop REPEAT_COUNT (fun i => [at_index event_tbl i]).

Definition unsched_send_multi : list access :=
  for_loop REPEAT_COUNT
  (fun i => [span event_tbl (i * burst_size) burst_size]).

Definition unsched_dequeue : list access :=
  for_loop REPEAT_COUNT (fun i => [at_index event_tbl i]).

Definition unsched_dequeue_multi : list access :=
  for_loop REPEAT_COUNT
  (fun i => [span event_tbl (i * burst_size) burst_size]).

Definition unsched_send_dequeue : list access :=
  for_loop REPEAT_COUNT (fun i => [at_index event_tbl i; at_index event_tbl i]).

Definition unsched_send_dequeue_multi : list access :=
  for_loop REPEAT_COUNT
  (fun i => [span event_tbl (i * burst_size) burst_size;
             span event_tbl (i * burst_size) burst_size]).

Definition unsched_dequeue_free : list access :=
  unsched_dequeue ++ free_events.

Definition unsched_dequeue_free_multi : list access :=
  unsched_dequeue_multi ++ free_events_multi.

Definition create_send_unsched_sw_events : list access :=
  create_sw_events ++ unsched_send.

Definition create_send_unsched_sw_events_multi : list access :=
  create_sw_events_multi ++ unsched_send_multi.


(** *** The suite *)

Record bench_access : Type := BENCH_INFO {
  fp_run : list access;
  fp_init : option (list access);
  fp_term : option (list access);
  fp_max_rounds : Z;
  fp_desc : option string
}.

Definition test_suite : list bench_access := [
  BENCH_INFO event_sw_alloc None (Some free_events) 0 (Some "em_event_alloc(sw)");
  BENCH_INFO event_pkt_alloc None (Some free_events) 0 (Some "em_event_alloc(pkt)");
  BENCH_INFO event_vector_alloc None (Some free_events) 0 (Some "em_event_alloc(vect)");
  BENCH_INFO event_sw_alloc_multi None (Some free_events_multi) 0 (Some "em_event_alloc_multi(sw)");
  BENCH_INFO event_pkt_alloc_multi None (Some free_events_multi) 0 (Some "em_event_alloc_multi(pkt)");
  BENCH_INFO event_vector_alloc_multi None (Some free_events_multi) 0 (Some "em_event_alloc_multi(vect)");
  BENCH_INFO event_free (Some create_sw_events) None 0 (Some "em_free(sw)");
  BENCH_INFO event_free (Some create_packets) None 0 (Some "em_free(pkt)");
  BENCH_INFO event_free (Some create_vectors) None 0 (Some "em_free(vect)");
  BENCH_INFO event_free_multi (Some create_sw_events_multi) None 0 (Some "em_free_multi(sw)");
  BENCH_INFO event_free_multi (Some create_packets_multi) None 0 (Some "em_free_multi(pkt)");
  BENCH_INFO event_free_multi (Some create_vectors_multi) None 0 (Some "em_free_multi(vect)");
  BENCH_INFO event_vector_free (Some create_vectors) None 0 None;
  BENCH_INFO event_sw_alloc_free None None 0 (Some "event_alloc_free(sw)");
  BENCH_INFO event_pkt_alloc_free None None 0 (Some "event_alloc_free(pkt)");
  BENCH_INFO event_vector_alloc_free None None 0 (Some "event_alloc_free(vect)");
  BENCH_INFO event_sw_alloc_free_multi None None 0 (Some "event_alloc_free_multi(sw)");
  BENCH_INFO event_pkt_alloc_free_multi None None 0 (Some "event_alloc_free_multi(pkt)");
  BENCH_INFO event_vector_alloc_free_multi None None 0 (Some "event_alloc_free_multi(vect)");
  BENCH_INFO unsched_send (Some create_sw_events) (Some unsched_dequeue_free) 0 (Some "em_send(unsched-Q)");
  BENCH_INFO unsched_send_multi (Some create_sw_events_multi) (Some unsched_dequeue_free_multi) 0 (Some "em_send_multi(unsched-Q)");
  BENCH_INFO unsched_dequeue (Some create_send_unsched_sw_events) (Some free_events) 0 (Some "em_queue_dequeue(unsched-Q)");
  BENCH_INFO unsched_dequeue_multi (Some create_send_unsched_sw_events_multi) (Some free_events_multi) 0 (Some "em_queue_dequeue_multi(unsched-Q)");
  BENCH_INFO unsched_send_dequeue (Some create_sw_events) (Some free_events) 0 (Some "event_send_dequeue(unsched-Q)");
  BENCH_INFO unsched_send_dequeue_multi (Some create_sw_events_multi) (Some free_events_multi) 0 (Some "event_send_dequeue_multi(unsched-Q)");
  BENCH_INFO event_clone (Some create_sw_events) (Some free_clone_events) 0 (Some "em_event_clone(sw)");
  BENCH_INFO event_clone (Some create_packets) (Some free_clone_events) 0 (Some "em_event_clone(pkt)");
  BENCH_INFO event_has_ref (Some create_packets) (Some free_events) 0 (Some "em_event_has_ref(pkt)");
  BENCH_INFO event_ref (Some create_packets) (Some free_clone_events) 0 (Some "em_event_ref(pkt)");
  BENCH_INFO event_pointer (Some create_sw_events) (Some free_events) 0 (Some "em_event_pointer(sw)");
  BENCH_INFO event_pointer (Some create_packets) (Some free_events) 0 (Some "em_event_pointer(pkt)");
  BENCH_INFO event_uarea_get (Some create_sw_events) (Some free_events) 0 (Some "em_event_uarea_get(sw, null)");
  BENCH_INFO event_uarea_get (Some create_packets) (Some free_events) 0 (Some "em_event_uarea_get(pkt, null)");
  BENCH_INFO event_uarea_get (Some create_ext_packets) (Some free_events) 0 (Some "em_event_uarea_get(ext-pkt, null)");
  BENCH_INFO event_uarea_get_size (Some create_sw_events) (Some free_events) 0 (Some "em_event_uarea_get(sw, size)");
  BENCH_INFO event_uarea_get_size (Some create_packets) (Some free_events) 0 (Some "em_event_uarea_get(pkt, size)");
  BENCH_INFO event_uarea_get_size (Some create_ext_packets) (Some free_events) 0 (Some "em_event_uarea_get(ext-pkt, size)");
  BENCH_INFO event_uarea_id_get (Some create_sw_events) (Some free_events) 0 (Some "em_event_uarea_id_get(sw)");
  BENCH_INFO event_uarea_id_get (Some create_packets) (Some free_events) 0 (Some "em_event_uarea_id_get(pkt)");
  BENCH_INFO event_uarea_id_get (Some create_ext_packets) (Some free_events) 0 (Some "em_event_uarea_id_get(ext-pkt)");
  BENCH_INFO event_uarea_id_set (Some create_sw_events) (Some free_events) 0 (Some "em_event_uarea_id_set(sw)");
  BENCH_INFO event_uarea_id_set (Some create_packets) (Some free_events) 0 (Some "em_event_uarea_id_set(pkt)");
  BENCH_INFO event_uarea_id_set (Some create_ext_packets) (Some free_events) 0 (Some "em_event_uarea_id_set(ext-pkt)");
  BENCH_INFO event_uarea_info (Some create_sw_events) (Some free_events) 0 (Some "event_uarea_info(sw)");
  BENCH_INFO event_uarea_info (Some create_packets) (Some free_events) 0 (Some "event_uarea_info(pkt)");
  BENCH_INFO event_uarea_info (Some create_ext_packets) (Some free_events) 0 (Some "event_uarea_info(ext-pkt)");
  BENCH_INFO event_get_size (Some create_sw_events) (Some free_events) 0 (Some "em_event_get_size(sw)");
  BENCH_INFO event_get_size (Some create_packets) (Some free_events) 0 (Some "em_event_get_size(pkt)");
  BENCH_INFO event_get_type (Some create_sw_events) (Some free_events) 0 (Some "em_event_get_type(sw)");
  BENCH_INFO event_get_type (Some create_packets) (Some free_events) 0 (Some "em_event_get_type(pkt)");
  BENCH_INFO event_get_type_multi (Some create_sw_events_multi) (Some free_events_multi) 0 (Some "em_event_get_type_multi(sw)");
  BENCH_INFO event_get_type_multi (Some create_packets_multi) (Some free_events_multi) 0 (Some "em_event_get_type_multi(pkt)");
  BENCH_INFO event_same_type_multi (Some create_sw_events_multi) (Some free_events_multi) 0 (Some "em_event_same_type_multi(sw)");
  BENCH_INFO event_same_type_multi (Some create_packets_multi) (Some free_events_multi) 0 (Some "em_event_same_type_multi(pkt)");
  BENCH_INFO event_set_type (Some create_sw_events) (Some free_events) 0 (Some "em_event_set_type(sw)");
  BENCH_INFO event_set_type (Some create_packets) (Some free_events) 0 (Some "em_event_set_type(pkt)");
  BENCH_INFO event_get_pool (Some create_sw_events) (Some free_events) 0 (Some "em_event_get_pool(sw)");
  BENCH_INFO event_get_pool (Some create_packets) (Some free_events) 0 (Some "em_event_get_pool(pkt)");
  BENCH_INFO event_vector_tbl (Some create_vectors) (Some free_events) 0 None;
  BENCH_INFO event_vector_size (Some create_vectors) (Some free_events) 0 None;
  BENCH_INFO event_vector_max_size (Some create_vectors) (Some free_events) 0 None;
  BENCH_INFO event_vector_size_set (Some create_vectors) (Some free_vectors) 0 None;
  BENCH_INFO event_vector_info (Some create_vectors) (Some free_vectors) 0 None;
  BENCH_INFO core_id None None 0 None;
  BENCH_INFO core_count None None 0 None;
  BENCH_INFO odp_event2odp (Some create_sw_events) (Some free_events) 0 (Some "em_odp_event2odp(sw)");
  BENCH_INFO odp_event2odp (Some create_packets) (Some free_events) 0 (Some "em_odp_event2odp(pkt)");
  BENCH_INFO odp_events2odp (Some create_sw_events_multi) (Some free_events_multi) 0 (Some "em_odp_events2odp(sw)");
  BENCH_INFO odp_events2odp (Some create_packets_multi) (Some free_events_multi) 0 (Some "em_odp_events2odp(pkt)");
  BENCH_INFO odp_event2em (Some create_sw_events) (Some free_events) 0 (Some "em_odp_event2em(sw)");
  BENCH_INFO odp_event2em (Some create_packets) (Some free_events) 0 (Some "em_odp_event2em(pkt)");
  BENCH_INFO odp_events2em (Some create_sw_events_multi) (Some free_events_multi) 0 (Some "em_odp_events2em(sw)");
  BENCH_INFO odp_events2em (Some create_packets_multi) (Some free_events_multi) 0 (Some "em_odp_events2em(pkt)")
].

Definition optional (f : option (list access)) : list access :=
  match f with Some l => l | None => [] end.

(** All accesses of a test case: init, run, term. *)
Definition accesses (bench : bench_access) : list access :=
  optional (fp_init bench) ++ fp_run bench ++ optional (fp_term bench).
End TestFunctions.

(** An access that stays inside the first [REPEAT_COUNT * burst_size]
    entries of its table. *)
Definition in_range (burst_size : Z) (a : access) : Prop :=
  0 <= acc_off a /\ acc_off a + acc_len a <= REPEAT_COUNT * burst_size.

(** An allocator that hands out whatever is asked for. *)
Definition alloc_all (p : unit) (num : Z) : Z * unit := (num, p).
End Footprint.

(** ** More of the program: queues, test events and some test functions *)

(** Events a log can be searched for. *)
Definition zero_run (e : event) : bool :=
  match e with
  | CallRun _ ret => ret =? 0
  | _ => false
  end.

(** Calls of test functions are made for case [j] only, and no result line
    is printed. *)
Definition only_case (j : Z) (e : event) : Prop :=
  match e with
  | CallInit j' | CallRun j' _ | CallTerm j' | Aborted _ j' => j' = j
  | PrintResult _ _ _ _ => False
  | _ => True
  end.

(** The log a worker leaves, however it ended. *)
Definition worker_log {world : Type} (r : worker_result world) : list event :=
  match r with
  | WorkerReturn _ _ _ log => log
  | WorkerAbort _ log => log
  | WorkerTestAbort log => log
  | WorkerBadIndex => []
  | WorkerFuel => []
  end.

(** Options that do not end the option loop. *)
Definition plain_opt (a : cli_opt) : Prop :=
  a <> OptHelp /\ a <> OptBad.

(** A platform on which the world is the list of the pools created so far,
    as (name, subpool size, number of events); [created name] tells whether
    the creation of that pool succeeds. *)
Definition pool_platform (created : string -> bool)
  : platform (list (string * Z * Z)) :=
  Platform (fun _ => 0) (fun _ => 0) (fun _ => 0)
           (fun t2 t1 => t2 - t1) (fun c2 c1 => c2 - c1)
           (fun w => (true, w)) (fun w => (true, w))
           (fun nm size num w => (created nm, w ++ [(nm, size, num)])).

Section Queues.
(** The state of the unscheduled queue, with the EM calls on it:
  [em_send(event, queue)] (true: EM_OK), [em_queue_dequeue(queue)] and
  [em_queue_delete(queue)] (true: EM_OK). *)
Context {queue_t : Type}.
Variable EM_QUEUE_UNDEF : Z.
Variable EM_EVENT_UNDEF : Z.
Variable em_send : queue_t -> Z -> bool * queue_t.
Variable em_queue_dequeue : queue_t -> Z * queue_t.
Variable em_queue_delete : queue_t -> bool * queue_t.

Inductive drain_result : Type :=
| DrainDone (q : queue_t) (freed : list Z)
| DrainFuel.

(** The [do ... while (event != EM_EVENT_UNDEF)] loop of [delete_queues];
  [freed] lists the events passed to [em_free]. *)
Fixpoint drain_loop (fuel : nat) (q : queue_t) (freed : list Z)
: drain_result :=
match fuel with
| O => DrainFuel
| S fuel' =>
  let '(ev, q') := em_queue_dequeue q in
  if negb (ev =? EM_EVENT_UNDEF)
  then drain_loop fuel' q' (freed ++ [ev])
  else DrainDone q' freed
end.

Inductive delete_result : Type :=
| DeleteReturn (ret : Z) (unsched_queue : Z) (q : queue_t) (freed : list Z)
             (log : list event)
| DeleteFuel.

(** [delete_queues]; [unsched_queue] is [gbl_args->unsched_queue]. *)
Definition delete_queues (fuel : nat) (unsched_queue : Z) (q : queue_t)
: delete_result :=
if unsched_queue =? EM_QUEUE_UNDEF then
  DeleteReturn (-1) unsched_queue q [] []
else
  match drain_loop fuel q [] with
  | DrainFuel => DeleteFuel
  | DrainDone q1 freed =>
    let '(ok, q2) := em_queue_delete q1 in
    if negb ok then
      DeleteReturn (-1) unsched_queue q2 freed
                   [Err "em_queue_delete() fails"]
    else DeleteReturn 0 EM_QUEUE_UNDEF q2 freed []
  end.

(** The loop of [unsched_send] from index [i] on, [n] iterations left: the
  value returned and the queue.  [None]: an index past the end of the
  table. *)
Fixpoint unsched_send_loop (n i : nat) (event_tbl : list Z) (q : queue_t)
: option (Z * queue_t) :=
match n with
| O => Some (Z.of_nat i, q)              (* return i *)
| S n' =>
  match event_tbl !! i with
  | None => None
  | Some ev =>
    let '(ok, q') := em_send q ev in
    if negb ok then Some (0, q')         (* return 0: error *)
    else unsched_send_loop n' (S i) event_tbl q'
  end
end.

Definition unsched_send (event_tbl : list Z) (q : queue_t)
: option (Z * queue_t) :=
unsched_send_loop (Z.to_nat REPEAT_COUNT) 0 event_tbl q.

(** The loop of [unsched_dequeue]: the value returned, the table and the
  queue. *)
Fixpoint unsched_dequeue_loop (n i : nat) (event_tbl : list Z) (q : queue_t)
: option (Z * list Z * queue_t) :=
match n with
| O => Some (Z.of_nat i, event_tbl, q)
| S n' =>
  match event_tbl !! i with
  | None => None
  | Some _ =>
    let '(ev, q') := em_queue_dequeue q in
    let event_tbl' := <[i := ev]> event_tbl in
    if ev =? EM_EVENT_UNDEF then Some (0, event_tbl', q')
    else unsched_dequeue_loop n' (S i) event_tbl' q'
  end
end.

Definition unsched_dequeue (event_tbl : list Z) (q : queue_t)
: option (Z * list Z * queue_t) :=
unsched_dequeue_loop (Z.to_nat REPEAT_COUNT) 0 event_tbl q.

(** The loop of [unsched_send_dequeue]. *)
Fixpoint unsched_send_dequeue_loop (n i : nat) (event_tbl : list Z)
       (q : queue_t) : option (Z * list Z * queue_t) :=
match n with
| O => Some (Z.of_nat i, event_tbl, q)
| S n' =>
  match event_tbl !! i with
  | None => None
  | Some ev =>
    let '(ok, q1) := em_send q ev in
    if negb ok then Some (0, event_tbl, q1)
    else
      let '(ev', q2) := em_queue_dequeue q1 in
      let event_tbl' := <[i := ev']> event_tbl in
      if ev' =? EM_EVENT_UNDEF then Some (0, event_tbl', q2)
      else unsched_send_dequeue_loop n' (S i) event_tbl' q2
  end
end.

Definition unsched_send_dequeue (event_tbl : list Z) (q : queue_t)
: option (Z * list Z * queue_t) :=
unsched_send_dequeue_loop (Z.to_nat REPEAT_COUNT) 0 event_tbl q.

(** [free_events]: [free_event_tbl(gbl_args->event_tbl, REPEAT_COUNT)]. *)
Definition free_events (event_tbl : list Z) : option (list Z * list Z) :=
free_event_tbl EM_EVENT_UNDEF event_tbl REPEAT_COUNT.

(** [unsched_dequeue_free]: [unsched_dequeue(); free_events();], the value
  of [unsched_dequeue] being dropped.  The table, the events freed and the
  queue. *)
Definition unsched_dequeue_free (event_tbl : list Z) (q : queue_t)
: option (list Z * list Z * queue_t) :=
match unsched_dequeue event_tbl q with
| None => None
| Some (_, event_tbl', q') =>
  match free_events event_tbl' with
  | None => None
  | Some (event_tbl'', freed) => Some (event_tbl'', freed, q')
  end
end.
End Queues.

(** A queue that holds its events in order of arrival, up to [capacity]
    events: [em_send] fails on a full queue, [em_queue_dequeue] yields
    [EM_EVENT_UNDEF] on an empty one. *)
Definition fifo_send (capacity : Z) (q : list Z) (ev : Z) : bool * list Z :=
  if Z.of_nat (length q) <? capacity then (true, q ++ [ev]) else (false, q).

Definition fifo_dequeue (EM_EVENT_UNDEF : Z) (q : list Z) : Z * list Z :=
  match q with
  | [] => (EM_EVENT_UNDEF, [])
  | ev :: q' => (ev, q')
  end.

Definition fifo_delete (ok : bool) (q : list Z) : bool * list Z := (ok, q).

Section TestEvents.
(** The user areas of the events, with [em_event_uarea_id_set(event, id)]
  (true: EM_OK), and [em_odp_event2odp(event)]. *)
Context {uarea_t : Type}.
Variable em_event_uarea_id_set : uarea_t -> Z -> Z -> bool * uarea_t.
Variable em_odp_event2odp : Z -> Z.

Inductive init_result : Type :=
| InitDone (odp_event_tbl : list Z) (u : uarea_t) (ids : list (Z * Z))
| InitAbort (odp_event_tbl : list Z) (u : uarea_t) (ids : list (Z * Z))
  (* ODPH_ABORT("Setting event user area ID failed") *)
| InitBounds.   (* an index past the end of a table *)

(** The loop of [init_test_events] from index [i] on, [n] iterations left;
  [ids] lists the calls of [em_event_uarea_id_set] as (event, id). *)
Fixpoint init_test_events_loop (n i : nat) (event odp_event_tbl : list Z)
       (u : uarea_t) (ids : list (Z * Z)) : init_result :=
match n with
| O => InitDone odp_event_tbl u ids
| S n' =>
  match event !! i, odp_event_tbl !! i with
  | Some ev, Some _ =>
    let '(ok, u') := em_event_uarea_id_set u ev (Z.of_nat i) in
    let ids' := ids ++ [(ev, Z.of_nat i)] in
    if negb ok then InitAbort odp_event_tbl u' ids'
    else
      init_test_events_loop n' (S i) event
        (<[i := em_odp_event2odp ev]> odp_event_tbl) u' ids'
  | _, _ => InitBounds
  end
end.

Definition init_test_events (event odp_event_tbl : list Z) (num : Z)
         (u : uarea_t) : init_result :=
init_test_events_loop (Z.to_nat num) 0 event odp_event_tbl u [].
End TestEvents.

Section EventAlloc.
(** [em_alloc(size, type, pool)]: the event, or [EM_EVENT_UNDEF], and the
  pools afterwards. *)
Context {pool_t : Type}.
Variable em_alloc : pool_t -> Z * pool_t.

(** The loop of [event_alloc] from index [i] on: the value returned, the
  table and the pools. *)
Fixpoint event_alloc_loop (n i : nat) (event_tbl : list Z) (p : pool_t)
: option (Z * list Z * pool_t) :=
match n with
| O => Some (Z.of_nat i, event_tbl, p)
| S n' =>
  match event_tbl !! i with
  | None => None
  | Some _ =>
    let '(ev, p') := em_alloc p in
    event_alloc_loop n' (S i) (<[i := ev]> event_tbl) p'
  end
end.

Definition event_alloc (event_tbl : list Z) (p : pool_t)
: option (Z * list Z * pool_t) :=
event_alloc_loop (Z.to_nat REPEAT_COUNT) 0 event_tbl p.
End EventAlloc.

(** The events a pool hands out, [n] allocations from [p] on. *)
Fixpoint allocated {pool_t : Type} (em_alloc : pool_t -> Z * pool_t)
         (n : nat) (p : pool_t) : list Z :=
  match n with
  | O => []
  | S n' => fst (em_alloc p) :: allocated em_alloc n' (snd (em_alloc p))
  end.

(** Sum of the values returned by the calls of the allocator. *)
Definition returned (calls : list alloc_call) : Z :=
  foldr Z.add 0 (map call_ret calls).

(** The log at the end of the inner loop, when it ended. *)
Definition loop_log {world : Type} (r : loop_result world)
  : option (list event) :=
  match r with
  | LoopEnd s => Some (ls_log s)
  | GotoExit s => Some (ls_log s)
  | LoopAbort _ log => Some log
  | LoopTestAbort log => Some log
  | LoopBadIndex => None
  | LoopFuel => None
  end.

(** * Properties *)

(** ** Allocation of test events *)

Section ProvisionerFacts.
Context {pool_t : Type}.
Variable em_alloc_multi : pool_t -> Z -> Z * pool_t.

Lemma alloc_loop_ones (n : nat) :
  (forall p k, fst (em_alloc_multi p k) = 1) ->
  forall num num_events num_retries p calls fuel,
    num - num_events = Z.of_nat n -> (n < fuel)%nat ->
    exists p' calls',
      alloc_loop em_alloc_multi fuel num num_events num_retries p calls
        = AllocDone num p' (calls ++ calls')
      /\ length calls' = n
      /\ Forall (fun c => call_ret c = 1) calls'.
Proof.
  intros Hone. induction n as [|n IH]; intros num ne r p calls fuel Hn Hf.
  - destruct fuel as [|fuel]; [lia|]. simpl.
    replace (ne <? num) with false by (symmetry; apply Z.ltb_ge; lia).
    exists p, []. rewrite app_nil_r. replace ne with num by lia. auto.
  - destruct fuel as [|fuel]; [lia|]. simpl.
    replace (ne <? num) with true by (symmetry; apply Z.ltb_lt; lia).
    pose proof (Hone p (num - ne)) as Hret.
    destruct (em_alloc_multi p (num - ne)) as [ret p1]. simpl in Hret. subst ret.
    simpl.
    destruct (IH num (ne + 1) 0 p1
                (calls ++ [AllocCall ne (num - ne) 1]) fuel)
      as (p' & calls' & Heq & Hlen & Hall); [lia | lia |].
    exists p', (AllocCall ne (num - ne) 1 :: calls').
    rewrite Heq, <- app_assoc. simpl. repeat split; auto.
Qed.

Lemma alloc_loop_zeros (n : nat) :
  (forall p k, fst (em_alloc_multi p k) = 0) ->
  forall num num_events num_retries p calls fuel,
    num_events < num -> 0 <= num_retries ->
    MAX_RETRY - num_retries = Z.of_nat n -> (n < fuel)%nat ->
    exists p' calls',
      alloc_loop em_alloc_multi fuel num num_events num_retries p calls
        = AllocAbort p' (calls ++ calls')
      /\ length calls' = S n
      /\ Forall (fun c => call_ret c = 0) calls'.
Proof.
  intros Hzero. induction n as [|n IH]; intros num ne r p calls fuel Hlt Hr Hn Hf;
    (destruct fuel as [|fuel]; [lia|]); simpl;
    (replace (ne <? num) with true by (symmetry; apply Z.ltb_lt; lia));
    pose proof (Hzero p (num - ne)) as Hret;
    destruct (em_alloc_multi p (num - ne)) as [ret p1]; simpl in Hret; subst ret;
    simpl.
  - replace (r + 1 >? MAX_RETRY) with true by (symmetry; apply Z.gtb_lt; lia).
    exists p1, [AllocCall ne (num - ne) 0]. auto.
  - replace (r + 1 >? MAX_RETRY) with false
      by (symmetry; rewrite Z.gtb_ltb; apply Z.ltb_ge; lia).
    destruct (IH num ne (r + 1) p1
                (calls ++ [AllocCall ne (num - ne) 0]) fuel)
      as (p' & calls' & Heq & Hlen & Hall); [lia | lia | lia | lia |].
    exists p', (AllocCall ne (num - ne) 0 :: calls').
    rewrite Heq, <- app_assoc. simpl. repeat split; auto.
Qed.
End ProvisionerFacts.

(** C2, as the code has it.  An allocator that hands out exactly one event
    per call makes [allocate_test_events] complete: a request for [count]
    events returns after exactly [count] calls, each of which resets the
    retry counter, and nothing aborts.  The ceiling [MAX_RETRY] counts
    consecutive empty returns only: an allocator that always returns 0 makes
    the function abort at call number [MAX_RETRY + 1] = 1025. *)
Theorem allocate_one_per_call_completes :
  forall (pool_t : Type) (alloc1 alloc0 : pool_t -> Z -> Z * pool_t)
         (p : pool_t) (count : Z) (fuel : nat),
    (forall q k, fst (alloc1 q k) = 1) ->
    (forall q k, fst (alloc0 q k) = 0) ->
    0 < count -> (Z.to_nat count < fuel)%nat ->
    (Z.to_nat MAX_RETRY < fuel)%nat ->
    (exists p' calls,
        allocate_test_events alloc1 fuel p count = AllocDone count p' calls
        /\ Z.of_nat (length calls) = count
        /\ Forall (fun c => call_ret c = 1) calls)
    /\
    (exists p' calls,
        allocate_test_events alloc0 fuel p count = AllocAbort p' calls
        /\ Z.of_nat (length calls) = MAX_RETRY + 1
        /\ Forall (fun c => call_ret c = 0) calls).
Proof.
  intros pool_t alloc1 alloc0 p count fuel H1 H0 Hc Hf Hr. split.
  - destruct (alloc_loop_ones alloc1 (Z.to_nat count) H1 count 0 0 p [] fuel)
      as (p' & calls & Heq & Hlen & Hall); [lia | lia |].
    exists p', calls. unfold allocate_test_events. rewrite Heq. simpl.
    repeat split; auto. lia.
  - destruct (alloc_loop_zeros alloc0 (Z.to_nat MAX_RETRY) H0 count 0 0 p []
                               fuel)
      as (p' & calls & Heq & Hlen & Hall);
      [lia | lia | unfold MAX_RETRY; lia | lia |].
    exists p', calls. unfold allocate_test_events. rewrite Heq. simpl.
    repeat split; auto. rewrite Hlen. unfold MAX_RETRY. lia.
Qed.

Lemma allocate_one_per_call_completes_witness :
  (exists p' calls,
      allocate_test_events alloc_one (Z.to_nat 5001) tt 5000 = AllocDone 5000 p' calls
      /\ Z.of_nat (length calls) = 5000
      /\ Forall (fun c => call_ret c = 1) calls)
  /\
  (exists p' calls,
      allocate_test_events alloc_none (Z.to_nat 5001) tt 5000 = AllocAbort p' calls
      /\ Z.of_nat (length calls) = MAX_RETRY + 1
      /\ Forall (fun c => call_ret c = 0) calls).
Proof.
  apply (allocate_one_per_call_completes unit alloc_one alloc_none tt 5000
                                         (Z.to_nat 5001)).
  - intros q k. reflexivity.
  - intros q k. reflexivity.
  - lia.
  - lia.
  - unfold MAX_RETRY. lia.
Defined.

(** C2 as stated fails: with 5000 events requested and one event handed out
    per call, the function does not abort after 1024 calls, nor after any
    number of calls; it returns with all 5000 events. *)
Lemma allocate_one_per_call_no_abort :
  (exists calls,
      allocate_test_events alloc_one (Z.to_nat 5001) tt 5000 = AllocDone 5000 tt calls
      /\ Z.of_nat (length calls) = 5000)
  /\ ~ (exists fuel p calls,
           allocate_test_events alloc_one fuel p 5000 = AllocAbort p calls).
Proof.
  split.
  - destruct (alloc_loop_ones alloc_one (Z.to_nat 5000) (fun q k => eq_refl)
                              5000 0 0 tt [] (Z.to_nat 5001))
      as (p' & calls & Heq & Hlen & _); [lia | lia |].
    destruct p'. exists calls. split; [exact Heq | lia].
  - intros (fuel & p & calls & Heq).
    destruct (Nat.lt_ge_cases (Z.to_nat 5000) fuel) as [Hbig | Hsmall].
    + destruct (alloc_loop_ones alloc_one (Z.to_nat 5000) (fun q k => eq_refl)
                                5000 0 0 tt [] fuel)
        as (p' & calls' & Heq' & _); [lia | lia |].
      unfold allocate_test_events in Heq. destruct p.
      rewrite Heq' in Heq. discriminate.
    + revert Heq. unfold allocate_test_events.
      generalize (@nil alloc_call) as cs. generalize 0 at 2 as r.
      generalize 0 as ne. clear Hsmall. destruct p.
      induction fuel as [|fuel IH]; intros ne r cs; simpl; [discriminate|].
      destruct (ne <? 5000); [|discriminate].
      simpl. apply IH.
Qed.

(** ** Release of an event table *)

Section ReleaseFacts.
Variable EM_EVENT_UNDEF : Z.

(** What the loop computes: the [n] entries from [i] on are overwritten
    with [EM_EVENT_UNDEF], and those of them that were valid are passed to
    [em_free], in table order. *)
Lemma free_event_loop_spec (n : nat) :
  forall (i : nat) (event_tbl freed : list Z),
    (i + n <= length event_tbl)%nat ->
    free_event_loop EM_EVENT_UNDEF n i event_tbl freed
    = Some (take i event_tbl ++ replicate n EM_EVENT_UNDEF
                 ++ drop (i + n) event_tbl,
            freed ++ filter (valid_event EM_EVENT_UNDEF) (take n (drop i event_tbl))).
Proof.
  induction n as [|n IH]; intros i tbl freed Hlen; simpl.
  - rewrite Nat.add_0_r, take_drop, app_nil_r. reflexivity.
  - destruct (lookup_lt_is_Some_2 tbl i) as [ev Hev]; [lia|].
    rewrite Hev.
    rewrite (drop_S tbl ev i Hev). simpl.
    destruct (Z.eqb_spec ev EM_EVENT_UNDEF) as [Heq | Hne]; simpl.
    + rewrite IH by lia.
      rewrite (take_S_r tbl i ev Hev), <- app_assoc. subst ev. simpl.
      rewrite Nat.add_succ_r.
      rewrite filter_cons_False by (unfold valid_event; tauto).
      reflexivity.
    + rewrite IH by (rewrite length_insert; lia).
      assert (Hu : <[i:=EM_EVENT_UNDEF]> tbl !! i = Some EM_EVENT_UNDEF)
        by (apply list_lookup_insert_eq; lia).
      rewrite (take_S_r _ i _ Hu), take_insert_ge by lia.
      rewrite !drop_insert_lt by lia.
      rewrite <- !app_assoc. simpl.
      rewrite Nat.add_succ_r.
      rewrite filter_cons_True by exact Hne.
      reflexivity.
Qed.

Lemma filter_valid_replicate (n : nat) :
  filter (valid_event EM_EVENT_UNDEF) (replicate n EM_EVENT_UNDEF) = [].
Proof.
  induction n as [|n IH]; simpl; [reflexivity|].
  rewrite filter_cons_False by (unfold valid_event; tauto). exact IH.
Qed.
End ReleaseFacts.

(** C8.  [free_event_tbl] on the first [num] entries of a table sets every
    one of them to [EM_EVENT_UNDEF] and leaves the others alone; only the
    entries that were valid are passed to [em_free], an entry that already
    is [EM_EVENT_UNDEF] is skipped; and releasing the resulting table again
    changes nothing and frees nothing. *)
Theorem free_event_tbl_idempotent :
  forall (EM_EVENT_UNDEF : Z) (event_tbl : list Z) (num : Z),
    num <= Z.of_nat (length event_tbl) ->
    exists (tbl' freed : list Z),
      free_event_tbl EM_EVENT_UNDEF event_tbl num = Some (tbl', freed)
      /\ (forall k : nat, (k < Z.to_nat num)%nat ->
                         tbl' !! k = Some EM_EVENT_UNDEF)
      /\ (forall k : nat, (Z.to_nat num <= k)%nat ->
                         tbl' !! k = event_tbl !! k)
      /\ freed = filter (valid_event EM_EVENT_UNDEF)
                        (take (Z.to_nat num) event_tbl)
      /\ free_event_tbl EM_EVENT_UNDEF tbl' num = Some (tbl', []).
Proof.
  intros U tbl num Hnum. unfold free_event_tbl.
  set (n := Z.to_nat num).
  assert (Hn : (n <= length tbl)%nat) by lia.
  rewrite (free_event_loop_spec U n 0 tbl []) by lia. simpl.
  rewrite drop_0.
  exists (replicate n U ++ drop n tbl),
         (filter (valid_event U) (take n tbl)).
  split; [reflexivity|]. split; [|split; [|split; [reflexivity|]]].
  - intros k Hk. rewrite lookup_app_l by (rewrite length_replicate; lia).
    apply lookup_replicate_2. exact Hk.
  - intros k Hk. rewrite lookup_app_r by (rewrite length_replicate; lia).
    rewrite length_replicate, lookup_drop. f_equal. lia.
  - rewrite (free_event_loop_spec U n 0 _ [])
      by (rewrite length_app, length_replicate, length_drop; lia).
    simpl. rewrite drop_0.
    rewrite (take_app_length' (replicate n U))
      by (symmetry; apply length_replicate).
    rewrite (drop_app_length' (replicate n U))
      by (symmetry; apply length_replicate).
    rewrite filter_valid_replicate. reflexivity.
Qed.

Lemma free_event_tbl_idempotent_witness :
  exists (tbl' freed : list Z),
    free_event_tbl 0 [7; 0; 9; 4] 3 = Some (tbl', freed)
    /\ (forall k : nat, (k < Z.to_nat 3)%nat -> tbl' !! k = Some 0)
    /\ (forall k : nat, (Z.to_nat 3 <= k)%nat ->
                       tbl' !! k = [7; 0; 9; 4] !! k)
    /\ freed = filter (valid_event 0) (take (Z.to_nat 3) [7; 0; 9; 4])
    /\ free_event_tbl 0 tbl' 3 = Some (tbl', []).
Proof.
  apply (free_event_tbl_idempotent 0 [7; 0; 9; 4] 3). simpl. lia.
Defined.

Example free_event_tbl_example :
  free_event_tbl 0 [7; 0; 9; 4] 3 = Some ([0; 0; 0; 4], [7; 9])
  /\ free_event_tbl 0 [0; 0; 0; 4] 3 = Some ([0; 0; 0; 4], []).
Proof. split; reflexivity. Qed.


(** ** The indefinite mode *)

Section CycleFacts.
Context {world : Type}.
Variable P : platform world.

(** What the driver's calls yield in a cycle that returns. *)
Lemma cycle_calls (bench : bench_info_t world) (w : world)
      (c : cycle_t world) :
  cycle bench w = Some c ->
  call_opt (init bench) w = Some (after_init c)
  /\ run bench (after_init c) = Some (run_ret c, after_run c)
  /\ call_opt (term bench) (after_run c) = Some (after_term c).
Proof.
  unfold cycle, call_opt.
  destruct (match init bench with Some f => f w | None => Some w end)
    as [w1|] eqn:Hinit; [|discriminate].
  destruct (run bench w1) as [[ret w2]|] eqn:Hrun; [|discriminate].
  destruct (match term bench with Some f => f w2 | None => Some w2 end)
    as [w3|] eqn:Hterm; [|discriminate].
  intros H. injection H as <-. simpl.
  split; [reflexivity|]. split; [exact Hrun | exact Hterm].
Qed.

Lemma round_ok_cycle (bench : bench_info_t world) (w : world) :
  round_ok P bench w = true ->
  exit_thread P w = 0
  /\ exists c, cycle bench w = Some c /\ run_ret c <> 0.
Proof.
  unfold round_ok. intros H. apply andb_true_iff in H.
  destruct H as [Hflag Hc]. apply Z.eqb_eq in Hflag.
  split; [exact Hflag|].
  destruct (cycle bench w) as [c|]; [|discriminate].
  exists c. split; [reflexivity|].
  apply negb_true_iff, Z.eqb_neq in Hc. exact Hc.
Qed.

Lemma rounds_ok_S (bench : bench_info_t world) (n : nat) (w : world) :
  rounds_ok P bench (S n) w = true ->
  round_ok P bench w = true
  /\ rounds_ok P bench n (round_world bench w) = true.
Proof. cbn [rounds_ok]. intros H. apply andb_true_iff in H. exact H. Qed.
End CycleFacts.

Section IndefFacts.
Context {world : Type}.
Variable P : platform world.

Lemma runs_of_app (j : Z) (l1 l2 : list event) :
  runs_of j (l1 ++ l2) = (runs_of j l1 + runs_of j l2)%nat.
Proof. unfold runs_of. rewrite filter_app, length_app. reflexivity. Qed.

Lemma runs_of_call_log (j : Z) (f : option (world -> option world))
      (e : event) :
  is_run_of j e = false -> runs_of j (call_log f e) = O.
Proof.
  intros He. destruct f; simpl; [|reflexivity].
  unfold runs_of. rewrite filter_cons_False; [reflexivity|].
  rewrite He. discriminate.
Qed.

Lemma round_log_calls (j : Z) (bench : bench_info_t world) (w : world) :
  round_log j bench w
  = call_log (init bench) (CallInit j)
      ++ [CallRun j (round_ret bench w)]
      ++ call_log (term bench) (CallTerm j).
Proof. reflexivity. Qed.

Lemma runs_of_round_log (j : Z) (bench : bench_info_t world) (w : world) :
  runs_of j (round_log j bench w) = 1%nat.
Proof.
  rewrite round_log_calls, !runs_of_app.
  rewrite !runs_of_call_log by reflexivity.
  unfold runs_of. rewrite filter_cons_True; [reflexivity|].
  simpl. apply Z.eqb_refl.
Qed.

Lemma runs_of_rounds_log (j : Z) (bench : bench_info_t world) (n : nat) :
  forall w, runs_of j (rounds_log j bench n w) = n.
Proof.
  induction n as [|n IH]; intros w; simpl; [reflexivity|].
  rewrite runs_of_app, runs_of_round_log, IH. reflexivity.
Qed.

(** One iteration of the loop of [run_indef] that goes through. *)
Lemma indef_loop_round (idx : Z) (bench : bench_info_t world) (w : world)
      (log : list event) (fuel : nat) :
  round_ok P bench w = true ->
  indef_loop P (S fuel) idx bench w log
  = indef_loop P fuel idx bench (round_world bench w)
               (log ++ round_log idx bench w).
Proof.
  intros Hok. destruct (round_ok_cycle P bench w Hok)
    as (Hflag & c & Hc & Hret).
  destruct (cycle_calls bench w c Hc) as (Hinit & Hrun & Hterm).
  cbn [indef_loop]. rewrite Hflag, Z.eqb_refl, Hinit, Hrun, Hterm.
  apply Z.eqb_neq in Hret. rewrite Hret.
  rewrite round_log_calls. unfold round_world, round_ret. rewrite Hc.
  reflexivity.
Qed.

(** [k] cycles that go through, then the flag set: the loop returns after
    exactly those [k] cycles. *)
Lemma indef_loop_cycles (idx : Z) (bench : bench_info_t world) (k : nat) :
  forall (w : world) (log : list event) (fuel : nat),
    rounds_ok P bench k w = true ->
    exit_thread P (rounds_world bench k w) <> 0 ->
    (k < fuel)%nat ->
    indef_loop P fuel idx bench w log
    = IndefReturn (rounds_world bench k w)
                  (log ++ rounds_log idx bench k w).
Proof.
  induction k as [|k IH]; intros w log fuel Hok Hset Hfuel;
    (destruct fuel as [|fuel]; [lia|]).
  - cbn [indef_loop]. simpl in Hset. apply Z.eqb_neq in Hset.
    rewrite Hset. simpl. rewrite app_nil_r. reflexivity.
  - apply rounds_ok_S in Hok. destruct Hok as [Hok Hrest].
    rewrite (indef_loop_round idx bench w log fuel Hok).
    rewrite (IH _ _ fuel Hrest Hset) by lia.
    cbn [rounds_world rounds_log]. rewrite <- app_assoc. reflexivity.
Qed.

(** The loop is left by [return] only with the flag set. *)
Lemma indef_loop_return_cancelled (idx : Z) (bench : bench_info_t world)
      (fuel : nat) :
  forall (w : world) (log : list event) (w' : world) (log' : list event),
    indef_loop P fuel idx bench w log = IndefReturn w' log' ->
    exit_thread P w' <> 0.
Proof.
  induction fuel as [|fuel IH]; intros w log w' log'; cbn [indef_loop];
    [discriminate|].
  destruct (Z.eqb_spec (exit_thread P w) 0) as [Hz | Hnz].
  - destruct (call_opt (init bench) w) as [w1|]; [|discriminate].
    destruct (run bench w1) as [[ret w2]|]; [|discriminate].
    destruct (call_opt (term bench) w2) as [w3|]; [|discriminate].
    destruct (ret =? 0); [discriminate|]. apply IH.
  - intros H. injection H as <- _. exact Hnz.
Qed.
End IndefFacts.

(** C6.  [run_indef] polls [exit_thread] before every iteration.  If the
    first [k] iterations go through (the flag is clear when it is polled,
    the calls return and [run] does not fail) and the flag is set
    afterwards, then exactly [k] init-run-term cycles are performed and no
    further one is started: the world is the one [k] cycles of [init], [run]
    and [term] leave, and the calls logged are those of [k] cycles.
    Whenever [run_indef] returns, the flag is set. *)
Theorem run_indef_stops_after_cancellation :
  forall (world : Type) (P : platform world) (idx : Z)
         (bench : bench_info_t world) (w : world) (log : list event)
         (k fuel : nat),
    rounds_ok P bench k w = true ->
    exit_thread P (rounds_world bench k w) <> 0 ->
    (k < fuel)%nat ->
    run_indef P fuel idx bench w log
    = IndefReturn (rounds_world bench k w)
                  (log ++ [PrintIndef (bench_desc bench)]
                       ++ rounds_log idx bench k w)
    /\ runs_of idx (rounds_log idx bench k w) = k
    /\ (forall fuel' w' log',
           run_indef P fuel' idx bench w log = IndefReturn w' log' ->
           exit_thread P w' <> 0).
Proof.
  intros world P idx bench w log k fuel Hok Hset Hfuel.
  split; [|split].
  - unfold run_indef.
    rewrite (indef_loop_cycles P idx bench k) by assumption.
    rewrite <- app_assoc. reflexivity.
  - apply runs_of_rounds_log.
  - intros fuel' w' log'. unfold run_indef.
    apply indef_loop_return_cancelled.
Qed.

Lemma run_indef_stops_after_cancellation_witness :
  run_indef (tick_platform 300) 4 1 (marked_case "b" (fun _ => 1000)) 0 []
  = IndefReturn 333
      [PrintIndef "b";
       CallInit 1; CallRun 1 1000; CallTerm 1;
       CallInit 1; CallRun 1 1000; CallTerm 1;
       CallInit 1; CallRun 1 1000; CallTerm 1]
  /\ runs_of 1 (rounds_log 1 (marked_case "b" (fun _ => 1000)) 3 0) = 3%nat
  /\ (forall fuel' w' log',
         run_indef (tick_platform 300) fuel' 1
                   (marked_case "b" (fun _ => 1000)) 0 []
         = IndefReturn w' log' ->
         exit_thread (tick_platform 300) w' <> 0).
Proof.
  apply (run_indef_stops_after_cancellation
           Z (tick_platform 300) 1 (marked_case "b" (fun _ => 1000)) 0 []
           3 4).
  - reflexivity.
  - discriminate.
  - lia.
Defined.

(** ** The benchmark loop in normal mode *)

Section LoopFacts.
Context {world : Type}.
Variable P : platform world.
Variable bench_tbl : list (bench_info_t world).
Variable o : opt_t.

Hypothesis Hnormal : opt_bench_idx o = 0.
Hypothesis Hrounds : opt_rounds o < 2 ^ 32.

Lemma round_limit_le (bench : bench_info_t world) :
  round_limit o bench <= opt_rounds o.
Proof.
  unfold round_limit.
  destruct (max_rounds bench =? 0); simpl; [lia|].
  destruct (Z.gtb_spec (opt_rounds o) (max_rounds bench)); lia.
Qed.

Lemma lookup_num_bench (j : Z) (bench : bench_info_t world) :
  0 <= j -> bench_tbl !! Z.to_nat j = Some bench ->
  j < num_bench bench_tbl.
Proof.
  intros Hj Hb. apply lookup_lt_Some in Hb. unfold num_bench. lia.
Qed.

Lemma bench_loop_round (fuel : nat) (i : Z) (s : loop_state world)
      (bench : bench_info_t world) :
  0 <= ls_j s ->
  bench_tbl !! Z.to_nat (ls_j s) = Some bench ->
  round_ok P bench (ls_world s) = true ->
  bench_loop P bench_tbl o (S fuel) i s
  = bench_loop P bench_tbl o fuel i (next_round P o i bench s).
Proof.
  intros Hj Hb Hok. cbn [bench_loop].
  destruct (round_ok_cycle P bench (ls_world s) Hok)
    as (Hflag & c & Hc & Hret).
  destruct (cycle_calls bench (ls_world s) c Hc) as (Hinit & Hrun & Hterm).
  pose proof (lookup_num_bench _ _ Hj Hb) as Hlt.
  apply Z.ltb_lt in Hlt. rewrite Hlt, Hflag, Hb, Hnormal. simpl.
  rewrite Hinit, Hrun. apply Z.eqb_neq in Hret. rewrite Hret, Hterm.
  unfold next_round, round_elapsed, round_world.
  rewrite round_log_calls. unfold round_ret. rewrite Hc.
  destruct (ls_round s >=? round_limit o bench); [destruct (i >? 0)|];
    rewrite <- ?app_assoc; reflexivity.
Qed.

Lemma rounds_run_pos (limit round : Z) : (0 < rounds_run limit round)%nat.
Proof. unfold rounds_run. destruct (Z.ltb_spec round limit); lia. Qed.

Lemma rounds_run_next (limit round : Z) :
  round < limit ->
  rounds_run limit round = S (rounds_run limit (round + 1)).
Proof.
  intros Hlt. unfold rounds_run.
  destruct (Z.ltb_spec round limit); [|lia].
  destruct (Z.ltb_spec (round + 1) limit); lia.
Qed.

(** The rounds of one case: from [round] up to the limit, then the result
    line and the step to the next case. *)
Lemma case_rounds (m : nat) :
  forall (fuel : nat) (i j r total failed : Z) (w : world)
         (log : list event) (bench : bench_info_t world),
    0 <= j -> 0 <= r ->
    bench_tbl !! Z.to_nat j = Some bench ->
    rounds_run (round_limit o bench) r = S m ->
    rounds_ok P bench (S m) w = true ->
    bench_loop P bench_tbl o (S m + fuel) i
               (LoopState j r total failed w log)
    = bench_loop P bench_tbl o fuel i
        (LoopState (j + 1) 2 0 failed (rounds_world bench (S m) w)
           (log ++ rounds_log j bench (S m) w
                ++ if i >? 0
                   then [PrintResult (j + 1) (bench_label bench)
                           (rounds_total P o bench (S m) w total)
                           (u32 (round_limit o bench * REPEAT_COUNT))]
                   else [])).
Proof.
  induction m as [|m IH]; intros fuel i j r total failed w log bench
                                 Hj Hr Hb Hrun Hok;
    apply rounds_ok_S in Hok; destruct Hok as [Hok Hrest].
  - rewrite (bench_loop_round _ _ _ bench); simpl; auto.
    unfold next_round. simpl.
    assert (Hge : round_limit o bench <= r).
    { unfold rounds_run in Hrun.
      destruct (Z.ltb_spec r (round_limit o bench)); lia. }
    apply Z.geb_le in Hge. rewrite Hge.
    destruct (i >? 0); rewrite <- ?app_assoc, ?app_nil_r; reflexivity.
  - assert (Hlt : r < round_limit o bench).
    { unfold rounds_run in Hrun.
      destruct (Z.ltb_spec r (round_limit o bench)); lia. }
    replace (S (S m) + fuel)%nat with (S (S m + fuel)) by lia.
    rewrite (bench_loop_round _ _ _ bench); simpl ls_j; simpl ls_world;
      auto.
    unfold next_round. cbn [ls_j ls_round ls_total ls_failed ls_world ls_log].
    replace (r >=? round_limit o bench) with false
      by (symmetry; rewrite Z.geb_leb; apply Z.leb_gt; lia).
    pose proof (round_limit_le bench) as Hle.
    replace (u32 (r + 1)) with (r + 1)
      by (unfold u32; rewrite Z.mod_small; lia).
    rewrite (IH fuel i j (r + 1) _ failed _ _ bench); auto; [|lia|].
    + cbn [rounds_world rounds_log rounds_total].
      rewrite <- !app_assoc. reflexivity.
    + rewrite (rounds_run_next _ r Hlt) in Hrun. lia.
Qed.

(** One pass over the cases from [j] on computes [pass_spec]. *)
Lemma pass_loop (bs : list (bench_info_t world)) :
  forall (fuel : nat) (i j r failed : Z) (w : world) (log : list event),
    0 <= j -> 0 <= r ->
    drop (Z.to_nat j) bench_tbl = bs ->
    pass_ok P o r bs w = true ->
    (pass_fuel o r bs < fuel)%nat ->
    exists s',
      bench_loop P bench_tbl o fuel i (LoopState j r 0 failed w log)
      = LoopEnd s'
      /\ ls_world s' = fst (pass_spec P o i j r bs w)
      /\ ls_log s' = log ++ snd (pass_spec P o i j r bs w)
      /\ ls_failed s' = failed.
Proof.
  induction bs as [|bench bs' IH]; intros fuel i j r failed w log
                                          Hj Hr Hdrop Hok Hfuel.
  - destruct fuel as [|fuel]; [simpl in Hfuel; lia|].
    cbn [bench_loop]. cbn [ls_j ls_world].
    assert (Hlen : (length bench_tbl <= Z.to_nat j)%nat).
    { destruct (Nat.le_gt_cases (length bench_tbl) (Z.to_nat j)) as [|Hgt];
        [assumption|].
      apply lookup_lt_is_Some_2 in Hgt. destruct Hgt as [x Hx].
      rewrite (drop_S _ _ _ Hx) in Hdrop. discriminate. }
    replace (j <? num_bench bench_tbl) with false
      by (symmetry; apply Z.ltb_ge; unfold num_bench; lia).
    simpl. eexists. split; [reflexivity|]. simpl.
    rewrite app_nil_r. auto.
  - assert (Hb : bench_tbl !! Z.to_nat j = Some bench).
    { pose proof (lookup_drop bench_tbl (Z.to_nat j) 0) as Hl.
      rewrite Hdrop, Nat.add_0_r in Hl. simpl in Hl. auto. }
    assert (Hdrop' : drop (Z.to_nat (j + 1)) bench_tbl = bs').
    { rewrite (drop_S _ _ _ Hb) in Hdrop. injection Hdrop as Hd.
      rewrite <- Hd. f_equal. lia. }
    cbn [pass_fuel] in Hfuel. cbn [pass_ok] in Hok.
    apply andb_true_iff in Hok. destruct Hok as [Hok Hrest].
    destruct (rounds_run (round_limit o bench) r) as [|m] eqn:Hrun.
    { pose proof (rounds_run_pos (round_limit o bench) r). lia. }
    replace fuel with (S m + (fuel - S m))%nat by lia.
    rewrite (case_rounds m _ i j r 0 failed w log bench) by assumption.
    destruct (IH (fuel - S m)%nat i (j + 1) 2 failed
                 (rounds_world bench (S m) w)
                 (log ++ rounds_log j bench (S m) w
                      ++ if i >? 0
                         then [PrintResult (j + 1) (bench_label bench)
                                 (rounds_total P o bench (S m) w 0)
                                 (u32 (round_limit o bench * REPEAT_COUNT))]
                         else []))
      as (s' & Heq & Hw & Hlog & Hfailed);
      [lia | lia | assumption | assumption | lia |].
    exists s'. split; [exact Heq|].
    cbn [pass_spec]. rewrite Hrun.
    destruct (pass_spec P o i (j + 1) 2 bs' (rounds_world bench (S m) w))
      as [w' log'] eqn:Hspec.
    simpl in *. rewrite Hw, Hlog, <- !app_assoc. auto.
Qed.
End LoopFacts.

(** ** The two passes *)

Section PassFacts.
Context {world : Type} {A : Type}.
Variable P : platform world.
Variable o : opt_t.
Variable f : event -> option A.
Hypothesis Hf : forall e, is_result e = false -> f e = None.

Lemma omap_call_log (g : option (world -> option world)) (e : event) :
  is_result e = false -> omap f (call_log g e) = [].
Proof.
  intros He. destruct g; simpl; [|reflexivity]. rewrite (Hf e He).
  reflexivity.
Qed.

Lemma omap_round_log (j : Z) (bench : bench_info_t world) (w : world) :
  omap f (round_log j bench w) = [].
Proof.
  rewrite round_log_calls, !omap_app, !omap_call_log by reflexivity.
  simpl. rewrite Hf by reflexivity. reflexivity.
Qed.

Lemma omap_rounds_log (j : Z) (bench : bench_info_t world) (n : nat) :
  forall w, omap f (rounds_log j bench n w) = [].
Proof.
  induction n as [|n IH]; intros w; cbn [rounds_log]; [reflexivity|].
  rewrite omap_app, omap_round_log, IH. reflexivity.
Qed.

(** The warm-up pass logs no result line, the measured pass logs
    [pass_results]. *)
Lemma omap_pass_spec (i : Z) (bs : list (bench_info_t world)) :
  forall (j r : Z) (w : world),
    omap f (snd (pass_spec P o i j r bs w))
    = if i >? 0 then omap f (pass_results P o j r bs w) else [].
Proof.
  induction bs as [|bench bs' IH]; intros j r w; cbn [pass_spec pass_results].
  - destruct (i >? 0); reflexivity.
  - specialize (IH (j + 1) 2
                   (rounds_world bench (rounds_run (round_limit o bench) r)
                                 w)).
    destruct (pass_spec P o i (j + 1) 2 bs' _) as [w' log'].
    simpl in IH. simpl snd.
    rewrite !omap_app, omap_rounds_log, IH.
    destruct (i >? 0); [|reflexivity].
    simpl. destruct (f _); reflexivity.
Qed.
End PassFacts.

Section RunFacts.
Context {world : Type}.
Variable P : platform world.
Variable bench_tbl : list (bench_info_t world).
Variable o : opt_t.

Lemma result_lines_pass_results (bs : list (bench_info_t world)) :
  forall (j r : Z) (w : world),
    result_lines (pass_results P o j r bs w) = expected_lines j bs.
Proof.
  induction bs as [|bench bs' IH]; intros j r w; [reflexivity|].
  cbn [pass_results expected_lines]. unfold result_lines in *.
  simpl. rewrite IH. reflexivity.
Qed.

Lemma expected_lines_length (bs : list (bench_info_t world)) :
  forall j, length (expected_lines j bs) = length bs.
Proof. induction bs as [|b bs' IH]; intros j; simpl; auto. Qed.

(** A normal run in which every round goes through: the header, the
    warm-up pass, the measured pass. *)
Lemma run_benchmarks_normal (fuel : nat) (failed : Z) (w0 : world) :
  opt_bench_idx o = 0 -> opt_rounds o < 2 ^ 32 ->
  worker_setup_ok P o w0 ->
  run_ok P o bench_tbl (worker_start P o w0) = true ->
  (pass_fuel o 1 bench_tbl < fuel)%nat ->
  let p0 := pass_spec P o 0 0 1 bench_tbl (worker_start P o w0) in
  let p1 := pass_spec P o 1 0 1 bench_tbl (fst p0) in
  run_benchmarks P bench_tbl o fuel failed w0
  = WorkerReturn 0 failed (snd (em_term_core P (fst p1)))
      ([PrintHeader (opt_time o)] ++ snd p0 ++ snd p1
         ++ if fst (em_term_core P (fst p1)) then []
            else [Err "EM core terminate failed"]).
Proof.
  intros Hnormal Hrounds [Hinit Hpools] Hok Hfuel p0 p1.
  unfold run_ok in Hok. apply andb_true_iff in Hok.
  destruct Hok as [Hok0 Hok1].
  unfold run_benchmarks, worker_start, worker_setup_ok in *.
  destruct (em_init_core P w0) as [ok w1]. simpl in Hinit, Hpools. subst ok.
  simpl negb. cbv iota.
  subst p0 p1. simpl snd in *.
  destruct (create_pools P o w1) as [[r w2] elog]. simpl in Hpools. subst r.
  simpl fst in *. simpl snd in *. simpl negb. cbv iota.
  destruct (pass_loop P bench_tbl o Hnormal Hrounds bench_tbl
                      fuel 0 0 1 failed w2 [PrintHeader (opt_time o)])
    as (s0 & Heq0 & Hw0 & Hlog0 & Hf0);
    [lia | lia | reflexivity | exact Hok0 | lia |].
  rewrite Heq0.
  destruct (pass_loop P bench_tbl o Hnormal Hrounds bench_tbl
                      fuel 1 0 1 (ls_failed s0) (ls_world s0) (ls_log s0))
    as (s1 & Heq1 & Hw1 & Hlog1 & Hf1);
    [lia | lia | reflexivity | rewrite Hw0; exact Hok1 | lia |].
  rewrite Heq1. unfold worker_exit.
  rewrite Hw1, Hlog1, Hf1, Hw0, Hlog0, Hf0.
  destruct (em_term_core P _) as [ok w']. simpl.
  rewrite <- !app_assoc. reflexivity.
Qed.
End RunFacts.

(** C5.  In a normal run (no single-case index) in which every round the
    two passes make goes through (the flag is clear whenever it is polled,
    the test functions return and no [run] fails), the log is the header,
    the warm-up pass, the measured pass and the termination of the core.
    The warm-up pass prints no result line; the measured pass prints exactly
    one line per case, in table order, numbered from 1; so [N] cases give
    [N] lines. *)
Theorem warm_up_pass_prints_nothing :
  forall (world : Type) (P : platform world)
         (bench_tbl : list (bench_info_t world)) (o : opt_t)
         (w0 : world) (failed : Z) (fuel : nat),
    opt_bench_idx o = 0 -> opt_rounds o < 2 ^ 32 ->
    worker_setup_ok P o w0 ->
    run_ok P o bench_tbl (worker_start P o w0) = true ->
    (pass_fuel o 1 bench_tbl < fuel)%nat ->
    exists w' warm_up measured tail,
      run_benchmarks P bench_tbl o fuel failed w0
      = WorkerReturn 0 failed w'
          ([PrintHeader (opt_time o)] ++ warm_up ++ measured ++ tail)
      /\ warm_up = snd (pass_spec P o 0 0 1 bench_tbl (worker_start P o w0))
      /\ measured
         = snd (pass_spec P o 1 0 1 bench_tbl
                  (fst (pass_spec P o 0 0 1 bench_tbl (worker_start P o w0))))
      /\ result_lines warm_up = []
      /\ result_lines measured = expected_lines 0 bench_tbl
      /\ result_lines tail = []
      /\ length (result_lines
                   ([PrintHeader (opt_time o)] ++ warm_up ++ measured ++ tail))
         = length bench_tbl.
Proof.
  intros world P bench_tbl o w0 failed fuel Hnormal Hrounds Hsetup Hok
         Hfuel.
  rewrite (run_benchmarks_normal P bench_tbl o fuel failed w0) by assumption.
  set (p0 := pass_spec P o 0 0 1 bench_tbl (worker_start P o w0)).
  set (p1 := pass_spec P o 1 0 1 bench_tbl (fst p0)).
  set (tail := if fst (em_term_core P (fst p1)) then []
               else [Err "EM core terminate failed"]).
  assert (H0 : result_lines (snd p0) = []).
  { unfold result_lines, p0.
    rewrite (omap_pass_spec P o result_line) by (intros [] He; auto; discriminate).
    reflexivity. }
  assert (H1 : result_lines (snd p1) = expected_lines 0 bench_tbl).
  { unfold result_lines, p1.
    rewrite (omap_pass_spec P o result_line) by (intros [] He; auto; discriminate).
    simpl. apply result_lines_pass_results. }
  assert (Ht : result_lines tail = []).
  { unfold tail. destruct (fst (em_term_core P (fst p1))); reflexivity. }
  exists (snd (em_term_core P (fst p1))), (snd p0), (snd p1), tail.
  repeat split; auto.
  unfold result_lines in *. rewrite !omap_app, H0, H1, Ht. simpl.
  rewrite app_nil_r. apply expected_lines_length.
Qed.

Lemma warm_up_pass_prints_nothing_witness :
  exists w' warm_up measured tail,
    run_benchmarks (tick_platform (-1)) mixed_cases (demo_opt 3 0) 10 0 0
    = WorkerReturn 0 0 w'
        ([PrintHeader (opt_time (demo_opt 3 0))] ++ warm_up ++ measured
           ++ tail)
    /\ warm_up
       = snd (pass_spec (tick_platform (-1)) (demo_opt 3 0) 0 0 1 mixed_cases
                (worker_start (tick_platform (-1)) (demo_opt 3 0) 0))
    /\ measured
       = snd (pass_spec (tick_platform (-1)) (demo_opt 3 0) 1 0 1 mixed_cases
                (fst (pass_spec (tick_platform (-1)) (demo_opt 3 0) 0 0 1
                        mixed_cases
                        (worker_start (tick_platform (-1)) (demo_opt 3 0)
                                      0))))
    /\ result_lines warm_up = []
    /\ result_lines measured = expected_lines 0 mixed_cases
    /\ result_lines tail = []
    /\ length (result_lines
                 ([PrintHeader (opt_time (demo_opt 3 0))] ++ warm_up
                    ++ measured ++ tail))
       = length mixed_cases.
Proof.
  apply (warm_up_pass_prints_nothing
           Z (tick_platform (-1)) mixed_cases (demo_opt 3 0) 0 0 10).
  - reflexivity.
  - reflexivity.
  - split; reflexivity.
  - reflexivity.
  - vm_compute. lia.
Defined.

(** The run of [mixed_cases] with three rounds: the [run] of its first case
    fails in some worlds, but in none this run reaches. *)
Example mixed_cases_three_rounds :
  run_benchmarks (tick_platform (-1)) mixed_cases (demo_opt 3 0) 10 0 0
  = WorkerReturn 0 0 670
      [PrintHeader 0;
       CallInit 0; CallRun 0 1000; CallTerm 0;
       CallInit 0; CallRun 0 1000; CallTerm 0;
       CallInit 0; CallRun 0 1000; CallTerm 0;
       CallRun 1 1000; CallRun 1 1000;
       CallInit 0; CallRun 0 1000; CallTerm 0;
       CallInit 0; CallRun 0 1000; CallTerm 0;
       CallInit 0; CallRun 0 1000; CallTerm 0;
       PrintResult 1 "em_a" 3 3000;
       CallRun 1 1000; CallRun 1 1000;
       PrintResult 2 "em_b" 2 3000]
  /\ run (marked_case "a" (fun w => if w <? 5000 then 1000 else 0)) 5000
     = Some (0, 5001).
Proof. split; reflexivity. Qed.

Example two_cases_three_rounds :
  run_benchmarks (tick_platform (-1)) two_cases (demo_opt 3 0) 10 0 0
  = WorkerReturn 0 0 10
      [PrintHeader 0;
       CallRun 0 1000; CallRun 0 1000; CallRun 0 1000;
       CallRun 1 1000; CallRun 1 1000;
       CallRun 0 1000; CallRun 0 1000; CallRun 0 1000;
       PrintResult 1 "em_a" 3 3000;
       CallRun 1 1000; CallRun 1 1000;
       PrintResult 2 "em_b" 2 3000].
Proof. reflexivity. Qed.

(** ** The number of rounds of a case *)

(** The limit of a case is the smaller of the configured rounds and its own
    [max_rounds], when that is set. *)
Lemma round_limit_min (world : Type) (o : opt_t) (bench : bench_info_t world) :
  round_limit o bench
  = if max_rounds bench =? 0 then opt_rounds o
    else Z.min (opt_rounds o) (max_rounds bench).
Proof.
  unfold round_limit. destruct (max_rounds bench =? 0); simpl; [reflexivity|].
  destruct (Z.gtb_spec (opt_rounds o) (max_rounds bench)); lia.
Qed.

(** The first case of a pass is entered with [round = 1] and runs [limit]
    rounds; every later one is entered with [round = 2], because the
    [round++] of the [for] statement follows the reset [round = 1], and runs
    one round less (but at least one). *)
Lemma rounds_run_first_case (limit : Z) :
  1 <= limit -> Z.of_nat (rounds_run limit 1) = limit.
Proof. intros H. unfold rounds_run. destruct (Z.ltb_spec 1 limit); lia. Qed.

Lemma rounds_run_later_case (limit : Z) :
  Z.of_nat (rounds_run limit 2) = Z.max 1 (limit - 1).
Proof. unfold rounds_run. destruct (Z.ltb_spec 2 limit); lia. Qed.

(** C4 at a failing input: two cases without [max_rounds], 3 rounds
    configured.  In the measured pass the first case runs 3 rounds, the
    second only 2, and its total is divided by 3 * 1000 all the same. *)
Theorem second_case_runs_one_round_less :
  exists warm_up measured,
    run_benchmarks (tick_platform (-1)) two_cases (demo_opt 3 0) 10 0 0
    = WorkerReturn 0 0 10 ([PrintHeader 0] ++ warm_up ++ measured)
    /\ measured
       = snd (pass_spec (tick_platform (-1)) (demo_opt 3 0) 1 0 1 two_cases 5)
    /\ round_limit (demo_opt 3 0) (tick_case "b" 1000) = 3
    /\ runs_of 0 measured = 3%nat
    /\ runs_of 1 measured = 2%nat
    /\ omap result_quotient measured = [(3, 3000); (2, 3000)].
Proof.
  exists [CallRun 0 1000; CallRun 0 1000; CallRun 0 1000;
          CallRun 1 1000; CallRun 1 1000],
         [CallRun 0 1000; CallRun 0 1000; CallRun 0 1000;
          PrintResult 1 "em_a" 3 3000;
          CallRun 1 1000; CallRun 1 1000;
          PrintResult 2 "em_b" 2 3000].
  repeat split; reflexivity.
Qed.

(** C1 at a failing input: the second case returns -1 from every [run].
    The driver goes on as after a success: all rounds of both passes are
    run, both result lines are printed, [bench_failed] stays 0 and the
    process exits with [EXIT_SUCCESS]. *)
Theorem negative_run_result_is_not_a_failure :
  main (tick_platform (-1)) 10 boot_all_ok
       [tick_case "a" 1000; tick_case "b" (-1)] [OptRounds 3] 0
  = ProcessExit EXIT_SUCCESS
      [PrintInfo; PrintHeader 0;
       CallRun 0 1000; CallRun 0 1000; CallRun 0 1000;
       CallRun 1 (-1); CallRun 1 (-1);
       CallRun 0 1000; CallRun 0 1000; CallRun 0 1000;
       PrintResult 1 "em_a" 3 3000;
       CallRun 1 (-1); CallRun 1 (-1);
       PrintResult 2 "em_b" 2 3000].
Proof. reflexivity. Qed.

(** The same table with 0 in place of -1: the first failing [run] ends the
    whole execution and the process exits with [EXIT_FAILURE]. *)
Example zero_run_result_is_a_failure :
  main (tick_platform (-1)) 10 boot_all_ok
       [tick_case "a" 1000; tick_case "b" 0] [OptRounds 3] 0
  = ProcessExit EXIT_FAILURE
      [PrintInfo; PrintHeader 0;
       CallRun 0 1000; CallRun 0 1000; CallRun 0 1000;
       CallRun 1 0; Err "Benchmark failed"].
Proof. reflexivity. Qed.

Section RoundsPerCase.
Context {world : Type}.
Variable P : platform world.
Variable o : opt_t.

Lemma runs_of_round_log_other (j0 j : Z) (bench : bench_info_t world)
      (w : world) :
  j0 <> j -> runs_of j0 (round_log j bench w) = O.
Proof.
  intros Hne. rewrite round_log_calls, !runs_of_app.
  rewrite !runs_of_call_log by reflexivity.
  unfold runs_of. rewrite filter_cons_False; [reflexivity|].
  simpl. apply Z.eqb_neq in Hne. rewrite Z.eqb_sym, Hne. discriminate.
Qed.

Lemma runs_of_rounds_log_other (j0 j : Z) (bench : bench_info_t world)
      (n : nat) :
  j0 <> j -> forall w, runs_of j0 (rounds_log j bench n w) = O.
Proof.
  intros Hne. induction n as [|n IH]; intros w; cbn [rounds_log];
    [reflexivity|].
  rewrite runs_of_app, runs_of_round_log_other, IH by assumption.
  reflexivity.
Qed.

Lemma runs_of_line (j0 i j : Z) (label : string) (total divisor : Z) :
  runs_of j0 (if i >? 0 then [PrintResult j label total divisor] else [])
  = O.
Proof. destruct (i >? 0); reflexivity. Qed.

(** A pass over the cases from index [j] on runs no case below [j]. *)
Lemma runs_of_pass_spec_below (i j0 : Z) (bs : list (bench_info_t world)) :
  forall (j r : Z) (w : world),
    j0 < j -> runs_of j0 (snd (pass_spec P o i j r bs w)) = O.
Proof.
  induction bs as [|bench bs' IH]; intros j r w Hlt; cbn [pass_spec];
    [reflexivity|].
  specialize (IH (j + 1) 2
                 (rounds_world bench (rounds_run (round_limit o bench) r) w)
                 ltac:(lia)).
  destruct (pass_spec P o i (j + 1) 2 bs' _) as [w' log'].
  simpl in IH. simpl snd.
  rewrite !runs_of_app, runs_of_rounds_log_other, runs_of_line, IH by lia.
  reflexivity.
Qed.

(** The rounds of the case at position [k] of a pass: the first case is
    entered with the [round] the pass starts with, every later one with
    [round = 2]. *)
Lemma runs_of_pass_spec (i : Z) (bs : list (bench_info_t world)) :
  forall (j r : Z) (w : world) (k : nat) (bench : bench_info_t world),
    bs !! k = Some bench ->
    runs_of (j + Z.of_nat k) (snd (pass_spec P o i j r bs w))
    = rounds_run (round_limit o bench) (match k with O => r | S _ => 2 end).
Proof.
  induction bs as [|b bs' IH]; intros j r w k bench Hk;
    [discriminate|].
  cbn [pass_spec].
  pose proof (runs_of_pass_spec_below i j bs' (j + 1) 2
                (rounds_world b (rounds_run (round_limit o b) r) w)
                ltac:(lia)) as Hbelow.
  destruct k as [|k].
  - injection Hk as ->.
    destruct (pass_spec P o i (j + 1) 2 bs' _) as [w' log'].
    simpl in Hbelow. simpl snd.
    replace (j + Z.of_nat 0) with j by lia.
    rewrite !runs_of_app, runs_of_rounds_log, runs_of_line, Hbelow. lia.
  - simpl in Hk.
    specialize (IH (j + 1) 2
                   (rounds_world b (rounds_run (round_limit o b) r) w)
                   k bench Hk).
    destruct (pass_spec P o i (j + 1) 2 bs' _) as [w' log'].
    simpl in IH. simpl snd.
    replace (j + Z.of_nat (S k)) with (j + 1 + Z.of_nat k) by lia.
    rewrite !runs_of_app, runs_of_rounds_log_other, runs_of_line, IH by lia.
    destruct k; reflexivity.
Qed.
End RoundsPerCase.

(** Up to the wrap of the 32-bit product the divisor is the limit times
    [REPEAT_COUNT]. *)
Lemma divisor_without_wrap (limit : Z) :
  0 <= limit -> limit * REPEAT_COUNT < 2 ^ 32 ->
  u32 (limit * REPEAT_COUNT) = limit * REPEAT_COUNT.
Proof.
  intros H0 Hlt. unfold u32. apply Z.mod_small. unfold REPEAT_COUNT in *. lia.
Qed.

(** ** A failing [run] *)

(** In normal mode a [run] that returns 0 ends the loop at once: the case is
    recorded in [bench_failed], [term] is not called, no further case or
    pass is run. *)
Lemma bench_loop_run_zero (world : Type) (P : platform world)
      (bench_tbl : list (bench_info_t world)) (o : opt_t)
      (fuel : nat) (i : Z) (s : loop_state world)
      (bench : bench_info_t world) (w1 w2 : world) :
  opt_bench_idx o = 0 ->
  0 <= ls_j s ->
  bench_tbl !! Z.to_nat (ls_j s) = Some bench ->
  exit_thread P (ls_world s) = 0 ->
  call_opt (init bench) (ls_world s) = Some w1 ->
  run bench w1 = Some (0, w2) ->
  bench_loop P bench_tbl o (S fuel) i s
  = GotoExit
      (LoopState (ls_j s) (ls_round s) (ls_total s) (-1) w2
         (ls_log s ++ call_log (init bench) (CallInit (ls_j s))
                ++ [CallRun (ls_j s) 0] ++ [Err "Benchmark failed"])).
Proof.
  intros Hnormal Hj Hb Hflag Hinit Hrun. cbn [bench_loop].
  pose proof (lookup_num_bench bench_tbl _ _ Hj Hb) as Hlt.
  apply Z.ltb_lt in Hlt. rewrite Hlt, Hflag, Hb, Hnormal. simpl.
  rewrite Hinit, Hrun. simpl. rewrite <- !app_assoc. reflexivity.
Qed.

(** [main] turns a negative [bench_failed] into a non-zero exit status. *)
Lemma main_exit_failed (boot : boot_t) (queue : bool) (ret : Z)
      (log : list event) :
  ret < 0 ->
  exists log', main_exit boot queue ret log = ProcessExit EXIT_FAILURE log'.
Proof.
  intros Hret. unfold main_exit.
  destruct (odp_shm_free_ok boot); simpl; [|eauto].
  destruct (odp_term_local_ok boot); simpl; [|eauto].
  destruct (odp_term_global_ok boot); simpl; [|eauto].
  apply Z.ltb_lt in Hret. rewrite Hret. eauto.
Qed.

(** ** The divisor of the average *)

Section TickFacts.
Variable cancel_at : Z.
Variable o : opt_t.
Variable nm : string.
Variable ret : Z.

Lemma tick_rounds_total (n : nat) :
  forall (w total : Z),
    0 <= total -> total + Z.of_nat n < 2 ^ 64 ->
    rounds_total (tick_platform cancel_at) o (tick_case nm ret) n w total
    = total + Z.of_nat n.
Proof.
  induction n as [|n IH]; intros w total H0 Hlt; cbn [rounds_total]; [lia|].
  assert (He : round_elapsed (tick_platform cancel_at) o (tick_case nm ret) w
               = 1).
  { unfold round_elapsed, stamp_diff, stamp. simpl.
    destruct (negb (opt_time o =? 0)); lia. }
  rewrite He. unfold u64. rewrite Z.mod_small by lia.
  rewrite IH; lia.
Qed.

(** On a platform that is never cancelled every round of a case whose
    [run] does not return 0 goes through. *)
Lemma tick_rounds_ok (n : nat) :
  cancel_at < 0 -> ret <> 0 ->
  forall w : Z,
    rounds_ok (tick_platform cancel_at) (tick_case nm ret) n w = true.
Proof.
  intros Hnever Hret.
  induction n as [|n IH]; intros w; cbn [rounds_ok]; [reflexivity|].
  rewrite IH, andb_true_r. unfold round_ok. simpl.
  replace (0 <=? cancel_at) with false by (symmetry; apply Z.leb_gt; lia).
  simpl. apply negb_true_iff, Z.eqb_neq. exact Hret.
Qed.
End TickFacts.

(** A table with a single case and [R] rounds: the measured pass runs [R]
    rounds, one tick each, and divides the total by [R * REPEAT_COUNT]
    reduced to 32 bits. *)
Lemma one_case_quotient (nm : string) (R : Z) (fuel : nat) :
  1 <= R < 2 ^ 32 -> (Z.to_nat R < fuel)%nat ->
  exists w warm_up measured,
    run_benchmarks (tick_platform (-1)) [tick_case nm 1000] (demo_opt R 0)
                   fuel 0 0
    = WorkerReturn 0 0 w ([PrintHeader 0] ++ warm_up ++ measured)
    /\ Z.of_nat (runs_of 0 measured) = R
    /\ omap result_quotient measured = [(R, u32 (R * REPEAT_COUNT))].
Proof.
  intros HR Hfuel.
  set (P := tick_platform (-1)). set (o := demo_opt R 0).
  set (tbl := [tick_case nm 1000]).
  assert (Hlimit : round_limit o (tick_case nm 1000) = R) by reflexivity.
  assert (Hn : rounds_run R 1 = Z.to_nat R).
  { unfold rounds_run. destruct (Z.ltb_spec 1 R); lia. }
  assert (Hpf : pass_fuel o 1 tbl = Z.to_nat R).
  { unfold tbl. cbn [pass_fuel]. rewrite Hlimit, Hn. lia. }
  pose proof (run_benchmarks_normal P tbl o fuel 0 0) as Hrun.
  cbv zeta in Hrun. rewrite Hrun; clear Hrun.
  - unfold tbl. cbn [pass_spec]. rewrite Hlimit, Hn. simpl snd. simpl fst.
    unfold P at 1 2. cbn [em_term_core tick_platform fst snd].
    rewrite !app_nil_r.
    eexists. eexists. eexists. split; [reflexivity|]. split.
    + rewrite runs_of_app, runs_of_rounds_log.
      match goal with
      | |- context [runs_of 0 [?e]] => change (runs_of 0 [e]) with O
      end.
      lia.
    + rewrite omap_app, (omap_rounds_log result_quotient)
        by (intros [] He; auto; discriminate).
      simpl. unfold P. rewrite tick_rounds_total by lia.
      do 3 f_equal. lia.
  - reflexivity.
  - unfold o, demo_opt. simpl. lia.
  - split; reflexivity.
  - unfold run_ok, tbl. cbn [pass_ok pass_spec]. rewrite Hlimit, Hn.
    unfold P. rewrite !tick_rounds_ok by lia. reflexivity.
  - lia.
Qed.

(** C3 at a failing input: one case, 4294968 rounds configured.  The measured
    pass runs 4294968 rounds and accumulates a total of 4294968 ticks; the
    divisor [max_rounds * REPEAT_COUNT] is a [uint32_t] product and comes out
    as 704, not as 4294968000. *)
Theorem divisor_wraps_at_4294968_rounds :
  exists w warm_up measured,
    run_benchmarks (tick_platform (-1)) [tick_case "a" 1000]
                   (demo_opt 4294968 0) (Z.to_nat 4294969) 0 0
    = WorkerReturn 0 0 w ([PrintHeader 0] ++ warm_up ++ measured)
    /\ Z.of_nat (runs_of 0 measured) = 4294968
    /\ omap result_quotient measured = [(4294968, 704)]
    /\ 4294968 * REPEAT_COUNT = 4294968000.
Proof.
  destruct (one_case_quotient "a" 4294968 (Z.to_nat 4294969))
    as (w & warm_up & measured & Hrun & Hruns & Hq); [lia | lia |].
  exists w, warm_up, measured.
  split; [exact Hrun|].
  split; [exact Hruns|].
  split; [exact Hq|].
  reflexivity.
Qed.

(** ** Validation of the command line *)

Lemma getopt_loop_rounds (argv : list cli_opt) :
  forall o o',
    0 <= opt_rounds o < 2 ^ 32 ->
    getopt_loop argv o = inl o' ->
    0 <= opt_rounds o' < 2 ^ 32.
Proof.
  induction argv as [|a argv IH]; intros o o' Hr Hloop; simpl in Hloop.
  - injection Hloop as <-. exact Hr.
  - destruct a; try discriminate;
      (eapply IH; [|exact Hloop]); simpl; try exact Hr.
    unfold u32. apply Z.mod_pos_bound. lia.
Qed.

Lemma getopt_loop_return (argv : list cli_opt) :
  forall o ret o' log, getopt_loop argv o = inr (ret, o', log) -> ret <> 0.
Proof.
  induction argv as [|a argv IH]; intros o ret o' log Hloop; simpl in Hloop;
    [discriminate|].
  destruct a; try (eapply IH; exact Hloop);
    injection Hloop as <- _ _; discriminate.
Qed.

(** What [parse_args] has checked when it returns 0. *)
Lemma parse_args_valid (nbench : Z) (argv : list cli_opt) (o : opt_t)
      (log : list event) :
  parse_args nbench argv = ParseReturn 0 o log ->
  1 <= opt_burst_size o <= MAX_BURST
  /\ 1 <= opt_rounds o < 2 ^ 32
  /\ 0 <= opt_bench_idx o <= nbench.
Proof.
  unfold parse_args.
  destruct (getopt_loop argv default_opt) as [o' | [[ret o'] elog]] eqn:Hloop.
  - pose proof (getopt_loop_rounds argv default_opt o') as Hr.
    destruct (Z.ltb_spec (opt_burst_size o') 1); simpl; [discriminate|].
    destruct (Z.gtb_spec (opt_burst_size o') MAX_BURST); simpl;
      [discriminate|].
    destruct (Z.ltb_spec (opt_rounds o') 1); [discriminate|].
    destruct (Z.ltb_spec (opt_bench_idx o') 0); simpl; [discriminate|].
    destruct (Z.gtb_spec (opt_bench_idx o') nbench); simpl; [discriminate|].
    intros Heq. injection Heq as <- _.
    specialize (Hr ltac:(unfold default_opt, ROUNDS; simpl; lia) Hloop).
    lia.
  - intros Heq. injection Heq as -> _ _.
    exfalso. eapply getopt_loop_return; [exact Hloop | reflexivity].
Qed.

(** C7.  When the options have been read and the burst size is outside
    1..[MAX_BURST], the process exits with [EXIT_FAILURE], which is not 0,
    before the header is printed and before any test function is called:
    the log holds neither a header, nor a result line, nor a call. *)
Theorem invalid_burst_size_is_rejected :
  forall (world : Type) (P : platform world) (fuel : nat) (boot : boot_t)
         (bench_tbl : list (bench_info_t world)) (argv : list cli_opt)
         (w0 : world) (o : opt_t),
    getopt_loop argv default_opt = inl o ->
    opt_burst_size o < 1 \/ MAX_BURST < opt_burst_size o ->
    exists log,
      main P fuel boot bench_tbl argv w0 = ProcessExit EXIT_FAILURE log
      /\ EXIT_FAILURE <> 0
      /\ Forall (fun e => is_output e = false) log.
Proof.
  intros world P fuel boot bench_tbl argv w0 o Hloop Hburst.
  assert (Herr : forall msg, Forall (fun e => is_output e = false) [Err msg])
    by (intros msg; repeat constructor).
  unfold main.
  repeat match goal with
         | |- context [negb (?field boot)] =>
           destruct (field boot); simpl negb; cbv iota;
             [|eexists; split; [reflexivity | split; [discriminate | apply Herr]]]
         end.
  unfold parse_args. rewrite Hloop.
  replace ((opt_burst_size o <? 1) || (opt_burst_size o >? MAX_BURST))
    with true.
  - eexists. split; [reflexivity | split; [discriminate | apply Herr]].
  - symmetry. apply orb_true_iff. destruct Hburst as [Hlo | Hhi].
    + left. apply Z.ltb_lt. exact Hlo.
    + right. apply Z.gtb_lt. exact Hhi.
Qed.

Lemma invalid_burst_size_is_rejected_witness :
  exists log,
    main (tick_platform (-1)) 10 boot_all_ok two_cases [OptBurst 65] 0
    = ProcessExit EXIT_FAILURE log
    /\ EXIT_FAILURE <> 0
    /\ Forall (fun e => is_output e = false) log.
Proof.
  apply (invalid_burst_size_is_rejected
           Z (tick_platform (-1)) 10 boot_all_ok two_cases [OptBurst 65] 0
           (Opt 0 0 65 EVENT_SIZE ROUNDS (-1) VECTOR_SIZE)).
  - reflexivity.
  - right. unfold MAX_BURST. simpl. lia.
Defined.

Example burst_size_zero_rejected :
  main (tick_platform (-1)) 10 boot_all_ok two_cases [OptBurst 0] 0
  = ProcessExit EXIT_FAILURE [Err "Invalid burst size"].
Proof. reflexivity. Qed.

(** ** Termination of the loop and the exit status *)

Section LoopTotal.
Context {world : Type}.
Variable P : platform world.
Variable bench_tbl : list (bench_info_t world).
Variable o : opt_t.

Hypothesis Hrounds : opt_rounds o < 2 ^ 32.

Lemma round_ok_intro (bench : bench_info_t world) (w w1 w2 w3 : world)
      (ret : Z) :
  exit_thread P w = 0 ->
  call_opt (init bench) w = Some w1 ->
  run bench w1 = Some (ret, w2) ->
  ret <> 0 ->
  call_opt (term bench) w2 = Some w3 ->
  round_ok P bench w = true.
Proof.
  intros Hflag Hinit Hrun Hret Hterm. unfold round_ok, cycle.
  unfold call_opt in Hinit, Hterm.
  rewrite Hflag, Hinit, Hrun, Hterm. simpl.
  apply negb_true_iff, Z.eqb_neq. exact Hret.
Qed.

(** A round of the normal loop that is started and does not go through:
    [run] returned 0, or a test function ended the process. *)
Lemma bench_loop_round_stops (fuel : nat) (i : Z) (s : loop_state world)
      (bench : bench_info_t world) :
  opt_bench_idx o = 0 ->
  0 <= ls_j s ->
  bench_tbl !! Z.to_nat (ls_j s) = Some bench ->
  exit_thread P (ls_world s) = 0 ->
  round_ok P bench (ls_world s) = false ->
  (exists s', bench_loop P bench_tbl o (S fuel) i s = GotoExit s')
  \/ (exists log f,
         bench_loop P bench_tbl o (S fuel) i s
         = LoopTestAbort (log ++ [Aborted f (ls_j s)])).
Proof.
  intros Hnormal Hj Hb Hflag Hnot. cbn [bench_loop].
  pose proof (lookup_num_bench bench_tbl _ _ Hj Hb) as Hlt.
  apply Z.ltb_lt in Hlt. rewrite Hlt, Hflag, Hb, Hnormal. simpl.
  destruct (call_opt (init bench) (ls_world s)) as [w1|] eqn:Hinit.
  2:{ right. rewrite app_assoc. eauto. }
  destruct (run bench w1) as [[ret w2]|] eqn:Hrun.
  2:{ right. rewrite app_assoc. eauto. }
  destruct (Z.eqb_spec ret 0) as [Hz | Hnz]; [left; eauto|].
  destruct (call_opt (term bench) w2) as [w3|] eqn:Hterm.
  - rewrite (round_ok_intro bench _ w1 w2 w3 ret) in Hnot by assumption.
    discriminate.
  - right. eauto.
Qed.

(** In normal mode the loop of a pass ends, whatever the test functions
    do and whenever the flag is set: the loop condition fails, a [run]
    returns 0, or a test function ends the process. *)
Lemma normal_loop_terminates (fuel : nat) :
  opt_bench_idx o = 0 ->
  forall (i : Z) (s : loop_state world),
    0 <= ls_j s -> 0 <= ls_round s ->
    (pass_fuel o (ls_round s) (drop (Z.to_nat (ls_j s)) bench_tbl) < fuel)%nat ->
    (exists s',
        bench_loop P bench_tbl o fuel i s = LoopEnd s'
        \/ bench_loop P bench_tbl o fuel i s = GotoExit s')
    \/ (exists log f j,
           bench_loop P bench_tbl o fuel i s
           = LoopTestAbort (log ++ [Aborted f j])).
Proof.
  intros Hnormal.
  induction fuel as [|fuel IH]; intros i s Hj Hr Hfuel; [lia|].
  destruct ((ls_j s <? num_bench bench_tbl)
            && (exit_thread P (ls_world s) =? 0)) eqn:Hcond.
  - apply andb_true_iff in Hcond. destruct Hcond as [Hlt Hflag].
    apply Z.ltb_lt in Hlt. apply Z.eqb_eq in Hflag.
    destruct (lookup_lt_is_Some_2 bench_tbl (Z.to_nat (ls_j s)))
      as [bench Hb]; [unfold num_bench in Hlt; lia|].
    destruct (round_ok P bench (ls_world s)) eqn:Hok.
    2:{ destruct (bench_loop_round_stops fuel i s bench Hnormal Hj Hb Hflag
                    Hok) as [[s' Heq] | (log & f & Heq)]; eauto 6. }
    rewrite (bench_loop_round P bench_tbl o Hnormal fuel i s bench)
      by assumption.
    rewrite (drop_S _ _ _ Hb) in Hfuel. cbn [pass_fuel] in Hfuel.
    pose proof (rounds_run_pos (round_limit o bench) (ls_round s)) as Hpos.
    pose proof (round_limit_le o bench) as Hle.
    apply IH.
    + unfold next_round.
      destruct (ls_round s >=? round_limit o bench); simpl; lia.
    + unfold next_round.
      destruct (ls_round s >=? round_limit o bench); simpl; [lia|].
      unfold u32. apply Z.mod_pos_bound. lia.
    + unfold next_round.
      destruct (Z.geb_spec (ls_round s) (round_limit o bench)) as [Hge|Hlt'];
        cbn [ls_j ls_round].
      * replace (Z.to_nat (ls_j s + 1)) with (S (Z.to_nat (ls_j s))) by lia.
        lia.
      * replace (u32 (ls_round s + 1)) with (ls_round s + 1)
          by (unfold u32; rewrite Z.mod_small; lia).
        rewrite (drop_S _ _ _ Hb). cbn [pass_fuel].
        rewrite (rounds_run_next _ _ Hlt') in Hfuel. lia.
  - cbn [bench_loop]. rewrite Hcond. eauto.
Qed.

End LoopTotal.

Section WorkerFacts.
Context {world : Type}.
Variable P : platform world.
Variable bench_tbl : list (bench_info_t world).
Variable o : opt_t.


Lemma worker_exit_log (ret : Z) (s : loop_state world) :
  exists w tail,
    worker_exit P ret s = WorkerReturn ret (ls_failed s) w (ls_log s ++ tail)
    /\ (tail = [] \/ tail = [Err "EM core terminate failed"]).
Proof.
  unfold worker_exit. destruct (em_term_core P (ls_world s)) as [[] w];
    eauto.
Qed.

Lemma create_pools_log (w : world) :
  Forall (fun e => exists msg, e = Err msg)
         (snd (create_pools P o w)).
Proof.
  unfold create_pools.
  destruct (em_pool_create P "sw_event_pool" _ _ w) as [[] w1]; simpl;
    [|repeat constructor; eauto].
  destruct (em_pool_create P "packet_pool" _ _ w1) as [[] w2]; simpl;
    [|repeat constructor; eauto].
  destruct (em_pool_create P "vector_pool" _ _ w2) as [[] w3]; simpl;
    repeat constructor; eauto.
Qed.

Lemma errors_no_zero_run (l : list event) :
  Forall (fun e => exists msg, e = Err msg) l ->
  ~ Exists (fun e => zero_run e = true) l.
Proof.
  intros Hall Hex. apply Exists_exists in Hex.
  destruct Hex as (e & He & Hz). rewrite Forall_forall in Hall.
  destruct (Hall e He) as [msg ->]. discriminate.
Qed.

Lemma exists_zero_run_app (l1 l2 : list event) :
  Forall (fun e => zero_run e = false) l2 ->
  Exists (fun e => zero_run e = true) (l1 ++ l2)
  <-> Exists (fun e => zero_run e = true) l1.
Proof.
  intros Hl2. rewrite Exists_app. split; [|tauto].
  intros [H | H]; [exact H|]. exfalso.
  apply Exists_exists in H. destruct H as (e & He & Hz).
  rewrite Forall_forall in Hl2. specialize (Hl2 e He). congruence.
Qed.

Lemma zero_run_call_log (f : option (world -> option world)) (e : event) :
  zero_run e = false ->
  Forall (fun e => zero_run e = false) (call_log f e).
Proof. intros He. destruct f; simpl; repeat constructor. exact He. Qed.

(** In normal mode the loop leaves by [goto exit] only after a [run] that
    returned 0, with [bench_failed] set; when it ends otherwise it has
    seen no such [run] and has not touched [bench_failed]; and when a test
    function ends the process no [run] has returned 0 either. *)
Lemma bench_loop_failure (fuel : nat) :
  opt_bench_idx o = 0 ->
  forall (i : Z) (s : loop_state world),
    match bench_loop P bench_tbl o fuel i s with
    | LoopEnd s' =>
      ls_failed s' = ls_failed s
      /\ (Exists (fun e => zero_run e = true) (ls_log s')
          <-> Exists (fun e => zero_run e = true) (ls_log s))
    | GotoExit s' =>
      ls_failed s' = -1
      /\ exists pre j,
          ls_log s' = pre ++ [CallRun j 0; Err "Benchmark failed"]
          /\ (Exists (fun e => zero_run e = true) pre
              <-> Exists (fun e => zero_run e = true) (ls_log s))
    | LoopAbort _ _ => False
    | LoopTestAbort log' =>
      exists pre f j,
        log' = pre ++ [Aborted f j]
        /\ (Exists (fun e => zero_run e = true) pre
            <-> Exists (fun e => zero_run e = true) (ls_log s))
    | LoopBadIndex => True
    | LoopFuel => True
    end.
Proof.
  intros Hnormal.
  induction fuel as [|fuel IH]; intros i s; cbn [bench_loop]; [exact I|].
  destruct ((ls_j s <? num_bench bench_tbl)
            && (exit_thread P (ls_world s) =? 0)); [|tauto].
  destruct (bench_tbl !! Z.to_nat (ls_j s)) as [bench|]; [|exact I].
  rewrite Hnormal. simpl negb. cbv iota.
  assert (Hinit : forall f,
             exists pre f' j,
               ls_log s ++ call_log (init bench) (CallInit (ls_j s))
                      ++ [Aborted f (ls_j s)]
               = pre ++ [Aborted f' j]
               /\ (Exists (fun e => zero_run e = true) pre
                   <-> Exists (fun e => zero_run e = true) (ls_log s))).
  { intros f.
    exists (ls_log s ++ call_log (init bench) (CallInit (ls_j s))), f,
           (ls_j s).
    rewrite <- app_assoc. split; [reflexivity|].
    apply exists_zero_run_app, zero_run_call_log. reflexivity. }
  destruct (call_opt (init bench) (ls_world s)) as [w1|]; [|apply Hinit].
  destruct (run bench w1) as [[ret w2]|]; [|apply Hinit].
  destruct (Z.eqb_spec ret 0) as [-> | Hret].
  - split; [reflexivity|].
    exists (ls_log s ++ call_log (init bench) (CallInit (ls_j s))), (ls_j s).
    cbn [ls_log]. rewrite <- !app_assoc. split; [reflexivity|].
    apply exists_zero_run_app, zero_run_call_log. reflexivity.
  - assert (Hstep0 :
              Exists (fun e => zero_run e = true)
                     ((ls_log s
                         ++ call_log (init bench) (CallInit (ls_j s))
                         ++ [CallRun (ls_j s) ret])
                        ++ call_log (term bench) (CallTerm (ls_j s)))
              <-> Exists (fun e => zero_run e = true) (ls_log s)).
    { rewrite <- !app_assoc. apply exists_zero_run_app.
      apply Forall_app_2; [apply zero_run_call_log; reflexivity|].
      apply Forall_app_2; [|apply zero_run_call_log; reflexivity].
      repeat constructor. simpl. apply Z.eqb_neq. exact Hret. }
    destruct (call_opt (term bench) w2) as [w3|];
      [|eexists; eexists; eexists; split; [reflexivity | exact Hstep0]].
    assert (Hstep :
              Exists (fun e => zero_run e = true)
                     ((ls_log s
                         ++ call_log (init bench) (CallInit (ls_j s))
                         ++ [CallRun (ls_j s) ret])
                        ++ call_log (term bench) (CallTerm (ls_j s)))
              <-> Exists (fun e => zero_run e = true) (ls_log s)).
    { rewrite <- !app_assoc. apply exists_zero_run_app.
      apply Forall_app_2; [apply zero_run_call_log; reflexivity|].
      apply Forall_app_2; [|apply zero_run_call_log; reflexivity].
      repeat constructor. simpl. apply Z.eqb_neq. exact Hret. }
    assert (Hline :
              forall line,
                is_result line = true ->
                Exists (fun e => zero_run e = true)
                       (((ls_log s
                            ++ call_log (init bench) (CallInit (ls_j s))
                            ++ [CallRun (ls_j s) ret])
                           ++ call_log (term bench) (CallTerm (ls_j s)))
                          ++ [line])
                <-> Exists (fun e => zero_run e = true) (ls_log s)).
    { intros line Hl. rewrite exists_zero_run_app; [exact Hstep|].
      repeat constructor. destruct line; try discriminate. reflexivity. }
    destruct (ls_round s >=? round_limit o bench); [destruct (i >? 0)|];
      match goal with
      | |- context [bench_loop P bench_tbl o fuel i ?s1] =>
        specialize (IH i s1);
          destruct (bench_loop P bench_tbl o fuel i s1)
            as [s'|s'|w' l'|l'| |];
          try exact IH; cbn [ls_failed ls_log] in IH
      end.
    + destruct IH as [Hf Hz]. split; [exact Hf|].
      rewrite Hz. apply Hline. reflexivity.
    + destruct IH as (Hf & pre & j & Hlog & Hz). split; [exact Hf|].
      exists pre, j. split; [exact Hlog|]. rewrite Hz. apply Hline.
      reflexivity.
    + destruct IH as (pre & f & j & Hlog & Hz).
      exists pre, f, j. split; [exact Hlog|]. rewrite Hz. apply Hline.
      reflexivity.
    + destruct IH as [Hf Hz]. split; [exact Hf|]. rewrite Hz. exact Hstep.
    + destruct IH as (Hf & pre & j & Hlog & Hz). split; [exact Hf|].
      exists pre, j. split; [exact Hlog|]. rewrite Hz. exact Hstep.
    + destruct IH as (pre & f & j & Hlog & Hz).
      exists pre, f, j. split; [exact Hlog|]. rewrite Hz. exact Hstep.
    + destruct IH as [Hf Hz]. split; [exact Hf|]. rewrite Hz. exact Hstep.
    + destruct IH as (Hf & pre & j & Hlog & Hz). split; [exact Hf|].
      exists pre, j. split; [exact Hlog|]. rewrite Hz. exact Hstep.
    + destruct IH as (pre & f & j & Hlog & Hz).
      exists pre, f, j. split; [exact Hlog|]. rewrite Hz. exact Hstep.
Qed.



(** The outcome of [run_benchmarks] in normal mode, entered with
    [bench_failed = 0]: either no [run] returned 0 and [bench_failed] is
    still 0, or the log ends with the [run] that returned 0 and the error
    message (and possibly the error of [em_term_core]), [bench_failed] is
    -1 and the value returned is 0.  When a test function has ended the
    process, no [run] had returned 0. *)
Lemma run_benchmarks_outcome (fuel : nat) (w0 : world) :
  opt_bench_idx o = 0 ->
  match run_benchmarks P bench_tbl o fuel 0 w0 with
  | WorkerReturn ret failed _ log =>
    (failed = 0 /\ ~ Exists (fun e => zero_run e = true) log)
    \/ (ret = 0 /\ failed = -1
        /\ exists pre j tail,
            log = pre ++ [CallRun j 0; Err "Benchmark failed"] ++ tail
            /\ ~ Exists (fun e => zero_run e = true) pre
            /\ (tail = [] \/ tail = [Err "EM core terminate failed"]))
  | WorkerAbort _ _ => False
  | WorkerTestAbort log =>
    exists pre f j,
      log = pre ++ [Aborted f j]
      /\ ~ Exists (fun e => zero_run e = true) pre
  | WorkerBadIndex => True
  | WorkerFuel => True
  end.
Proof.
  intros Hnormal. unfold run_benchmarks.
  destruct (em_init_core P w0) as [[] w1]; simpl negb; cbv iota.
  2:{ left. split; [reflexivity|]. apply errors_no_zero_run.
      repeat constructor. eauto. }
  pose proof (create_pools_log w1) as Hpools.
  destruct (create_pools P o w1) as [[r w2] elog]. simpl in Hpools.
  destruct (r =? 0); simpl negb; cbv iota.
  2:{ left. split; [reflexivity|]. apply errors_no_zero_run. exact Hpools. }
  assert (Hhead : ~ Exists (fun e => zero_run e = true)
                    [PrintHeader (opt_time o)]).
  { intros H. apply Exists_cons in H. destruct H as [H | H];
      [discriminate | inversion H]. }
  assert (Hexit_fail :
            forall s pre j,
              ls_failed s = -1 ->
              ls_log s = pre ++ [CallRun j 0; Err "Benchmark failed"] ->
              ~ Exists (fun e => zero_run e = true) pre ->
              match worker_exit P 0 s with
              | WorkerReturn ret failed _ log =>
                (failed = 0 /\ ~ Exists (fun e => zero_run e = true) log)
                \/ (ret = 0 /\ failed = -1
                    /\ exists pre j tail,
                        log = pre ++ [CallRun j 0; Err "Benchmark failed"]
                                  ++ tail
                        /\ ~ Exists (fun e => zero_run e = true) pre
                        /\ (tail = []
                            \/ tail = [Err "EM core terminate failed"]))
              | WorkerAbort _ _ => False
              | WorkerTestAbort log =>
                exists pre f j,
                  log = pre ++ [Aborted f j]
                  /\ ~ Exists (fun e => zero_run e = true) pre
              | WorkerBadIndex => True
              | WorkerFuel => True
              end).
  { intros s pre j Hf Hlog Hpre.
    destruct (worker_exit_log 0 s) as (w & tail & -> & Htail).
    right. repeat split; [exact Hf|].
    exists pre, j, tail. rewrite Hlog, <- app_assoc. auto. }
  pose proof (bench_loop_failure fuel Hnormal 0
                (LoopState 0 1 0 0 w2 [PrintHeader (opt_time o)])) as H0.
  destruct (bench_loop P bench_tbl o fuel 0 _) as [s0|s0|w' l'|l'| |];
    try exact I; try contradiction; cbn [ls_failed ls_log] in H0.
  - destruct H0 as [Hf0 Hz0].
    pose proof (bench_loop_failure fuel Hnormal 1
                  (LoopState 0 1 0 (ls_failed s0) (ls_world s0)
                             (ls_log s0))) as H1.
    destruct (bench_loop P bench_tbl o fuel 1 _) as [s1|s1|w' l'|l'| |];
      try exact I; try contradiction; cbn [ls_failed ls_log] in H1.
    + destruct H1 as [Hf1 Hz1].
      destruct (worker_exit_log 0 s1) as (w & tail & -> & Htail).
      left. split; [congruence|].
      rewrite exists_zero_run_app, Hz1, Hz0; [exact Hhead|].
      destruct Htail as [-> | ->]; repeat constructor.
    + destruct H1 as (Hf1 & pre & j & Hlog & Hz1).
      apply (Hexit_fail s1 pre j Hf1 Hlog). rewrite Hz1, Hz0. exact Hhead.
    + destruct H1 as (pre & f & j & Hlog & Hz1).
      exists pre, f, j. split; [exact Hlog|]. rewrite Hz1, Hz0. exact Hhead.
  - destruct H0 as (Hf0 & pre & j & Hlog & Hz0).
    apply (Hexit_fail s0 pre j Hf0 Hlog). rewrite Hz0. exact Hhead.
  - destruct H0 as (pre & f & j & Hlog & Hz0).
    exists pre, f, j. split; [exact Hlog|]. rewrite Hz0. exact Hhead.
Qed.


(** In normal mode [run_benchmarks] ends, whatever the test functions do
    and whenever the flag is set: it returns, or a test function has
    ended the process. *)
Lemma run_benchmarks_normal_ends (fuel : nat) (failed : Z) (w0 : world) :
  opt_bench_idx o = 0 -> opt_rounds o < 2 ^ 32 ->
  (pass_fuel o 1 bench_tbl < fuel)%nat ->
  (exists ret failed' w log,
      run_benchmarks P bench_tbl o fuel failed w0
      = WorkerReturn ret failed' w log)
  \/ (exists log f j,
         run_benchmarks P bench_tbl o fuel failed w0
         = WorkerTestAbort (log ++ [Aborted f j])).
Proof.
  intros Hnormal Hrounds Hfuel. unfold run_benchmarks.
  destruct (em_init_core P w0) as [[] w1]; simpl negb; cbv iota;
    [|left; eauto].
  destruct (create_pools P o w1) as [[r w2] elog].
  destruct (r =? 0); simpl negb; cbv iota; [|left; eauto].
  destruct (normal_loop_terminates P bench_tbl o Hrounds fuel Hnormal 0
              (LoopState 0 1 0 failed w2 [PrintHeader (opt_time o)]))
    as [(s0 & [Heq0 | Heq0]) | (l0 & f0 & j0 & Heq0)]; cbn [ls_j ls_round];
    [lia | lia | change (Z.to_nat 0) with O; rewrite drop_0; lia | | |];
    rewrite Heq0.
  - destruct (normal_loop_terminates P bench_tbl o Hrounds fuel Hnormal 1
                (LoopState 0 1 0 (ls_failed s0) (ls_world s0) (ls_log s0)))
      as [(s1 & [Heq1 | Heq1]) | (l1 & f1 & j1 & Heq1)];
      cbn [ls_j ls_round];
      [lia | lia | change (Z.to_nat 0) with O; rewrite drop_0; lia | | |];
      rewrite Heq1.
    + destruct (worker_exit_log 0 s1) as (w & tail & -> & _). left. eauto.
    + destruct (worker_exit_log 0 s1) as (w & tail & -> & _). left. eauto.
    + right. eauto.
  - destruct (worker_exit_log 0 s0) as (w & tail & -> & _). left. eauto.
  - right. eauto.
Qed.

End WorkerFacts.

Lemma main_exit_success (boot : boot_t) (queue : bool) (log : list event) :
  teardown_ok boot ->
  exists log', main_exit boot queue 0 log = ProcessExit EXIT_SUCCESS log'.
Proof.
  intros (Hshm & Hlocal & Hglobal). unfold main_exit.
  rewrite Hshm, Hlocal, Hglobal. simpl. eauto.
Qed.

Lemma parse_args_accept_log (nbench : Z) (argv : list cli_opt) (o : opt_t)
      (log : list event) :
  parse_args nbench argv = ParseReturn 0 o log -> log = [].
Proof.
  unfold parse_args.
  destruct (getopt_loop argv default_opt) as [o' | [[ret o'] elog]] eqn:Hloop.
  - destruct ((opt_burst_size o' <? 1) || (opt_burst_size o' >? MAX_BURST));
      [discriminate|].
    destruct (opt_rounds o' <? 1); [discriminate|].
    destruct ((opt_bench_idx o' <? 0) || (opt_bench_idx o' >? nbench));
      [discriminate|].
    intros H. injection H as _ <-. reflexivity.
  - intros H. injection H as -> _ _. exfalso.
    eapply getopt_loop_return; [exact Hloop | reflexivity].
Qed.

Lemma main_exit_tail (boot : boot_t) (queue : bool) :
  Forall (fun e => exists msg, e = Err msg)
         ((if queue
           then if em_queue_delete_ok boot then []
                else [Err "em_queue_delete() fails";
                      Err "Deleting queues failed"]
           else [Err "Deleting queues failed"])
            ++ (if main_em_term_core_ok boot then []
                else [Err "EM core terminate failed"])
            ++ (if em_term_ok boot then [] else [Err "EM terminate failed"])).
Proof.
  destruct queue, (em_queue_delete_ok boot), (main_em_term_core_ok boot),
    (em_term_ok boot); repeat constructor; eauto.
Qed.

Lemma main_exit_status (boot : boot_t) (queue : bool) (ret : Z)
      (log : list event) :
  teardown_ok boot ->
  exists tail,
    main_exit boot queue ret log
    = ProcessExit (if ret <? 0 then EXIT_FAILURE else EXIT_SUCCESS)
                  (log ++ tail)
    /\ Forall (fun e => exists msg, e = Err msg) tail.
Proof.
  intros (Hshm & Hlocal & Hglobal). unfold main_exit.
  rewrite Hshm, Hlocal, Hglobal. simpl negb. cbv iota.
  eexists. split.
  - destruct (ret <? 0); reflexivity.
  - apply main_exit_tail.
Qed.


Section ProcessFacts.
Context {world : Type}.
Variable P : platform world.
Variable boot : boot_t.
Variable bench_tbl : list (bench_info_t world).
Variable argv : list cli_opt.
Variable w0 : world.
Variable o : opt_t.
Variable plog : list event.

Hypothesis Hboot : boot_ok boot.
Hypothesis Hparse :
  parse_args (num_bench bench_tbl) argv = ParseReturn 0 o plog.

(** [main] after its set-up and an accepted command line. *)
Lemma main_accepted (fuel : nat) :
  main P fuel boot bench_tbl argv w0
  = if create_queues_ok boot then
      match run_benchmarks P bench_tbl o fuel 0 w0 with
      | WorkerReturn _ failed _ wlog =>
        main_exit boot true failed ([PrintInfo] ++ wlog)
      | WorkerAbort _ wlog => ProcessAbort ([PrintInfo] ++ wlog)
      | WorkerTestAbort wlog => ProcessAbort ([PrintInfo] ++ wlog)
      | WorkerBadIndex => ProcessBadIndex
      | WorkerFuel => ProcessFuel
      end
    else
      main_exit boot false 0
                ([PrintInfo] ++ [Err "EM unscheduled queue create failed"]).
Proof.
  pose proof (parse_args_accept_log _ _ _ _ Hparse) as Hplog.
  destruct Hboot as (H1 & H2 & H3 & H4 & H5 & H6 & H7 & H8 & H9).
  unfold main. rewrite H1, H2, H3, H4, H5, H6, H7, H8, H9, Hparse, Hplog.
  simpl negb. cbv iota.
  destruct (create_queues_ok boot); reflexivity.
Qed.

Lemma exists_zero_run_framed (wlog tail : list event) :
  Forall (fun e => exists msg, e = Err msg) tail ->
  Exists (fun e => zero_run e = true) (([PrintInfo] ++ wlog) ++ tail)
  <-> Exists (fun e => zero_run e = true) wlog.
Proof.
  intros Htail. rewrite exists_zero_run_app.
  - simpl. rewrite Exists_cons. split; [|tauto].
    intros [H | H]; [discriminate | exact H].
  - eapply Forall_impl; [exact Htail|]. intros e [msg ->]. reflexivity.
Qed.



End ProcessFacts.



(** The first of these runs: four cycles, then the flag is found set. *)
Example cancelled_indefinite_run :
  main (tick_platform 400) 10 boot_all_ok mixed_cases
       [OptRounds 3; OptIndex 1] 0
  = ProcessExit EXIT_SUCCESS
      [PrintInfo; PrintHeader 0; PrintIndef "a";
       CallInit 0; CallRun 0 1000; CallTerm 0;
       CallInit 0; CallRun 0 1000; CallTerm 0;
       CallInit 0; CallRun 0 1000; CallTerm 0;
       CallInit 0; CallRun 0 1000; CallTerm 0]
  /\ rounds_ok (tick_platform 400)
               (marked_case "a" (fun w => if w <? 5000 then 1000 else 0)) 4
               (worker_start (tick_platform 400) (demo_opt 3 1) 0)
     = true.
Proof. split; reflexivity. Qed.

Example cancelled_normal_run :
  main (tick_platform 4) 10 boot_all_ok two_cases [OptRounds 3] 0
  = ProcessExit EXIT_SUCCESS
      [PrintInfo; PrintHeader 0;
       CallRun 0 1000; CallRun 0 1000; CallRun 0 1000; CallRun 1 1000].
Proof. reflexivity. Qed.


(** ** Table indices of the test functions *)

Create HintDb footprint.

Section FootprintFacts.
Context {pool_t : Type}.
Variable em_alloc_multi : pool_t -> Z -> Z * pool_t.
Variable burst_size : Z.
Hypothesis Hburst : 1 <= burst_size <= MAX_BURST.

Lemma for_loop_Forall (Q : Footprint.access -> Prop) (n : Z)
      (body : Z -> list Footprint.access) :
  (forall i, 0 <= i < n -> Forall Q (body i)) ->
  Forall Q (Footprint.for_loop n body).
Proof.
  intros Hbody. unfold Footprint.for_loop.
  apply Forall_concat, Forall_forall. intros l Hl.
  apply list_elem_of_In, in_map_iff in Hl. destruct Hl as (i & <- & Hi).
  apply Hbody. apply list_elem_of_In, elem_of_seqZ in Hi. lia.
Qed.

(** Every call of the allocation loop is made at an offset
    [0 <= num_events] with room for [num - num_events] events: the part of
    the table from [num_events] up to [num]. *)
Lemma alloc_loop_calls_span (fuel : nat) :
  forall (num num_events num_retries : Z) (p : pool_t)
         (calls : list alloc_call),
    0 <= num_events ->
    Forall (fun c => 0 <= call_off c /\ call_off c + call_num c = num)
           calls ->
    Forall (fun c => 0 <= call_off c /\ call_off c + call_num c = num)
           (alloc_calls
              (alloc_loop em_alloc_multi fuel num num_events num_retries p
                          calls)).
Proof.
  induction fuel as [|fuel IH]; intros num ne r p calls Hne Hcalls;
    cbn [alloc_loop]; [exact Hcalls|].
  destruct (ne <? num); [|exact Hcalls].
  destruct (em_alloc_multi p (num - ne)) as [ret p'].
  assert (Hcalls' :
            Forall (fun c => 0 <= call_off c /\ call_off c + call_num c = num)
                   (calls ++ [AllocCall ne (num - ne) ret])).
  { apply Forall_app_2; [exact Hcalls|]. repeat constructor; simpl; lia. }
  destruct (Z.ltb_spec ret 1).
  - destruct ((ret <? 0) || (r + 1 >? MAX_RETRY)); [exact Hcalls'|].
    apply IH; assumption.
  - apply IH; [lia | assumption].
Qed.

Lemma allocate_test_events_in_range (fuel : nat) (pool : pool_t) (num : Z) :
  num <= REPEAT_COUNT * burst_size ->
  Forall (Footprint.in_range burst_size)
         (Footprint.allocate_test_events em_alloc_multi fuel pool num).
Proof.
  intros Hnum. unfold Footprint.allocate_test_events.
  apply Forall_map. unfold allocate_test_events.
  eapply Forall_impl; [apply alloc_loop_calls_span; [lia | constructor]|].
  intros c [Hoff Hsum]. unfold Footprint.in_range. simpl. lia.
Qed.

Lemma repeat_count_le : REPEAT_COUNT <= REPEAT_COUNT * burst_size.
Proof. unfold REPEAT_COUNT, MAX_BURST in *. lia. Qed.

#[local] Hint Unfold Footprint.init_test_events
  Footprint.allocate_test_ext_pktevents Footprint.create_packets
  Footprint.create_ext_packets Footprint.create_packets_multi
  Footprint.create_sw_events Footprint.create_sw_events_multi
  Footprint.create_vectors Footprint.create_vectors_multi
  Footprint.free_event_tbl Footprint.free_events
  Footprint.free_events_multi Footprint.free_vectors
  Footprint.free_clone_events Footprint.event_alloc
  Footprint.event_sw_alloc Footprint.event_pkt_alloc
  Footprint.event_vector_alloc Footprint.event_alloc_multi
  Footprint.event_sw_alloc_multi Footprint.event_pkt_alloc_multi
  Footprint.event_vector_alloc_multi Footprint.alloc_free
  Footprint.event_sw_alloc_free Footprint.event_pkt_alloc_free
  Footprint.event_vector_alloc_free Footprint.alloc_free_multi
  Footprint.event_sw_alloc_free_multi Footprint.event_pkt_alloc_free_multi
  Footprint.event_vector_alloc_free_multi Footprint.event_free
  Footprint.event_free_multi Footprint.event_pointer
  Footprint.event_uarea_get Footprint.event_uarea_get_size
  Footprint.event_get_size Footprint.event_get_type
  Footprint.event_get_type_multi Footprint.event_same_type_multi
  Footprint.event_set_type Footprint.event_get_pool
  Footprint.event_uarea_id_get Footprint.event_uarea_id_set
  Footprint.event_uarea_info Footprint.event_has_ref Footprint.event_ref
  Footprint.event_clone Footprint.event_vector_free
  Footprint.event_vector_tbl Footprint.event_vector_size
  Footprint.event_vector_max_size Footprint.event_vector_size_set
  Footprint.event_vector_info Footprint.core_id Footprint.core_count
  Footprint.odp_event2odp Footprint.odp_events2odp Footprint.odp_event2em
  Footprint.odp_events2em Footprint.unsched_send
  Footprint.unsched_send_multi Footprint.unsched_dequeue
  Footprint.unsched_dequeue_multi Footprint.unsched_send_dequeue
  Footprint.unsched_send_dequeue_multi Footprint.unsched_dequeue_free
  Footprint.unsched_dequeue_free_multi
  Footprint.create_send_unsched_sw_events
  Footprint.create_send_unsched_sw_events_multi : footprint.

Ltac in_range_arith :=
  unfold Footprint.in_range, Footprint.at_index, Footprint.span;
  cbn [Footprint.acc_off Footprint.acc_len];
  pose proof repeat_count_le; unfold REPEAT_COUNT, MAX_BURST in *; nia.

Ltac footprint :=
  repeat autounfold with footprint;
  repeat match goal with
         | |- Forall _ [] => apply Forall_nil_2
         | |- Forall _ (_ ++ _) => apply Forall_app_2
         | |- Forall _ (Footprint.allocate_test_events _ _ _ _) =>
           apply allocate_test_events_in_range;
           pose proof repeat_count_le; lia
         | |- Forall _ (Footprint.for_loop _ _) =>
           apply for_loop_Forall; intros ? ?
         | |- Forall _ (_ :: _) => apply Forall_cons_2; [in_range_arith|]
         end.

(** The accesses of every case of the suite stay inside the first
    [REPEAT_COUNT * burst_size] entries. *)
Lemma test_suite_in_range (fuel : nat) (pool : pool_t) :
  Forall (fun bench =>
            Forall (Footprint.in_range burst_size)
                   (Footprint.accesses bench))
         (Footprint.test_suite em_alloc_multi fuel pool burst_size).
Proof.
  unfold Footprint.test_suite.
  repeat (apply Forall_cons_2;
          [unfold Footprint.accesses;
           cbn [Footprint.fp_run Footprint.fp_init Footprint.fp_term
                Footprint.optional];
           solve [footprint]|]).
  apply Forall_nil_2.
Qed.
End FootprintFacts.

(** C10.  With the burst size in 1..[MAX_BURST], as [parse_args] has
    checked, every index that an init, run or term function of the suite
    uses in a table of [gbl_args] is [i * burst_size + k] for some
    [i < REPEAT_COUNT] and [k < burst_size], so it is below
    [MAX_EVENTS = REPEAT_COUNT * MAX_BURST], the length of each table: no
    access is out of bounds.  This holds whatever the allocator returns. *)
Theorem table_accesses_in_bounds :
  forall (pool_t : Type) (em_alloc_multi : pool_t -> Z -> Z * pool_t)
         (fuel : nat) (pool : pool_t) (burst_size : Z)
         (bench : Footprint.bench_access) (a : Footprint.access) (idx : Z),
    1 <= burst_size <= MAX_BURST ->
    bench ∈ Footprint.test_suite em_alloc_multi fuel pool burst_size ->
    a ∈ Footprint.accesses bench ->
    Footprint.acc_off a <= idx < Footprint.acc_off a + Footprint.acc_len a ->
    (exists i k,
        idx = i * burst_size + k
        /\ 0 <= i < REPEAT_COUNT /\ 0 <= k < burst_size)
    /\ 0 <= idx < MAX_EVENTS
    /\ MAX_EVENTS = 1000 * 64.
Proof.
  intros pool_t em_alloc_multi fuel pool burst_size bench a idx Hburst
         Hbench Ha Hidx.
  pose proof (test_suite_in_range em_alloc_multi burst_size Hburst fuel pool)
    as Hsuite.
  rewrite Forall_forall in Hsuite. specialize (Hsuite bench Hbench).
  rewrite Forall_forall in Hsuite. specialize (Hsuite a Ha).
  destruct Hsuite as [Hoff Hend].
  assert (Hrange : 0 <= idx < REPEAT_COUNT * burst_size) by lia.
  split; [|split; [|reflexivity]].
  - exists (idx / burst_size), (idx mod burst_size).
    split; [|split].
    + rewrite Z.mul_comm. apply Z.div_mod. lia.
    + split; [apply Z.div_pos; lia|].
      apply Z.div_lt_upper_bound; lia.
    + apply Z.mod_pos_bound. lia.
  - unfold MAX_EVENTS, REPEAT_COUNT, MAX_BURST in *. nia.
Qed.

Lemma table_accesses_in_bounds_witness :
  (exists i k,
      63999 = i * 64 + k /\ 0 <= i < REPEAT_COUNT /\ 0 <= k < 64)
  /\ 0 <= 63999 < MAX_EVENTS
  /\ MAX_EVENTS = 1000 * 64.
Proof.
  apply (table_accesses_in_bounds
           unit Footprint.alloc_all 10 tt 64
           (Footprint.BENCH_INFO
              (Footprint.event_sw_alloc_multi 64) None
              (Some (Footprint.free_events_multi 64)) 0
              (Some "em_event_alloc_multi(sw)"))
           (Footprint.span Footprint.event_tbl (999 * 64) 64) 63999).
  - unfold MAX_BURST. lia.
  - unfold Footprint.test_suite. do 3 apply list_elem_of_further.
    apply list_elem_of_here.
  - unfold Footprint.accesses. cbn [Footprint.fp_run Footprint.fp_init
                                    Footprint.fp_term Footprint.optional].
    rewrite app_nil_l. apply elem_of_app. left.
    unfold Footprint.event_sw_alloc_multi, Footprint.event_alloc_multi,
      Footprint.for_loop.
    apply list_elem_of_In, in_concat. eexists. split.
    + apply in_map_iff. exists 999. split; [reflexivity|].
      apply list_elem_of_In, elem_of_seqZ. unfold REPEAT_COUNT. lia.
    + left. reflexivity.
  - simpl. lia.
Defined.

(** * Further properties *)

(** ** Allocation of test events: every allocator *)

Section ProvisionerMore.
Context {pool_t : Type}.
Variable em_alloc_multi : pool_t -> Z -> Z * pool_t.

Lemma returned_snoc (calls : list alloc_call) (c : alloc_call) :
  returned (calls ++ [c]) = returned calls + call_ret c.
Proof.
  unfold returned. induction calls as [|c' calls IH]; simpl; [lia|].
  rewrite IH. lia.
Qed.

(** The retry counter counts the empty returns at the end of the calls
    made so far; an abort is caused by a negative return or by the
    counter passing [MAX_RETRY]. *)
Lemma alloc_loop_abort_cause (fuel : nat) :
  forall (num num_events num_retries : Z) (p : pool_t)
         (calls : list alloc_call) (p' : pool_t) (out : list alloc_call),
    0 <= num_retries <= MAX_RETRY ->
    (exists pre zs,
        calls = pre ++ zs /\ Z.of_nat (length zs) = num_retries
        /\ Forall (fun c => call_ret c = 0) zs) ->
    alloc_loop em_alloc_multi fuel num num_events num_retries p calls
    = AllocAbort p' out ->
    (exists pre c, out = pre ++ [c] /\ call_ret c < 0)
    \/ (exists pre zs,
           out = pre ++ zs /\ Z.of_nat (length zs) = MAX_RETRY + 1
           /\ Forall (fun c => call_ret c = 0) zs).
Proof.
  induction fuel as [|fuel IH]; intros num ne r p calls p' out Hr Hinv;
    cbn [alloc_loop]; [discriminate|].
  destruct (ne <? num); [|discriminate].
  destruct (em_alloc_multi p (num - ne)) as [ret p1].
  destruct Hinv as (pre & zs & -> & Hlen & Hzs).
  destruct (Z.ltb_spec ret 1) as [Hlt1 | Hge1].
  - destruct (Z.ltb_spec ret 0) as [Hneg | Hnn]; simpl orb; cbv iota.
    + intros Heq. injection Heq as _ <-. left. eauto.
    + assert (Hret : ret = 0) by lia. subst ret.
      destruct (Z.gtb_spec (r + 1) MAX_RETRY) as [Hover | Hunder].
      * intros Heq. injection Heq as _ <-. right.
        exists pre, (zs ++ [AllocCall ne (num - ne) 0]).
        rewrite app_assoc, length_app. simpl.
        repeat split; [lia|]. apply Forall_app_2; [exact Hzs|].
        repeat constructor.
      * apply IH; [lia|].
        exists pre, (zs ++ [AllocCall ne (num - ne) 0]).
        rewrite app_assoc, length_app. simpl.
        repeat split; [lia|]. apply Forall_app_2; [exact Hzs|].
        repeat constructor.
  - apply IH; [unfold MAX_RETRY; lia|].
    exists ((pre ++ zs) ++ [AllocCall ne (num - ne) ret]), [].
    rewrite app_nil_r. repeat split. constructor.
Qed.

(** No call is made after a negative return. *)
Lemma alloc_loop_negative_last (fuel : nat) :
  forall (num num_events num_retries : Z) (p : pool_t)
         (calls : list alloc_call),
    Forall (fun c => 0 <= call_ret c) calls ->
    match alloc_loop em_alloc_multi fuel num num_events num_retries p
                     calls with
    | AllocDone _ _ out => Forall (fun c => 0 <= call_ret c) out
    | AllocFuel out => Forall (fun c => 0 <= call_ret c) out
    | AllocAbort _ out =>
      exists pre c, out = pre ++ [c] /\ Forall (fun c => 0 <= call_ret c) pre
    end.
Proof.
  induction fuel as [|fuel IH]; intros num ne r p calls Hcalls;
    cbn [alloc_loop]; [exact Hcalls|].
  destruct (ne <? num); [|exact Hcalls].
  destruct (em_alloc_multi p (num - ne)) as [ret p1].
  destruct (Z.ltb_spec ret 1) as [Hlt1 | Hge1].
  - destruct (Z.ltb_spec ret 0) as [Hneg | Hnn]; simpl orb; cbv iota;
      [eauto|].
    destruct (r + 1 >? MAX_RETRY); [eauto|].
    apply IH. apply Forall_app_2; [exact Hcalls|].
    repeat constructor. simpl. lia.
  - apply IH. apply Forall_app_2; [exact Hcalls|].
    repeat constructor. simpl. lia.
Qed.

(** The loop ends: every call either hands out an event or brings the
    retry counter closer to its ceiling. *)
Lemma alloc_loop_terminates (fuel : nat) :
  forall (num num_events num_retries : Z) (p : pool_t)
         (calls : list alloc_call),
    0 <= num_retries <= MAX_RETRY ->
    (Z.to_nat ((num - num_events) * (MAX_RETRY + 1) - num_retries) < fuel)%nat ->
    match alloc_loop em_alloc_multi fuel num num_events num_retries p
                     calls with
    | AllocDone n _ _ => num <= n
    | AllocAbort _ _ => True
    | AllocFuel _ => False
    end.
Proof.
  induction fuel as [|fuel IH]; intros num ne r p calls Hr Hfuel; [lia|].
  cbn [alloc_loop].
  destruct (Z.ltb_spec ne num) as [Hlt | Hge]; [|lia].
  destruct (em_alloc_multi p (num - ne)) as [ret p1].
  destruct (Z.ltb_spec ret 1) as [Hlt1 | Hge1].
  - destruct (ret <? 0); simpl orb; cbv iota; [exact I|].
    destruct (Z.gtb_spec (r + 1) MAX_RETRY) as [Hover | Hunder];
      [exact I|].
    apply IH; [lia|]. unfold MAX_RETRY in *. nia.
  - apply IH; [unfold MAX_RETRY; lia|]. unfold MAX_RETRY in *. nia.
Qed.

(** With an allocator that never returns more than it was asked for, the
    events handed out so far are [num_events], and never more than
    [num]. *)
Lemma alloc_loop_exact (fuel : nat) :
  (forall p k, fst (em_alloc_multi p k) <= k) ->
  forall (num num_events num_retries : Z) (p : pool_t)
         (calls : list alloc_call) (n : Z) (p' : pool_t)
         (out : list alloc_call),
    num_events <= num ->
    returned calls = num_events ->
    alloc_loop em_alloc_multi fuel num num_events num_retries p calls
    = AllocDone n p' out ->
    n = num /\ returned out = num.
Proof.
  intros Hcontract.
  induction fuel as [|fuel IH]; intros num ne r p calls n p' out Hle Hsum;
    cbn [alloc_loop]; [discriminate|].
  destruct (Z.ltb_spec ne num) as [Hlt | Hge].
  - pose proof (Hcontract p (num - ne)) as Hret.
    destruct (em_alloc_multi p (num - ne)) as [ret p1]. simpl in Hret.
    destruct (Z.ltb_spec ret 1) as [Hlt1 | Hge1].
    + destruct (Z.ltb_spec ret 0) as [Hneg | Hnn]; simpl orb; cbv iota;
        [discriminate|].
      destruct (r + 1 >? MAX_RETRY); [discriminate|].
      apply IH; [lia|]. rewrite returned_snoc. simpl. lia.
    + apply IH; [lia|]. rewrite returned_snoc. simpl. lia.
  - intros Heq. injection Heq as <- _ <-. split; lia.
Qed.
End ProvisionerMore.

(** X1.  When [allocate_test_events] aborts, the last call of the allocator
    returned a negative value, or the last [MAX_RETRY + 1] calls all
    returned 0: empty returns that are interrupted by a non-empty one never
    add up to an abort. *)
Theorem allocate_abort_cause :
  forall (pool_t : Type) (em_alloc_multi : pool_t -> Z -> Z * pool_t)
         (fuel : nat) (p : pool_t) (num : Z) (p' : pool_t)
         (calls : list alloc_call),
    allocate_test_events em_alloc_multi fuel p num = AllocAbort p' calls ->
    (exists pre c, calls = pre ++ [c] /\ call_ret c < 0)
    \/ (exists pre zs,
           calls = pre ++ zs /\ Z.of_nat (length zs) = MAX_RETRY + 1
           /\ Forall (fun c => call_ret c = 0) zs).
Proof.
  intros pool_t em_alloc_multi fuel p num p' calls Heq.
  unfold allocate_test_events in Heq.
  eapply alloc_loop_abort_cause; [| |exact Heq].
  - unfold MAX_RETRY. lia.
  - exists [], []. repeat split. constructor.
Qed.

Lemma allocate_abort_cause_witness :
  (exists pre c,
      [AllocCall 0 5 3; AllocCall 3 2 (-1)] = pre ++ [c] /\ call_ret c < 0)
  \/ (exists pre zs,
         [AllocCall 0 5 3; AllocCall 3 2 (-1)] = pre ++ zs
         /\ Z.of_nat (length zs) = MAX_RETRY + 1
         /\ Forall (fun c => call_ret c = 0) zs).
Proof.
  apply (allocate_abort_cause
           bool (fun (first : bool) k => (if first then 3 else -1, false))
           5 true 5 false [AllocCall 0 5 3; AllocCall 3 2 (-1)]).
  reflexivity.
Defined.

(** X2.  A negative return of the allocator ends [allocate_test_events] on
    the spot, whatever the retry counter holds: the call that returned it is
    the last one and the outcome is an abort. *)
Theorem allocate_negative_return_aborts :
  forall (pool_t : Type) (em_alloc_multi : pool_t -> Z -> Z * pool_t)
         (fuel : nat) (p : pool_t) (num : Z)
         (pre post : list alloc_call) (c : alloc_call),
    alloc_calls (allocate_test_events em_alloc_multi fuel p num)
    = pre ++ c :: post ->
    call_ret c < 0 ->
    post = []
    /\ exists p',
        allocate_test_events em_alloc_multi fuel p num
        = AllocAbort p' (pre ++ [c]).
Proof.
  intros pool_t em_alloc_multi fuel p num pre post c Hcalls Hneg.
  unfold allocate_test_events in *.
  pose proof (alloc_loop_negative_last em_alloc_multi fuel num 0 0 p []
                                       (Forall_nil_2 _)) as Hlast.
  assert (Hnot : forall out,
             Forall (fun c => 0 <= call_ret c) out ->
             out <> pre ++ c :: post).
  { intros out Hall ->. apply Forall_app in Hall. destruct Hall as [_ Hall].
    apply Forall_cons in Hall. lia. }
  destruct (alloc_loop em_alloc_multi fuel num 0 0 p []) as [n q out|q out|out];
    simpl in Hcalls.
  - exfalso. exact (Hnot out Hlast Hcalls).
  - destruct Hlast as (pre' & c' & -> & Hpre').
    destruct post as [|x post _] using rev_ind.
    + apply app_inj_tail in Hcalls. destruct Hcalls as [-> ->]. eauto.
    + exfalso.
      change (pre ++ c :: post ++ [x]) with (pre ++ (c :: post) ++ [x])
        in Hcalls.
      rewrite app_assoc in Hcalls.
      apply app_inj_tail in Hcalls. destruct Hcalls as [-> _].
      apply Forall_app in Hpre'. destruct Hpre' as [_ Hall].
      apply Forall_cons in Hall. lia.
  - exfalso. exact (Hnot out Hlast Hcalls).
Qed.

Lemma allocate_negative_return_aborts_witness :
  @nil alloc_call = []
  /\ exists p',
      allocate_test_events
        (fun (first : bool) k => (if first then 3 else -1, false)) 5 true 5
      = AllocAbort p' ([AllocCall 0 5 3] ++ [AllocCall 3 2 (-1)]).
Proof.
  apply (allocate_negative_return_aborts
           bool (fun (first : bool) k => (if first then 3 else -1, false))
           5 true 5 [AllocCall 0 5 3] [] (AllocCall 3 2 (-1))).
  - reflexivity.
  - simpl. lia.
Defined.

(** X3.  [allocate_test_events] ends for every allocator: after at most
    [num * (MAX_RETRY + 1)] calls it has either aborted or collected at
    least [num] events. *)
Theorem allocate_terminates :
  forall (pool_t : Type) (em_alloc_multi : pool_t -> Z -> Z * pool_t)
         (fuel : nat) (p : pool_t) (num : Z),
    (Z.to_nat (num * (MAX_RETRY + 1)) < fuel)%nat ->
    (exists n p' calls,
        allocate_test_events em_alloc_multi fuel p num = AllocDone n p' calls
        /\ num <= n)
    \/ (exists p' calls,
           allocate_test_events em_alloc_multi fuel p num
           = AllocAbort p' calls).
Proof.
  intros pool_t em_alloc_multi fuel p num Hfuel.
  unfold allocate_test_events.
  pose proof (alloc_loop_terminates em_alloc_multi fuel num 0 0 p []) as H.
  destruct (alloc_loop em_alloc_multi fuel num 0 0 p []) as [n q out|q out|out].
  - left. exists n, q, out. split; [reflexivity|].
    apply H; [unfold MAX_RETRY; lia|].
    replace ((num - 0) * (MAX_RETRY + 1) - 0) with (num * (MAX_RETRY + 1))
      by lia. exact Hfuel.
  - right. eauto.
  - exfalso. apply H; [unfold MAX_RETRY; lia|].
    replace ((num - 0) * (MAX_RETRY + 1) - 0) with (num * (MAX_RETRY + 1))
      by lia. exact Hfuel.
Qed.

Lemma allocate_terminates_witness :
  (exists n p' calls,
      allocate_test_events alloc_none (Z.to_nat 5126) tt 5
      = AllocDone n p' calls /\ 5 <= n)
  \/ (exists p' calls,
         allocate_test_events alloc_none (Z.to_nat 5126) tt 5
         = AllocAbort p' calls).
Proof.
  apply (allocate_terminates unit alloc_none (Z.to_nat 5126) tt 5).
  unfold MAX_RETRY. lia.
Defined.

(** X4.  With an allocator that never returns more than it is asked for,
    a completed [allocate_test_events] has collected exactly [num] events,
    and the values returned by the calls add up to [num]. *)
Theorem allocate_exact :
  forall (pool_t : Type) (em_alloc_multi : pool_t -> Z -> Z * pool_t)
         (fuel : nat) (p : pool_t) (num n : Z) (p' : pool_t)
         (calls : list alloc_call),
    (forall q k, fst (em_alloc_multi q k) <= k) ->
    0 <= num ->
    allocate_test_events em_alloc_multi fuel p num = AllocDone n p' calls ->
    n = num /\ returned calls = num.
Proof.
  intros pool_t em_alloc_multi fuel p num n p' calls Hcontract Hnum Heq.
  unfold allocate_test_events in Heq.
  eapply alloc_loop_exact; [exact Hcontract | | | exact Heq];
    [lia | reflexivity].
Qed.

Lemma allocate_exact_witness :
  5 = 5 /\ returned [AllocCall 0 5 5] = 5.
Proof.
  apply (allocate_exact
           unit Footprint.alloc_all 10 tt 5 5 tt [AllocCall 0 5 5]).
  - intros q k. simpl. lia.
  - lia.
  - reflexivity.
Defined.

(** ** The benchmark loop: what it never does *)

Section LoopInvariants.
Context {world : Type}.
Variable P : platform world.
Variable bench_tbl : list (bench_info_t world).
Variable o : opt_t.

Lemma result_lines_app (l1 l2 : list event) :
  result_lines (l1 ++ l2) = result_lines l1 ++ result_lines l2.
Proof. unfold result_lines. apply omap_app. Qed.

Lemma result_lines_call_log (f : option (world -> option world))
      (e : event) :
  is_result e = false -> result_lines (call_log f e) = [].
Proof.
  intros He. destruct f; simpl; [|reflexivity].
  destruct e; try discriminate; reflexivity.
Qed.

Lemma indef_loop_silent (idx : Z) (bench : bench_info_t world)
      (fuel : nat) :
  forall (w : world) (log : list event),
    match indef_loop P fuel idx bench w log with
    | IndefReturn _ log' => result_lines log' = result_lines log
    | IndefAbort _ log' => result_lines log' = result_lines log
    | IndefTestAbort log' => result_lines log' = result_lines log
    | IndefFuel => True
    end.
Proof.
  induction fuel as [|fuel IH]; intros w log; cbn [indef_loop]; [exact I|].
  destruct (exit_thread P w =? 0); [|reflexivity].
  assert (Hinit : forall f,
             result_lines
               (log ++ call_log (init bench) (CallInit idx)
                    ++ [Aborted f idx])
             = result_lines log).
  { intros f.
    rewrite !result_lines_app, !result_lines_call_log by reflexivity.
    simpl. rewrite app_nil_r. reflexivity. }
  destruct (call_opt (init bench) w) as [w1|]; [|apply Hinit].
  destruct (run bench w1) as [[ret w2]|]; [|apply Hinit].
  assert (Hlog : result_lines
                   (log ++ call_log (init bench) (CallInit idx)
                        ++ [CallRun idx ret]
                        ++ call_log (term bench) (CallTerm idx))
                 = result_lines log).
  { rewrite !result_lines_app, !result_lines_call_log by reflexivity.
    simpl. rewrite app_nil_r. reflexivity. }
  destruct (call_opt (term bench) w2) as [w3|].
  2:{ rewrite result_lines_app, Hlog. simpl. apply app_nil_r. }
  destruct (ret =? 0).
  - rewrite result_lines_app, Hlog. simpl. apply app_nil_r.
  - specialize (IH w3
                   (log ++ call_log (init bench) (CallInit idx)
                        ++ [CallRun idx ret]
                        ++ call_log (term bench) (CallTerm idx))).
    destruct (indef_loop P fuel idx bench _ _); try exact I;
      rewrite IH; exact Hlog.
Qed.

(** Pass 0 prints no result line, however it ends. *)
Lemma bench_loop_warm_up_silent (fuel : nat) :
  forall (s : loop_state world) (log' : list event),
    loop_log (bench_loop P bench_tbl o fuel 0 s) = Some log' ->
    result_lines log' = result_lines (ls_log s).
Proof.
  induction fuel as [|fuel IH]; intros s log'; cbn [bench_loop];
    [discriminate|].
  destruct ((ls_j s <? num_bench bench_tbl)
            && (exit_thread P (ls_world s) =? 0));
    [|intros H; injection H as <-; reflexivity].
  destruct (bench_tbl !! Z.to_nat (ls_j s)) as [bench|]; [|discriminate].
  destruct (negb (opt_bench_idx o =? 0)).
  - destruct (negb (ls_j s + 1 =? opt_bench_idx o)).
    + intros H. apply IH in H. exact H.
    + unfold run_indef.
      pose proof (indef_loop_silent (ls_j s) bench fuel (ls_world s)
                    (ls_log s ++ [PrintIndef (bench_desc bench)])) as Hi.
      destruct (indef_loop P fuel (ls_j s) bench _ _); [| | |discriminate];
        intros H; injection H as <-; cbn [ls_log]; rewrite Hi;
        rewrite result_lines_app; simpl; apply app_nil_r.
  - assert (Hinit : forall f,
               result_lines
                 (ls_log s ++ call_log (init bench) (CallInit (ls_j s))
                        ++ [Aborted f (ls_j s)])
               = result_lines (ls_log s)).
    { intros f.
      rewrite !result_lines_app, !result_lines_call_log by reflexivity.
      simpl. rewrite app_nil_r. reflexivity. }
    destruct (call_opt (init bench) (ls_world s)) as [w1|];
      [|intros H; injection H as <-; apply Hinit].
    destruct (run bench w1) as [[ret w2]|];
      [|intros H; injection H as <-; apply Hinit].
    assert (Hlog1 : result_lines
                      (ls_log s
                         ++ call_log (init bench) (CallInit (ls_j s))
                         ++ [CallRun (ls_j s) ret])
                    = result_lines (ls_log s)).
    { rewrite !result_lines_app, result_lines_call_log by reflexivity.
      simpl. rewrite app_nil_r. reflexivity. }
    assert (Hlog2 : result_lines
                      ((ls_log s
                          ++ call_log (init bench) (CallInit (ls_j s))
                          ++ [CallRun (ls_j s) ret])
                         ++ call_log (term bench) (CallTerm (ls_j s)))
                    = result_lines (ls_log s)).
    { rewrite result_lines_app, Hlog1, result_lines_call_log by reflexivity.
      apply app_nil_r. }
    destruct (ret =? 0).
    + intros H. injection H as <-. cbn [ls_log].
      rewrite result_lines_app, Hlog1. simpl. apply app_nil_r.
    + destruct (call_opt (term bench) w2) as [w3|].
      2:{ intros H. injection H as <-.
          rewrite result_lines_app, Hlog2. simpl. apply app_nil_r. }
      change (0 >? 0) with false. cbv iota.
      destruct (ls_round s >=? round_limit o bench);
        intros H; apply IH in H; rewrite H; exact Hlog2.
Qed.

(** The table of cases is never indexed outside its bounds. *)
Lemma bench_loop_index_in_bounds (fuel : nat) :
  forall (i : Z) (s : loop_state world),
    0 <= ls_j s ->
    bench_loop P bench_tbl o fuel i s <> LoopBadIndex.
Proof.
  induction fuel as [|fuel IH]; intros i s Hj; cbn [bench_loop];
    [discriminate|].
  destruct (Z.ltb_spec (ls_j s) (num_bench bench_tbl)) as [Hlt | Hge];
    simpl andb; cbv iota; [|discriminate].
  destruct (exit_thread P (ls_world s) =? 0); [|discriminate].
  destruct (lookup_lt_is_Some_2 bench_tbl (Z.to_nat (ls_j s)))
    as [bench Hb]; [unfold num_bench in Hlt; lia|].
  rewrite Hb.
  destruct (negb (opt_bench_idx o =? 0)).
  - destruct (negb (ls_j s + 1 =? opt_bench_idx o)).
    + apply IH. simpl. lia.
    + destruct (run_indef P fuel (ls_j s) bench (ls_world s) (ls_log s));
        discriminate.
  - destruct (call_opt (init bench) (ls_world s)) as [w1|];
      [|discriminate].
    destruct (run bench w1) as [[ret w2]|]; [|discriminate].
    destruct (ret =? 0); [discriminate|].
    destruct (call_opt (term bench) w2) as [w3|]; [|discriminate].
    destruct (ls_round s >=? round_limit o bench); apply IH; simpl; lia.
Qed.
End LoopInvariants.

(** X5.  The flag set before the loop starts: in normal and in indefinite
    mode alike [run_benchmarks] prints the header, calls no test function,
    prints no result line (nor "Running ... indefinitely"), leaves
    [bench_failed] alone and returns 0. *)
Theorem cancelled_before_start :
  forall (world : Type) (P : platform world)
         (bench_tbl : list (bench_info_t world)) (o : opt_t)
         (fuel : nat) (failed : Z) (w0 : world),
    worker_setup_ok P o w0 ->
    exit_thread P (worker_start P o w0) <> 0 ->
    fuel <> O ->
    exists w tail,
      run_benchmarks P bench_tbl o fuel failed w0
      = WorkerReturn 0 failed w ([PrintHeader (opt_time o)] ++ tail)
      /\ (tail = [] \/ tail = [Err "EM core terminate failed"]).
Proof.
  intros world P bench_tbl o fuel failed w0 [Hinit Hpools] Hset Hfuel.
  unfold run_benchmarks, worker_start in *.
  destruct (em_init_core P w0) as [ok w1]. simpl in Hinit, Hpools, Hset.
  subst ok. simpl negb. cbv iota.
  destruct (create_pools P o w1) as [[r w2] elog]. simpl in Hpools, Hset.
  subst r. simpl negb. cbv iota.
  destruct fuel as [|fuel]; [contradiction|].
  apply Z.eqb_neq in Hset.
  cbn [bench_loop ls_j ls_world]. rewrite Hset, andb_false_r.
  cbn [ls_failed ls_world ls_log bench_loop ls_j].
  rewrite Hset, andb_false_r.
  destruct (worker_exit_log P 0
              (LoopState 0 1 0 failed w2 [PrintHeader (opt_time o)]))
    as (w & tail & Heq & Htail).
  exists w, tail. split; [exact Heq | exact Htail].
Qed.

Lemma cancelled_before_start_witness :
  exists w tail,
    run_benchmarks (tick_platform 0) two_cases (demo_opt 3 2) 5 0 0
    = WorkerReturn 0 0 w ([PrintHeader (opt_time (demo_opt 3 2))] ++ tail)
    /\ (tail = [] \/ tail = [Err "EM core terminate failed"]).
Proof.
  apply (cancelled_before_start Z (tick_platform 0) two_cases (demo_opt 3 2)
                                5 0 0).
  - split; reflexivity.
  - discriminate.
  - discriminate.
Defined.

(** X6.  [args->bench[j]] is never read outside the table: whatever the
    options, the table and the test functions, the process does not end in
    an out-of-bounds index. *)
Theorem bench_table_index_in_bounds :
  forall (world : Type) (P : platform world) (fuel : nat) (boot : boot_t)
         (bench_tbl : list (bench_info_t world)) (argv : list cli_opt)
         (w0 : world),
    main P fuel boot bench_tbl argv w0 <> ProcessBadIndex.
Proof.
  intros world P fuel boot bench_tbl argv w0.
  assert (Hworker : forall o failed,
             run_benchmarks P bench_tbl o fuel failed w0 <> WorkerBadIndex).
  { intros o failed. unfold run_benchmarks.
    destruct (em_init_core P w0) as [[] w1]; simpl negb; cbv iota;
      [|discriminate].
    destruct (create_pools P o w1) as [[r w2] elog].
    destruct (r =? 0); simpl negb; cbv iota; [|discriminate].
    pose proof (bench_loop_index_in_bounds P bench_tbl o fuel 0
                  (LoopState 0 1 0 failed w2 [PrintHeader (opt_time o)])
                  ltac:(simpl; lia)) as H0.
    destruct (bench_loop P bench_tbl o fuel 0 _) as [s0|s0|w' l'|l'| |];
      try discriminate; try contradiction.
    - pose proof (bench_loop_index_in_bounds P bench_tbl o fuel 1
                    (LoopState 0 1 0 (ls_failed s0) (ls_world s0)
                               (ls_log s0)) ltac:(simpl; lia)) as H1.
      destruct (bench_loop P bench_tbl o fuel 1 _) as [s1|s1|w' l'|l'| |];
        try discriminate; try contradiction;
        destruct (worker_exit_log P 0 s1) as (w & tail & -> & _);
        discriminate.
    - destruct (worker_exit_log P 0 s0) as (w & tail & -> & _). discriminate.
  }
  unfold main, main_exit.
  repeat match goal with
         | |- context [negb (?field boot)] =>
           destruct (field boot); simpl negb; cbv iota; try discriminate
         end;
    destruct (parse_args (num_bench bench_tbl) argv) as [ret o log|st log];
    try discriminate;
    destruct (ret =? 0); simpl negb; cbv iota;
    try (destruct (ret <? 0); discriminate);
    specialize (Hworker o 0);
    destruct (run_benchmarks P bench_tbl o fuel 0 w0)
      as [r failed w wlog|w wlog|wlog| |];
    try discriminate; try contradiction;
    destruct (failed <? 0); discriminate.
Qed.

(** X7.  In normal mode, with a valid command line and the calls of the
    control thread succeeding, the process ends, whatever the test
    functions do and whenever the flag is set.  Either it exits, and its
    status is [EXIT_FAILURE] exactly when some [run] returned 0 and
    [EXIT_SUCCESS] otherwise; or a test function has ended it through
    ODPH_ABORT, in which case there is no exit status and no [run] had
    returned 0. *)
Theorem exit_status_reflects_failed_run :
  forall (world : Type) (P : platform world) (boot : boot_t)
         (bench_tbl : list (bench_info_t world)) (argv : list cli_opt)
         (w0 : world) (o : opt_t) (plog : list event) (fuel : nat),
    boot_ok boot ->
    teardown_ok boot ->
    parse_args (num_bench bench_tbl) argv = ParseReturn 0 o plog ->
    opt_bench_idx o = 0 ->
    (pass_fuel o 1 bench_tbl < fuel)%nat ->
    (exists status log,
        main P fuel boot bench_tbl argv w0 = ProcessExit status log
        /\ (status = EXIT_FAILURE \/ status = EXIT_SUCCESS)
        /\ (status = EXIT_FAILURE
            <-> Exists (fun e => zero_run e = true) log))
    \/ (exists pre f j,
           main P fuel boot bench_tbl argv w0
           = ProcessAbort (pre ++ [Aborted f j])
           /\ ~ Exists (fun e => zero_run e = true) pre).
Proof.
  intros world P boot bench_tbl argv w0 o plog fuel Hboot Hdown Hparse
         Hnormal Hfuel.
  destruct (parse_args_valid _ _ _ _ Hparse) as (_ & Hrounds & _).
  rewrite (main_accepted P boot bench_tbl argv w0 o plog Hboot Hparse).
  destruct (create_queues_ok boot).
  - pose proof (run_benchmarks_outcome P bench_tbl o fuel w0 Hnormal) as Hout.
    destruct (run_benchmarks_normal_ends P bench_tbl o fuel 0 w0 Hnormal
                ltac:(lia) Hfuel)
      as [(ret & failed & w & wlog & Hrun) | (wlog & f & j & Hrun)];
      rewrite Hrun in *.
    + left.
      destruct (main_exit_status boot true failed ([PrintInfo] ++ wlog) Hdown)
        as (tail & -> & Htail).
      eexists. eexists. split; [reflexivity|].
      rewrite (exists_zero_run_framed wlog tail Htail).
      destruct Hout as [[-> Hnone] | (_ & -> & pre & j & t & -> & Hpre & Ht)].
      * simpl Z.ltb. cbv iota. split; [auto|]. split; [discriminate|].
        intros H. contradiction.
      * simpl Z.ltb. cbv iota. split; [auto|]. split; [|reflexivity].
        intros _. apply Exists_app. right. constructor. reflexivity.
    + right. destruct Hout as (pre & f' & j' & Hlog & Hpre).
      exists ([PrintInfo] ++ pre), f', j'. rewrite Hlog, <- app_assoc.
      split; [reflexivity|]. simpl. intros H. apply Exists_cons in H.
      destruct H as [H | H]; [discriminate | exact (Hpre H)].
  - left.
    destruct (main_exit_status boot false 0
                ([PrintInfo] ++ [Err "EM unscheduled queue create failed"])
                Hdown) as (tail & -> & Htail).
    eexists. eexists. split; [reflexivity|].
    simpl Z.ltb. cbv iota. split; [auto|]. split; [discriminate|].
    intros H. exfalso.
    change (([PrintInfo] ++ [Err "EM unscheduled queue create failed"])
              ++ tail)
      with ([PrintInfo; Err "EM unscheduled queue create failed"] ++ tail)
      in H.
    apply Exists_app in H. destruct H as [H | H].
    + apply Exists_cons in H. destruct H as [H | H]; [discriminate|].
      apply Exists_cons in H. destruct H as [H | H]; [discriminate|].
      inversion H.
    + exact (errors_no_zero_run tail Htail H).
Qed.

Lemma exit_status_reflects_failed_run_witness :
  (exists status log,
      main (tick_platform (-1)) 10 boot_all_ok
           [tick_case "a" 1000; starved_case "d" 4] [OptRounds 3] 0
      = ProcessExit status log
      /\ (status = EXIT_FAILURE \/ status = EXIT_SUCCESS)
      /\ (status = EXIT_FAILURE
          <-> Exists (fun e => zero_run e = true) log))
  \/ (exists pre f j,
         main (tick_platform (-1)) 10 boot_all_ok
              [tick_case "a" 1000; starved_case "d" 4] [OptRounds 3] 0
         = ProcessAbort (pre ++ [Aborted f j])
         /\ ~ Exists (fun e => zero_run e = true) pre).
Proof.
  apply (exit_status_reflects_failed_run
           Z (tick_platform (-1)) boot_all_ok
           [tick_case "a" 1000; starved_case "d" 4] [OptRounds 3] 0
           (demo_opt 3 0) [] 10).
  - repeat split.
  - repeat split.
  - reflexivity.
  - reflexivity.
  - vm_compute. lia.
Defined.

(** The two ways the run of a table can end before its time: the [init] of
    the second case ends the process in its second round; the [run] of the
    second case returns 0. *)
Example starved_init_aborts :
  main (tick_platform (-1)) 10 boot_all_ok
       [tick_case "a" 1000; starved_case "d" 4] [OptRounds 3] 0
  = ProcessAbort
      [PrintInfo; PrintHeader 0;
       CallRun 0 1000; CallRun 0 1000; CallRun 0 1000;
       CallInit 1; CallRun 1 1000; CallInit 1; Aborted FnInit 1]
  /\ main (tick_platform (-1)) 10 boot_all_ok
          [tick_case "a" 1000; tick_case "b" 0] [OptRounds 3] 0
     = ProcessExit EXIT_FAILURE
         [PrintInfo; PrintHeader 0;
          CallRun 0 1000; CallRun 0 1000; CallRun 0 1000;
          CallRun 1 0; Err "Benchmark failed"].
Proof. split; reflexivity. Qed.

(** X8.  In normal mode a [run] that returns 0 is the last call the worker
    makes: the log ends with that call and the error message, followed at
    most by the error of [em_term_core].  [term] is not called for the
    failing round, no earlier [run] returned 0, [bench_failed] is -1, and
    the value [run_benchmarks] itself returns is still 0. *)
Theorem failed_run_is_last_call :
  forall (world : Type) (P : platform world)
         (bench_tbl : list (bench_info_t world)) (o : opt_t)
         (fuel : nat) (w0 : world) (ret failed : Z) (w : world)
         (log : list event),
    opt_bench_idx o = 0 ->
    run_benchmarks P bench_tbl o fuel 0 w0 = WorkerReturn ret failed w log ->
    Exists (fun e => zero_run e = true) log ->
    ret = 0 /\ failed = -1
    /\ exists pre j tail,
        log = pre ++ [CallRun j 0; Err "Benchmark failed"] ++ tail
        /\ ~ Exists (fun e => zero_run e = true) pre
        /\ (tail = [] \/ tail = [Err "EM core terminate failed"]).
Proof.
  intros world P bench_tbl o fuel w0 ret failed w log Hnormal Hrun Hzero.
  pose proof (run_benchmarks_outcome P bench_tbl o fuel w0 Hnormal) as Hout.
  rewrite Hrun in Hout.
  destruct Hout as [[_ Hnone] | (Hret & Hf & Hlog)]; [contradiction|].
  auto.
Qed.

Lemma failed_run_is_last_call_witness :
  0 = 0 /\ -1 = -1
  /\ exists pre j tail,
      [PrintHeader 0; CallRun 0 1000; CallRun 0 1000; CallRun 0 1000;
       CallRun 1 0; Err "Benchmark failed"]
      = pre ++ [CallRun j 0; Err "Benchmark failed"] ++ tail
      /\ ~ Exists (fun e => zero_run e = true) pre
      /\ (tail = [] \/ tail = [Err "EM core terminate failed"]).
Proof.
  apply (failed_run_is_last_call
           Z (tick_platform (-1)) [tick_case "a" 1000; tick_case "b" 0]
           (demo_opt 3 0) 10 0 0 (-1) 4
           [PrintHeader 0; CallRun 0 1000; CallRun 0 1000; CallRun 0 1000;
            CallRun 1 0; Err "Benchmark failed"]).
  - reflexivity.
  - reflexivity.
  - do 4 apply Exists_cons_tl. apply Exists_cons_hd. reflexivity.
Defined.

(** X9.  The warm-up pass prints no result line, however it ends: complete,
    cancelled, left after a failed [run], or in indefinite mode. *)
Theorem warm_up_never_prints :
  forall (world : Type) (P : platform world)
         (bench_tbl : list (bench_info_t world)) (o : opt_t)
         (fuel : nat) (s : loop_state world) (log' : list event),
    loop_log (bench_loop P bench_tbl o fuel 0 s) = Some log' ->
    result_lines log' = result_lines (ls_log s).
Proof.
  intros world P bench_tbl o fuel s log'.
  apply bench_loop_warm_up_silent.
Qed.

Lemma warm_up_never_prints_witness :
  result_lines [PrintHeader 0; CallRun 0 1000; CallRun 0 1000]
  = result_lines (ls_log (LoopState 0 1 0 0 0 [PrintHeader 0])).
Proof.
  apply (warm_up_never_prints
           Z (tick_platform 2) two_cases (demo_opt 3 0) 10
           (LoopState 0 1 0 0 0 [PrintHeader 0])
           [PrintHeader 0; CallRun 0 1000; CallRun 0 1000]).
  reflexivity.
Defined.

(** ** The indefinite mode: what is called *)

Section IndefInvariants.
Context {world : Type}.
Variable P : platform world.
Variable bench_tbl : list (bench_info_t world).
Variable o : opt_t.

Lemma only_case_call_log (j j' : Z) (f : option (world -> option world))
      (e : event) :
  only_case j e -> Forall (only_case j) (call_log f e).
Proof. intros He. destruct f; simpl; repeat constructor. exact He. Qed.

Lemma indef_loop_only_case (idx : Z) (bench : bench_info_t world)
      (fuel : nat) :
  forall (w : world) (log : list event),
    Forall (only_case idx) log ->
    match indef_loop P fuel idx bench w log with
    | IndefReturn _ log' => Forall (only_case idx) log'
    | IndefAbort _ log' => Forall (only_case idx) log'
    | IndefTestAbort log' => Forall (only_case idx) log'
    | IndefFuel => True
    end.
Proof.
  induction fuel as [|fuel IH]; intros w log Hlog; cbn [indef_loop];
    [exact I|].
  destruct (exit_thread P w =? 0); [|exact Hlog].
  assert (Hinit : forall f,
             Forall (only_case idx)
                    (log ++ call_log (init bench) (CallInit idx)
                         ++ [Aborted f idx])).
  { intros f. repeat apply Forall_app_2; try exact Hlog;
      try (apply (only_case_call_log idx idx); reflexivity).
    repeat constructor. }
  destruct (call_opt (init bench) w) as [w1|]; [|apply Hinit].
  destruct (run bench w1) as [[ret w2]|]; [|apply Hinit].
  assert (Hlog' : Forall (only_case idx)
                         (log ++ call_log (init bench) (CallInit idx)
                              ++ [CallRun idx ret]
                              ++ call_log (term bench) (CallTerm idx))).
  { repeat apply Forall_app_2; try exact Hlog;
      try (apply (only_case_call_log idx idx); reflexivity).
    repeat constructor. }
  destruct (call_opt (term bench) w2) as [w3|];
    [|apply Forall_app_2; [exact Hlog' | repeat constructor]].
  destruct (ret =? 0).
  - apply Forall_app_2; [exact Hlog'|]. repeat constructor.
  - apply IH. exact Hlog'.
Qed.

Lemma bench_loop_only_case (fuel : nat) :
  opt_bench_idx o <> 0 ->
  forall (i : Z) (s : loop_state world) (log' : list event),
    Forall (only_case (opt_bench_idx o - 1)) (ls_log s) ->
    loop_log (bench_loop P bench_tbl o fuel i s) = Some log' ->
    Forall (only_case (opt_bench_idx o - 1)) log'.
Proof.
  intros Hidx. apply Z.eqb_neq in Hidx.
  induction fuel as [|fuel IH]; intros i s log' Hlog; cbn [bench_loop];
    [discriminate|].
  destruct ((ls_j s <? num_bench bench_tbl)
            && (exit_thread P (ls_world s) =? 0));
    [|intros H; injection H as <-; exact Hlog].
  destruct (bench_tbl !! Z.to_nat (ls_j s)) as [bench|]; [|discriminate].
  rewrite Hidx. simpl negb. cbv iota.
  destruct (Z.eqb_spec (ls_j s + 1) (opt_bench_idx o)) as [Hj | Hj];
    simpl negb; cbv iota.
  - unfold run_indef.
    pose proof (indef_loop_only_case (ls_j s) bench fuel (ls_world s)
                  (ls_log s ++ [PrintIndef (bench_desc bench)])) as Hi.
    replace (opt_bench_idx o - 1) with (ls_j s) in * by lia.
    specialize (Hi ltac:(apply Forall_app_2;
                          [exact Hlog | repeat constructor])).
    destruct (indef_loop P fuel (ls_j s) bench _ _); [| | |discriminate];
      intros H; injection H as <-; exact Hi.
  - apply IH. exact Hlog.
Qed.

(** [k] cycles that go through, then a cycle whose [run] returns 0: the
    process is aborted after the [term] of that cycle. *)
Lemma indef_loop_abort (idx : Z) (bench : bench_info_t world) (k : nat) :
  forall (w : world) (log : list event) (fuel : nat) (c : cycle_t world),
    rounds_ok P bench k w = true ->
    exit_thread P (rounds_world bench k w) = 0 ->
    cycle bench (rounds_world bench k w) = Some c ->
    run_ret c = 0 ->
    (k < fuel)%nat ->
    indef_loop P fuel idx bench w log
    = IndefAbort (after_term c)
                 (log ++ rounds_log idx bench (S k) w
                      ++ [Err "Benchmark failed"]).
Proof.
  induction k as [|k IH]; intros w log fuel c Hok Hclear Hc Hzero Hfuel;
    (destruct fuel as [|fuel]; [lia|]).
  - cbn [rounds_world] in Hclear, Hc. cbn [indef_loop].
    destruct (cycle_calls bench w c Hc) as (Hinit & Hrun & Hterm).
    rewrite Hclear, Z.eqb_refl, Hinit, Hrun, Hterm, Hzero. simpl Z.eqb.
    cbv iota. cbn [rounds_log]. rewrite round_log_calls.
    unfold round_ret. rewrite Hc, Hzero, app_nil_r, <- !app_assoc.
    reflexivity.
  - apply rounds_ok_S in Hok. destruct Hok as [Hok Hrest].
    rewrite (indef_loop_round P idx bench w log fuel Hok).
    rewrite (IH _ _ fuel c Hrest Hclear Hc Hzero) by lia.
    cbn [rounds_log]. rewrite <- !app_assoc. reflexivity.
Qed.
End IndefInvariants.

(** X10.  With a case selected ([-i idx]), the worker calls the init, run
    and term functions of that case only and prints no result line,
    however it ends. *)
Theorem indefinite_mode_runs_selected_case_only :
  forall (world : Type) (P : platform world)
         (bench_tbl : list (bench_info_t world)) (o : opt_t)
         (fuel : nat) (failed : Z) (w0 : world),
    opt_bench_idx o <> 0 ->
    Forall (only_case (opt_bench_idx o - 1))
           (worker_log (run_benchmarks P bench_tbl o fuel failed w0)).
Proof.
  intros world P bench_tbl o fuel failed w0 Hidx.
  assert (Herr : forall l,
             Forall (fun e => exists msg, e = Err msg) l ->
             Forall (only_case (opt_bench_idx o - 1)) l).
  { intros l Hl. eapply Forall_impl; [exact Hl|].
    intros e [msg ->]. exact I. }
  assert (Hexit : forall s,
             Forall (only_case (opt_bench_idx o - 1)) (ls_log s) ->
             Forall (only_case (opt_bench_idx o - 1))
                    (worker_log (worker_exit P 0 s))).
  { intros s Hs. destruct (worker_exit_log P 0 s) as (w & tail & -> & Htail).
    simpl. apply Forall_app_2; [exact Hs|].
    destruct Htail as [-> | ->]; repeat constructor. }
  unfold run_benchmarks.
  destruct (em_init_core P w0) as [[] w1]; simpl negb; cbv iota;
    [|repeat constructor].
  pose proof (create_pools_log P o w1) as Hpools.
  destruct (create_pools P o w1) as [[r w2] elog]. simpl in Hpools.
  destruct (r =? 0); simpl negb; cbv iota; [|apply Herr; exact Hpools].
  pose proof (bench_loop_only_case P bench_tbl o fuel Hidx 0
                (LoopState 0 1 0 failed w2 [PrintHeader (opt_time o)])) as H0.
  cbn [ls_log] in H0.
  destruct (bench_loop P bench_tbl o fuel 0 _) as [s0|s0|w log|log| |];
    try (simpl; constructor).
  - specialize (H0 (ls_log s0) ltac:(repeat constructor) eq_refl).
    pose proof (bench_loop_only_case P bench_tbl o fuel Hidx 1
                  (LoopState 0 1 0 (ls_failed s0) (ls_world s0) (ls_log s0)))
      as H1.
    cbn [ls_log] in H1.
    destruct (bench_loop P bench_tbl o fuel 1 _) as [s1|s1|w log|log| |];
      try (simpl; constructor).
    + apply Hexit. apply (H1 _ H0 eq_refl).
    + apply Hexit. apply (H1 _ H0 eq_refl).
    + simpl. apply (H1 _ H0 eq_refl).
    + simpl. apply (H1 _ H0 eq_refl).
  - apply Hexit. apply (H0 _ ltac:(repeat constructor) eq_refl).
  - simpl. apply (H0 _ ltac:(repeat constructor) eq_refl).
  - simpl. apply (H0 _ ltac:(repeat constructor) eq_refl).
Qed.

Lemma indefinite_mode_runs_selected_case_only_witness :
  Forall (only_case (opt_bench_idx (demo_opt 3 2) - 1))
         (worker_log
            (run_benchmarks (tick_platform 4) two_cases (demo_opt 3 2) 10 0
                            0)).
Proof.
  apply (indefinite_mode_runs_selected_case_only
           Z (tick_platform 4) two_cases (demo_opt 3 2) 10 0 0).
  discriminate.
Defined.

(** X11.  In indefinite mode a [run] that returns 0 aborts the process, and
    it does so after the [term] of that cycle has been called: after [k]
    cycles that go through and one more whose [run] returns 0, the process
    is aborted in the world the [term] of that last cycle leaves, [k + 1]
    init-run-term cycles having been made. *)
Theorem indefinite_failure_aborts_after_term :
  forall (world : Type) (P : platform world) (idx : Z)
         (bench : bench_info_t world) (w : world) (log : list event)
         (k fuel : nat) (c : cycle_t world),
    rounds_ok P bench k w = true ->
    exit_thread P (rounds_world bench k w) = 0 ->
    cycle bench (rounds_world bench k w) = Some c ->
    run_ret c = 0 ->
    (k < fuel)%nat ->
    run_indef P fuel idx bench w log
    = IndefAbort (after_term c)
                 (log ++ [PrintIndef (bench_desc bench)]
                      ++ rounds_log idx bench (S k) w
                      ++ [Err "Benchmark failed"]).
Proof.
  intros world P idx bench w log k fuel c Hok Hclear Hc Hzero Hfuel.
  unfold run_indef.
  rewrite (indef_loop_abort P idx bench k _ _ fuel c) by assumption.
  rewrite <- app_assoc. reflexivity.
Qed.

Lemma indefinite_failure_aborts_after_term_witness :
  run_indef (tick_platform (-1)) 3 1
            (marked_case "c" (fun w => if w <? 200 then 1000 else 0)) 0 []
  = IndefAbort 222
      [PrintIndef "c";
       CallInit 1; CallRun 1 1000; CallTerm 1;
       CallInit 1; CallRun 1 0; CallTerm 1;
       Err "Benchmark failed"].
Proof.
  apply (indefinite_failure_aborts_after_term
           Z (tick_platform (-1)) 1
           (marked_case "c" (fun w => if w <? 200 then 1000 else 0))
           0 [] 1 3 (Cycle 211 0 212 222)).
  - reflexivity.
  - reflexivity.
  - reflexivity.
  - reflexivity.
  - lia.
Defined.

(** ** How often a case is run *)

(** X12.  In a normal run in which every round the two passes make goes
    through (the flag is clear whenever it is polled, the test functions
    return and no [run] fails), the [run]
    function of the first case of the table is called [2 * limit] times
    (warm-up and measured pass), where [limit] is the round limit of the
    case, and the [run] function of every later case
    [2 * max 1 (limit - 1)] times: a later case is entered with the round
    counter at 2. *)
Theorem runs_per_case :
  forall (world : Type) (P : platform world)
         (bench_tbl : list (bench_info_t world)) (o : opt_t)
         (w0 : world) (failed : Z) (fuel : nat) (k : nat)
         (bench : bench_info_t world),
    opt_bench_idx o = 0 -> 1 <= opt_rounds o < 2 ^ 32 ->
    worker_setup_ok P o w0 ->
    run_ok P o bench_tbl (worker_start P o w0) = true ->
    (pass_fuel o 1 bench_tbl < fuel)%nat ->
    bench_tbl !! k = Some bench ->
    0 <= max_rounds bench ->
    Z.of_nat (runs_of (Z.of_nat k)
                      (worker_log
                         (run_benchmarks P bench_tbl o fuel failed w0)))
    = 2 * match k with
          | O => round_limit o bench
          | S _ => Z.max 1 (round_limit o bench - 1)
          end.
Proof.
  intros world P bench_tbl o w0 failed fuel k bench Hnormal Hrounds Hsetup
         Hok Hfuel Hk Hmax.
  rewrite (run_benchmarks_normal P bench_tbl o fuel failed w0)
    by (try assumption; lia).
  cbn [worker_log]. rewrite !runs_of_app.
  pose proof (runs_of_pass_spec P o 0 bench_tbl 0 1
                (worker_start P o w0) k bench Hk) as H0.
  pose proof (runs_of_pass_spec P o 1 bench_tbl 0 1
                (fst (pass_spec P o 0 0 1 bench_tbl (worker_start P o w0)))
                k bench Hk) as H1.
  rewrite Z.add_0_l in H0, H1. rewrite H0, H1.
  assert (Hhead : runs_of (Z.of_nat k) [PrintHeader (opt_time o)] = O)
    by reflexivity.
  assert (Htail : runs_of (Z.of_nat k)
                          (if fst (em_term_core P
                                     (fst (pass_spec P o 1 0 1 bench_tbl
                                             (fst (pass_spec P o 0 0 1
                                                     bench_tbl
                                                     (worker_start P o w0))))))
                           then [] else [Err "EM core terminate failed"])
                  = O)
    by (destruct (fst (em_term_core P _)); reflexivity).
  rewrite Hhead, Htail.
  assert (Hlimit : 1 <= round_limit o bench).
  { rewrite round_limit_min. destruct (Z.eqb_spec (max_rounds bench) 0); lia. }
  destruct k as [|k].
  - pose proof (rounds_run_first_case _ Hlimit). lia.
  - pose proof (rounds_run_later_case (round_limit o bench)). lia.
Qed.

Lemma runs_per_case_witness :
  Z.of_nat (runs_of (Z.of_nat 1)
                    (worker_log
                       (run_benchmarks (tick_platform (-1)) mixed_cases
                                       (demo_opt 3 0) 10 0 0)))
  = 2 * Z.max 1 (round_limit (demo_opt 3 0) (tick_case "b" 1000) - 1).
Proof.
  apply (runs_per_case Z (tick_platform (-1)) mixed_cases (demo_opt 3 0) 0 0
                       10 1 (tick_case "b" 1000)).
  - reflexivity.
  - simpl. lia.
  - split; reflexivity.
  - reflexivity.
  - vm_compute. lia.
  - reflexivity.
  - simpl. lia.
Defined.

(** ** The command line and the exit status: errors and edge cases *)

Lemma getopt_loop_stop (pre post : list cli_opt) :
  Forall plain_opt pre ->
  forall o,
    (exists o',
        getopt_loop (pre ++ OptHelp :: post) o = inr (1, o', [PrintUsage]))
    /\ (exists o',
           getopt_loop (pre ++ OptBad :: post) o
           = inr (-1, o', [Err "Bad option. Use -h for help."])).
Proof.
  intros Hpre. induction Hpre as [|b pre [Hh Hb] _ IH]; intros o.
  - split; eexists; reflexivity.
  - destruct b; simpl; try apply IH; congruence.
Qed.

Lemma errors_not_output (l : list event) :
  Forall (fun e => exists msg, e = Err msg) l ->
  Forall (fun e => is_output e = false) l.
Proof.
  intros Hl. eapply Forall_impl; [exact Hl|]. intros e [msg ->]. reflexivity.
Qed.

Lemma main_exit_negative (boot : boot_t) (queue : bool) (ret : Z)
      (log : list event) :
  ret < 0 ->
  exists tail,
    main_exit boot queue ret log = ProcessExit EXIT_FAILURE (log ++ tail)
    /\ Forall (fun e => exists msg, e = Err msg) tail.
Proof.
  intros Hret. apply Z.ltb_lt in Hret. unfold main_exit. rewrite Hret.
  destruct (odp_shm_free_ok boot), (odp_term_local_ok boot),
    (odp_term_global_ok boot); simpl negb; cbv iota;
    rewrite <- ?app_assoc; (eexists; split; [reflexivity|]);
    destruct queue, (em_queue_delete_ok boot),
      (main_em_term_core_ok boot), (em_term_ok boot);
    repeat constructor; eauto.
Qed.

(** X13.  A round count of 0 and a case index outside 0..[num_bench] are
    rejected like this: [parse_args] returns -1, [main] goes through its
    teardown and exits with [EXIT_FAILURE]; neither [print_info] nor the
    header is printed and no test function is called.  This holds whatever
    the calls of the control thread return. *)
Theorem invalid_rounds_or_index_is_rejected :
  forall (world : Type) (P : platform world) (fuel : nat) (boot : boot_t)
         (bench_tbl : list (bench_info_t world)) (argv : list cli_opt)
         (w0 : world) (o : opt_t),
    getopt_loop argv default_opt = inl o ->
    1 <= opt_burst_size o <= MAX_BURST ->
    opt_rounds o < 1 \/ opt_bench_idx o < 0
    \/ num_bench bench_tbl < opt_bench_idx o ->
    exists log,
      main P fuel boot bench_tbl argv w0 = ProcessExit EXIT_FAILURE log
      /\ Forall (fun e => exists msg, e = Err msg) log.
Proof.
  intros world P fuel boot bench_tbl argv w0 o Hloop Hburst Hbad.
  unfold main.
  repeat match goal with
         | |- context [negb (?field boot)] =>
           destruct (field boot); simpl negb; cbv iota;
             [|eexists; split; [reflexivity | repeat constructor; eauto]]
         end.
  unfold parse_args. rewrite Hloop.
  replace ((opt_burst_size o <? 1) || (opt_burst_size o >? MAX_BURST))
    with false
    by (symmetry; apply orb_false_iff; split;
        [apply Z.ltb_ge | rewrite Z.gtb_ltb; apply Z.ltb_ge]; lia).
  assert (Hexit : forall msg,
             exists log,
               main_exit boot false (-1) [Err msg]
               = ProcessExit EXIT_FAILURE log
               /\ Forall (fun e => exists msg, e = Err msg) log).
  { intros msg.
    destruct (main_exit_negative boot false (-1) [Err msg] ltac:(lia))
      as (tail & -> & Htail).
    eexists. split; [reflexivity|]. constructor; eauto. }
  destruct (Z.ltb_spec (opt_rounds o) 1) as [Hr | Hr].
  - simpl negb. cbv iota. apply Hexit.
  - replace ((opt_bench_idx o <? 0)
             || (opt_bench_idx o >? num_bench bench_tbl)) with true.
    + simpl negb. cbv iota. apply Hexit.
    + symmetry. apply orb_true_iff.
      destruct Hbad as [Hb | [Hb | Hb]]; [lia | left | right].
      * apply Z.ltb_lt. exact Hb.
      * apply Z.gtb_lt. exact Hb.
Qed.

Lemma invalid_rounds_or_index_is_rejected_witness :
  exists log,
    main (tick_platform (-1)) 10 boot_all_ok two_cases [OptIndex 3] 0
    = ProcessExit EXIT_FAILURE log
    /\ Forall (fun e => exists msg, e = Err msg) log.
Proof.
  apply (invalid_rounds_or_index_is_rejected
           Z (tick_platform (-1)) 10 boot_all_ok two_cases [OptIndex 3] 0
           (demo_opt ROUNDS 3)).
  - reflexivity.
  - unfold demo_opt, MAX_BURST, BURST_SIZE. simpl. lia.
  - right. right. unfold num_bench, two_cases. simpl. lia.
Defined.

(** X14.  The first [-h] or unknown option ends the option loop before
    anything is checked, also when a value given before it is invalid:
    after [-h] the usage is printed and, the control thread's calls
    succeeding, the process exits with [EXIT_SUCCESS]; after an unknown
    option it exits with [EXIT_FAILURE].  No test function is called in
    either case. *)
Theorem help_or_bad_option_ends_parsing :
  forall (world : Type) (P : platform world) (fuel : nat) (boot : boot_t)
         (bench_tbl : list (bench_info_t world))
         (pre post : list cli_opt) (w0 : world),
    Forall plain_opt pre ->
    boot_ok boot ->
    teardown_ok boot ->
    (exists tail,
        main P fuel boot bench_tbl (pre ++ OptHelp :: post) w0
        = ProcessExit EXIT_SUCCESS ([PrintUsage] ++ tail)
        /\ Forall (fun e => exists msg, e = Err msg) tail)
    /\ (exists log,
           main P fuel boot bench_tbl (pre ++ OptBad :: post) w0
           = ProcessExit EXIT_FAILURE log
           /\ Forall (fun e => exists msg, e = Err msg) log).
Proof.
  intros world P fuel boot bench_tbl pre post w0 Hpre Hboot Hdown.
  destruct Hboot as (H1 & H2 & H3 & H4 & H5 & H6 & H7 & H8 & H9).
  unfold main, parse_args.
  rewrite H1, H2, H3, H4, H5, H6, H7, H8, H9.
  destruct (getopt_loop_stop pre post Hpre default_opt)
    as [[o1 ->] [o2 ->]].
  simpl negb. cbv iota. split.
  - destruct (main_exit_status boot false 1 [PrintUsage] Hdown)
      as (tail & -> & Htail).
    eauto.
  - destruct (main_exit_negative boot false (-1)
                [Err "Bad option. Use -h for help."] ltac:(lia))
      as (tail & -> & Htail).
    eexists. split; [reflexivity|]. constructor; eauto.
Qed.

Lemma help_or_bad_option_ends_parsing_witness :
  (exists tail,
      main (tick_platform (-1)) 10 boot_all_ok two_cases
           ([OptBurst 65] ++ OptHelp :: [OptRounds 0]) 0
      = ProcessExit EXIT_SUCCESS ([PrintUsage] ++ tail)
      /\ Forall (fun e => exists msg, e = Err msg) tail)
  /\ (exists log,
         main (tick_platform (-1)) 10 boot_all_ok two_cases
              ([OptBurst 65] ++ OptBad :: [OptRounds 0]) 0
         = ProcessExit EXIT_FAILURE log
         /\ Forall (fun e => exists msg, e = Err msg) log).
Proof.
  apply (help_or_bad_option_ends_parsing
           Z (tick_platform (-1)) 10 boot_all_ok two_cases
           [OptBurst 65] [OptRounds 0] 0).
  - repeat constructor; discriminate.
  - repeat split.
  - repeat split.
Defined.

(** X15.  A negative round count is not rejected: [atoi] yields an [int],
    the assignment to the [uint32_t] field adds 2^32, and the check
    [rounds < 1] passes.  [-r -1] asks for 4294967295 rounds. *)
Theorem negative_rounds_are_accepted :
  forall (nbench n : Z),
    0 <= nbench ->
    - 2 ^ 31 <= n < 0 ->
    parse_args nbench [OptRounds n]
    = ParseReturn 0
        (Opt 0 0 BURST_SIZE EVENT_SIZE (2 ^ 32 + n) (-1) VECTOR_SIZE) [].
Proof.
  intros nbench n Hnb Hn. unfold parse_args. simpl getopt_loop.
  assert (Hu : u32 n = 2 ^ 32 + n).
  { unfold u32. symmetry. apply (Z.mod_unique_pos n (2 ^ 32) (-1)); lia. }
  rewrite Hu. cbn [opt_burst_size opt_rounds opt_bench_idx].
  change ((BURST_SIZE <? 1) || (BURST_SIZE >? MAX_BURST)) with false.
  cbv iota.
  replace (2 ^ 32 + n <? 1) with false by (symmetry; apply Z.ltb_ge; lia).
  replace ((0 <? 0) || (0 >? nbench)) with false
    by (symmetry; apply orb_false_iff; split;
        [reflexivity | rewrite Z.gtb_ltb; apply Z.ltb_ge; lia]).
  reflexivity.
Qed.

Lemma negative_rounds_are_accepted_witness :
  parse_args 73 [OptRounds (-1)]
  = ParseReturn 0
      (Opt 0 0 BURST_SIZE EVENT_SIZE (2 ^ 32 + -1) (-1) VECTOR_SIZE) [].
Proof.
  apply (negative_rounds_are_accepted 73 (-1)); lia.
Defined.

(** X16.  A failure of the set-up after the command line was accepted does
    not reach the exit status.  When [create_queues] fails in [main], or
    [em_init_core] or [create_pools] fails in the worker (whose return value
    of -1 [main] does not read), the process exits with [EXIT_SUCCESS],
    provided its teardown succeeds, without having printed the header or
    called a test function. *)
Theorem setup_failure_exits_with_success :
  forall (world : Type) (P : platform world) (fuel : nat) (boot : boot_t)
         (bench_tbl : list (bench_info_t world)) (argv : list cli_opt)
         (w0 : world) (o : opt_t) (plog : list event),
    boot_ok boot ->
    teardown_ok boot ->
    parse_args (num_bench bench_tbl) argv = ParseReturn 0 o plog ->
    create_queues_ok boot = false
    \/ fst (em_init_core P w0) = false
    \/ fst (fst (create_pools P o (snd (em_init_core P w0)))) <> 0 ->
    exists log,
      main P fuel boot bench_tbl argv w0 = ProcessExit EXIT_SUCCESS log
      /\ Forall (fun e => is_output e = false) log.
Proof.
  intros world P fuel boot bench_tbl argv w0 o plog Hboot Hdown Hparse Hfail.
  pose proof (parse_args_accept_log _ _ _ _ Hparse) as ->.
  destruct Hboot as (H1 & H2 & H3 & H4 & H5 & H6 & H7 & H8 & H9).
  unfold main. rewrite H1, H2, H3, H4, H5, H6, H7, H8, H9, Hparse.
  simpl negb. cbv iota.
  assert (Hdone : forall queue l,
             Forall (fun e => exists msg, e = Err msg) l ->
             exists log,
               main_exit boot queue 0 (([] ++ [PrintInfo]) ++ l)
               = ProcessExit EXIT_SUCCESS log
               /\ Forall (fun e => is_output e = false) log).
  { intros queue l Hl.
    destruct (main_exit_status boot queue 0 (([] ++ [PrintInfo]) ++ l) Hdown)
      as (tail & -> & Htail).
    eexists. split; [reflexivity|]. simpl. constructor; [reflexivity|].
    apply Forall_app_2; apply errors_not_output; assumption. }
  destruct (create_queues_ok boot) eqn:Hq; simpl negb; cbv iota.
  - destruct Hfail as [Hfail | Hfail]; [discriminate|].
    unfold run_benchmarks.
    destruct (em_init_core P w0) as [[] w1]; simpl negb; cbv iota;
      simpl in Hfail.
    + destruct Hfail as [Hfail | Hfail]; [discriminate|].
      pose proof (create_pools_log P o w1) as Hpools.
      destruct (create_pools P o w1) as [[r w2] elog].
      simpl in Hfail, Hpools. apply Z.eqb_neq in Hfail. rewrite Hfail.
      simpl negb. cbv iota. apply Hdone. exact Hpools.
    + apply Hdone. repeat constructor. eauto.
  - apply Hdone. repeat constructor. eauto.
Qed.

Lemma setup_failure_exits_with_success_witness :
  exists log,
    main (pool_platform (fun nm => negb (String.eqb nm "packet_pool"))) 10
         boot_all_ok [] [OptRounds 3] []
    = ProcessExit EXIT_SUCCESS log
    /\ Forall (fun e => is_output e = false) log.
Proof.
  apply (setup_failure_exits_with_success
           (list (string * Z * Z))
           (pool_platform (fun nm => negb (String.eqb nm "packet_pool"))) 10
           boot_all_ok [] [OptRounds 3] [] (demo_opt 3 0) []).
  - repeat split.
  - repeat split.
  - reflexivity.
  - right. right. discriminate.
Defined.

(** ** Pools and queues *)

(** X17.  [create_pools] asks for the SW, the packet and the vector pool in
    this order, each with [max 2 burst_size * REPEAT_COUNT] events: enough
    for the *_multi() tests ([burst_size * REPEAT_COUNT]) and for the clone
    and reference tests ([2 * REPEAT_COUNT]).  It stops at the first pool
    that cannot be created and returns -1; it returns 0 exactly when all
    three were created. *)
Theorem create_pools_requests :
  forall (created : string -> bool) (o : opt_t) (w : list (string * Z * Z)),
    0 <= opt_burst_size o <= MAX_BURST ->
    exists (calls : list (string * Z * Z)) (num_events : Z),
      snd (fst (create_pools (pool_platform created) o w)) = w ++ calls
      /\ num_events = Z.max 2 (opt_burst_size o) * REPEAT_COUNT
      /\ opt_burst_size o * REPEAT_COUNT <= num_events
      /\ 2 * REPEAT_COUNT <= num_events
      /\ calls `prefix_of`
           [("sw_event_pool", opt_event_size o, num_events);
            ("packet_pool", opt_event_size o, num_events);
            ("vector_pool", opt_vector_size o, num_events)]
      /\ (forall pre c post,
             calls = pre ++ c :: post -> created (fst (fst c)) = false ->
             post = [])
      /\ (fst (fst (create_pools (pool_platform created) o w)) = 0
          <-> created "sw_event_pool" = true /\ created "packet_pool" = true
              /\ created "vector_pool" = true)
      /\ (fst (fst (create_pools (pool_platform created) o w)) = 0
          \/ fst (fst (create_pools (pool_platform created) o w)) = -1).
Proof.
  intros created o w Hburst.
  assert (Hnum : u32 (if opt_burst_size o <? 2 then 2 * REPEAT_COUNT
                      else opt_burst_size o * REPEAT_COUNT)
                 = Z.max 2 (opt_burst_size o) * REPEAT_COUNT).
  { unfold u32, REPEAT_COUNT, MAX_BURST in *.
    destruct (Z.ltb_spec (opt_burst_size o) 2);
      rewrite Z.mod_small; lia. }
  unfold create_pools. rewrite Hnum.
  set (n := Z.max 2 (opt_burst_size o) * REPEAT_COUNT).
  assert (Hn1 : opt_burst_size o * REPEAT_COUNT <= n)
    by (unfold n, REPEAT_COUNT; lia).
  assert (Hn2 : 2 * REPEAT_COUNT <= n) by (unfold n, REPEAT_COUNT; lia).
  cbn [em_pool_create pool_platform].
  destruct (created "sw_event_pool") eqn:Hsw; simpl negb; cbv iota;
    [destruct (created "packet_pool") eqn:Hpkt; simpl negb; cbv iota;
     [destruct (created "vector_pool") eqn:Hvec; simpl negb; cbv iota|]|];
    cbn [fst snd]; rewrite <- ?app_assoc; cbn [app];
    (eexists; exists n; split; [reflexivity|]);
    (split; [reflexivity|]); (split; [exact Hn1|]); (split; [exact Hn2|]).
  all: split;
    [first [ exists []; reflexivity
           | eexists [_]; reflexivity
           | eexists [_; _]; reflexivity ]|].
  all: split; [|split; [split; [try discriminate; auto | intros (? & ? & ?);
                                  try congruence; auto]
                      | auto]].
  all: intros pre c post Heq Hc;
    destruct pre as [|? [|? [|? [|? ?]]]]; simpl in Heq;
    try discriminate; injection Heq as; subst; simpl in Hc;
    try congruence; try reflexivity;
    try (destruct post; [reflexivity | discriminate]).
Qed.

Lemma create_pools_requests_witness :
  exists (calls : list (string * Z * Z)) (num_events : Z),
    snd (fst (create_pools
                (pool_platform (fun nm => negb (String.eqb nm "packet_pool")))
                (demo_opt 3 0) []))
    = [] ++ calls
    /\ num_events = Z.max 2 (opt_burst_size (demo_opt 3 0)) * REPEAT_COUNT
    /\ opt_burst_size (demo_opt 3 0) * REPEAT_COUNT <= num_events
    /\ 2 * REPEAT_COUNT <= num_events
    /\ calls `prefix_of`
         [("sw_event_pool", opt_event_size (demo_opt 3 0), num_events);
          ("packet_pool", opt_event_size (demo_opt 3 0), num_events);
          ("vector_pool", opt_vector_size (demo_opt 3 0), num_events)]
    /\ (forall pre c post,
           calls = pre ++ c :: post ->
           (fun nm => negb (String.eqb nm "packet_pool")) (fst (fst c))
           = false ->
           post = [])
    /\ (fst (fst (create_pools
                    (pool_platform
                       (fun nm => negb (String.eqb nm "packet_pool")))
                    (demo_opt 3 0) []))
        = 0
        <-> (fun nm => negb (String.eqb nm "packet_pool")) "sw_event_pool"
            = true
            /\ (fun nm => negb (String.eqb nm "packet_pool")) "packet_pool"
               = true
            /\ (fun nm => negb (String.eqb nm "packet_pool")) "vector_pool"
               = true)
    /\ (fst (fst (create_pools
                    (pool_platform
                       (fun nm => negb (String.eqb nm "packet_pool")))
                    (demo_opt 3 0) []))
        = 0
        \/ fst (fst (create_pools
                       (pool_platform
                          (fun nm => negb (String.eqb nm "packet_pool")))
                       (demo_opt 3 0) []))
           = -1).
Proof.
  apply (create_pools_requests
           (fun nm => negb (String.eqb nm "packet_pool")) (demo_opt 3 0) []).
  unfold demo_opt, BURST_SIZE, MAX_BURST. simpl. lia.
Defined.

Section QueueFacts.
Variable EM_QUEUE_UNDEF : Z.
Variable EM_EVENT_UNDEF : Z.

Lemma drain_loop_fifo (q : list Z) :
  forall (freed : list Z) (fuel : nat),
    Forall (valid_event EM_EVENT_UNDEF) q ->
    (length q < fuel)%nat ->
    drain_loop EM_EVENT_UNDEF (fifo_dequeue EM_EVENT_UNDEF) fuel q freed
    = DrainDone [] (freed ++ q).
Proof.
  induction q as [|ev q IH]; intros freed fuel Hq Hfuel;
    (destruct fuel as [|fuel]; [simpl in Hfuel; lia|]); cbn [drain_loop].
  - simpl. rewrite Z.eqb_refl. simpl. rewrite app_nil_r. reflexivity.
  - simpl fifo_dequeue. cbv beta iota.
    apply Forall_cons in Hq. destruct Hq as [Hev Hq].
    apply Z.eqb_neq in Hev. rewrite Hev. simpl negb. cbv iota.
    rewrite IH by (try assumption; simpl in Hfuel; lia).
    rewrite <- app_assoc. reflexivity.
Qed.
End QueueFacts.

(** X18.  [delete_queues] on a queue that holds its events in order: every
    queued event is dequeued and freed, in order of arrival, before the
    queue is deleted, also when the deletion then fails; on success the
    handle becomes [EM_QUEUE_UNDEF], on failure it is kept and -1 is
    returned.  With the handle [EM_QUEUE_UNDEF] (no queue, or a second call
    after a success) nothing is dequeued and -1 is returned. *)
Theorem delete_queues_drains_queue :
  forall (EM_QUEUE_UNDEF EM_EVENT_UNDEF : Z) (ok : bool)
         (unsched_queue : Z) (q : list Z) (fuel : nat),
    unsched_queue <> EM_QUEUE_UNDEF ->
    Forall (valid_event EM_EVENT_UNDEF) q ->
    (length q < fuel)%nat ->
    delete_queues EM_QUEUE_UNDEF EM_EVENT_UNDEF
                  (fifo_dequeue EM_EVENT_UNDEF) (fifo_delete ok)
                  fuel unsched_queue q
    = DeleteReturn (if ok then 0 else -1)
                   (if ok then EM_QUEUE_UNDEF else unsched_queue)
                   [] q
                   (if ok then [] else [Err "em_queue_delete() fails"])
    /\ delete_queues EM_QUEUE_UNDEF EM_EVENT_UNDEF
                     (fifo_dequeue EM_EVENT_UNDEF) (fifo_delete ok)
                     fuel EM_QUEUE_UNDEF q
       = DeleteReturn (-1) EM_QUEUE_UNDEF q [] [].
Proof.
  intros QU EU ok handle q fuel Hhandle Hq Hfuel. unfold delete_queues.
  apply Z.eqb_neq in Hhandle. rewrite Hhandle, Z.eqb_refl.
  split; [|reflexivity].
  rewrite drain_loop_fifo by assumption.
  destruct ok; reflexivity.
Qed.

Lemma delete_queues_drains_queue_witness :
  delete_queues 0 0 (fifo_dequeue 0) (fifo_delete true) 4 7 [11; 12; 13]
  = DeleteReturn (if true then 0 else -1) (if true then 0 else 7)
                 [] [11; 12; 13]
                 (if true then [] else [Err "em_queue_delete() fails"])
  /\ delete_queues 0 0 (fifo_dequeue 0) (fifo_delete true) 4 0 [11; 12; 13]
     = DeleteReturn (-1) 0 [11; 12; 13] [] [].
Proof.
  apply (delete_queues_drains_queue 0 0 true 7 [11; 12; 13] 4).
  - discriminate.
  - repeat constructor; discriminate.
  - simpl. lia.
Defined.

(** ** Initialization of test events *)

Section TestEventFacts.
Context {uarea_t : Type}.
Variable em_event_uarea_id_set : uarea_t -> Z -> Z -> bool * uarea_t.
Variable em_odp_event2odp : Z -> Z.

(** The table and the ids after [n] iterations from index [i] on, when
    every [em_event_uarea_id_set] succeeds. *)
Lemma init_test_events_loop_spec (n : nat) :
  (forall u ev id, fst (em_event_uarea_id_set u ev id) = true) ->
  forall (i : nat) (event odp_event_tbl : list Z) (u : uarea_t)
         (ids : list (Z * Z)),
    (i + n <= length event)%nat ->
    (i + n <= length odp_event_tbl)%nat ->
    exists u',
      init_test_events_loop em_event_uarea_id_set em_odp_event2odp n i
                            event odp_event_tbl u ids
      = InitDone
          (take i odp_event_tbl
             ++ map em_odp_event2odp (take n (drop i event))
             ++ drop (i + n) odp_event_tbl)
          u'
          (ids ++ imap (fun k ev => (ev, Z.of_nat (i + k)))
                       (take n (drop i event))).
Proof.
  intros Hok.
  induction n as [|n IH]; intros i event tbl u ids Hev Hodp;
    cbn [init_test_events_loop].
  - exists u. simpl. rewrite Nat.add_0_r, take_drop, app_nil_r.
    reflexivity.
  - destruct (lookup_lt_is_Some_2 event i) as [ev Hi]; [lia|].
    destruct (lookup_lt_is_Some_2 tbl i) as [old Ho]; [lia|].
    rewrite Hi, Ho.
    pose proof (Hok u ev (Z.of_nat i)) as Hset.
    destruct (em_event_uarea_id_set u ev (Z.of_nat i)) as [ok u1].
    simpl in Hset. subst ok. simpl negb. cbv iota.
    destruct (IH (S i) event (<[i := em_odp_event2odp ev]> tbl) u1
                 (ids ++ [(ev, Z.of_nat i)])) as [u' Heq];
      [lia | rewrite length_insert; lia |].
    exists u'. rewrite Heq. f_equal.
    + assert (Hu : <[i := em_odp_event2odp ev]> tbl !! i
                   = Some (em_odp_event2odp ev))
        by (apply list_lookup_insert_eq; lia).
      rewrite (take_S_r _ i _ Hu), take_insert_ge by lia.
      rewrite drop_insert_lt by lia.
      rewrite (drop_S event ev i Hi). simpl.
      rewrite <- app_assoc. simpl. rewrite Nat.add_succ_r. reflexivity.
    + rewrite (drop_S event ev i Hi). simpl.
      rewrite <- app_assoc. simpl. rewrite Nat.add_0_r.
      do 2 f_equal. apply imap_ext. intros k x _. simpl.
      do 2 f_equal. lia.
Qed.
End TestEventFacts.

(** X19.  [init_test_events(event, num)], when every user area id can be
    set: event [i] gets the id [i], for [i] from 0 to [num - 1] in this
    order, and [odp_event_tbl[i]] becomes the ODP handle of event [i]; the
    entries from [num] on are left as they were. *)
Theorem init_test_events_fills_table :
  forall (uarea_t : Type)
         (em_event_uarea_id_set : uarea_t -> Z -> Z -> bool * uarea_t)
         (em_odp_event2odp : Z -> Z)
         (event odp_event_tbl : list Z) (num : Z) (u : uarea_t),
    (forall u' ev id, fst (em_event_uarea_id_set u' ev id) = true) ->
    num <= Z.of_nat (length event) ->
    num <= Z.of_nat (length odp_event_tbl) ->
    exists u',
      init_test_events em_event_uarea_id_set em_odp_event2odp event
                       odp_event_tbl num u
      = InitDone
          (map em_odp_event2odp (take (Z.to_nat num) event)
             ++ drop (Z.to_nat num) odp_event_tbl)
          u'
          (imap (fun k ev => (ev, Z.of_nat k)) (take (Z.to_nat num) event)).
Proof.
  intros uarea_t set conv event tbl num u Hok Hev Hodp.
  unfold init_test_events.
  destruct (init_test_events_loop_spec set conv (Z.to_nat num) Hok 0 event
                                       tbl u []) as [u' Heq]; [lia | lia |].
  exists u'. rewrite Heq. simpl. rewrite drop_0. reflexivity.
Qed.

Lemma init_test_events_fills_table_witness :
  exists u',
    init_test_events (fun (u : unit) ev id => (true, u)) (fun ev => ev + 100)
                     [7; 8; 9] [0; 0; 0; 0] 2 tt
    = InitDone
        (map (fun ev => ev + 100) (take (Z.to_nat 2) [7; 8; 9])
           ++ drop (Z.to_nat 2) [0; 0; 0; 0])
        u'
        (imap (fun k ev => (ev, Z.of_nat k)) (take (Z.to_nat 2) [7; 8; 9])).
Proof.
  apply (init_test_events_fills_table
           unit (fun (u : unit) ev id => (true, u)) (fun ev => ev + 100)
           [7; 8; 9] [0; 0; 0; 0] 2 tt).
  - intros u' ev id. reflexivity.
  - simpl. lia.
  - simpl. lia.
Defined.

(** X20.  [init_test_events] aborts at the first event whose user area id
    cannot be set: the ODP handle of that event and of all later ones is
    not stored, and no further id is set. *)
Theorem init_test_events_aborts_at_first_failure :
  forall (uarea_t : Type)
         (em_event_uarea_id_set : uarea_t -> Z -> Z -> bool * uarea_t)
         (em_odp_event2odp : Z -> Z)
         (event odp_event_tbl : list Z) (num : Z) (u : uarea_t)
         (k : nat) (bad : Z),
    (Z.of_nat k < num) ->
    num <= Z.of_nat (length event) ->
    num <= Z.of_nat (length odp_event_tbl) ->
    event !! k = Some bad ->
    (forall u' i ev, (i < k)%nat -> event !! i = Some ev ->
                     fst (em_event_uarea_id_set u' ev (Z.of_nat i)) = true) ->
    (forall u', fst (em_event_uarea_id_set u' bad (Z.of_nat k)) = false) ->
    exists u',
      init_test_events em_event_uarea_id_set em_odp_event2odp event
                       odp_event_tbl num u
      = InitAbort
          (map em_odp_event2odp (take k event) ++ drop k odp_event_tbl)
          u'
          (imap (fun i ev => (ev, Z.of_nat i)) (take (S k) event)).
Proof.
  intros uarea_t set conv event tbl num u k bad Hk Hev Hodp Hbad Hgood Hfail.
  unfold init_test_events.
  assert (Hloop :
            forall (m i : nat) (n : nat) (tbl0 : list Z) (u0 : uarea_t)
                   (ids : list (Z * Z)),
              (i + m = k)%nat -> (m < n)%nat ->
              (i + n <= length event)%nat -> (i + n <= length tbl0)%nat ->
              exists u',
                init_test_events_loop set conv n i event tbl0 u0 ids
                = InitAbort
                    (take i tbl0 ++ map conv (take m (drop i event))
                          ++ drop (i + m) tbl0)
                    u'
                    (ids ++ imap (fun j ev => (ev, Z.of_nat (i + j)))
                                 (take (S m) (drop i event)))).
  { induction m as [|m IH]; intros i n tbl0 u0 ids Him Hmn Hlen Hlen0;
      (destruct n as [|n]; [lia|]); cbn [init_test_events_loop];
      (destruct (lookup_lt_is_Some_2 event i) as [ev Hi]; [lia|]);
      (destruct (lookup_lt_is_Some_2 tbl0 i) as [old Ho]; [lia|]);
      rewrite Hi, Ho.
    - assert (i = k) by lia. subst i.
      assert (ev = bad) by congruence. subst ev.
      pose proof (Hfail u0) as Hset.
      destruct (set u0 bad (Z.of_nat k)) as [ok u1]. simpl in Hset.
      subst ok. simpl negb. cbv iota. exists u1.
      rewrite (drop_S event bad k Hi). simpl.
      rewrite Nat.add_0_r, take_drop. reflexivity.
    - pose proof (Hgood u0 i ev ltac:(lia) Hi) as Hset.
      destruct (set u0 ev (Z.of_nat i)) as [ok u1]. simpl in Hset.
      subst ok. simpl negb. cbv iota.
      destruct (IH (S i) n (<[i := conv ev]> tbl0) u1
                   (ids ++ [(ev, Z.of_nat i)])) as [u' Heq];
        [lia | lia | lia | rewrite length_insert; lia |].
      exists u'. rewrite Heq. f_equal.
      + assert (Hu : <[i := conv ev]> tbl0 !! i = Some (conv ev))
          by (apply list_lookup_insert_eq; lia).
        rewrite (take_S_r _ i _ Hu), take_insert_ge by lia.
        rewrite drop_insert_lt by lia.
        rewrite (drop_S event ev i Hi). simpl.
        rewrite <- app_assoc. simpl. rewrite Nat.add_succ_r. reflexivity.
      + rewrite (drop_S event ev i Hi).
        change (take (S (S m)) (ev :: drop (S i) event))
          with (ev :: take (S m) (drop (S i) event)).
        simpl imap. rewrite <- app_assoc. simpl. rewrite Nat.add_0_r.
        do 2 f_equal. apply imap_ext. intros j x _. simpl.
        do 2 f_equal. lia. }
  destruct (Hloop k O (Z.to_nat num) tbl u []) as [u' Heq];
    [lia | lia | lia | lia |].
  exists u'. rewrite Heq. simpl. rewrite drop_0. reflexivity.
Qed.

Lemma init_test_events_aborts_at_first_failure_witness :
  exists u',
    init_test_events (fun (u : unit) ev id => (negb (ev =? 8), u))
                     (fun ev => ev + 100) [7; 8; 9] [0; 0; 0; 0] 3 tt
    = InitAbort
        (map (fun ev => ev + 100) (take 1 [7; 8; 9]) ++ drop 1 [0; 0; 0; 0])
        u'
        (imap (fun i ev => (ev, Z.of_nat i)) (take 2 [7; 8; 9])).
Proof.
  apply (init_test_events_aborts_at_first_failure
           unit (fun (u : unit) ev id => (negb (ev =? 8), u))
           (fun ev => ev + 100) [7; 8; 9] [0; 0; 0; 0] 3 tt 1%nat 8).
  - simpl. lia.
  - simpl. lia.
  - simpl. lia.
  - reflexivity.
  - intros u' i ev Hi Hev. destruct i as [|i]; [|lia].
    injection Hev as <-. reflexivity.
  - intros u'. reflexivity.
Defined.

(** ** The unscheduled queue tests on a first-in first-out queue *)

Section FifoFacts.
Variable EM_EVENT_UNDEF : Z.
Variable capacity : Z.

Lemma unsched_send_loop_fifo (n : nat) :
  forall (i : nat) (event_tbl q : list Z),
    (i + n <= length event_tbl)%nat ->
    Z.of_nat (length q) + Z.of_nat n <= capacity ->
    unsched_send_loop (fifo_send capacity) n i event_tbl q
    = Some (Z.of_nat (i + n), q ++ take n (drop i event_tbl)).
Proof.
  induction n as [|n IH]; intros i tbl q Hlen Hcap;
    cbn [unsched_send_loop].
  - rewrite Nat.add_0_r, take_0, app_nil_r. reflexivity.
  - destruct (lookup_lt_is_Some_2 tbl i) as [ev Hev]; [lia|].
    rewrite Hev. unfold fifo_send.
    destruct (Z.ltb_spec (Z.of_nat (length q)) capacity) as [_|Hge];
      [|lia].
    simpl negb. cbv iota.
    rewrite IH by (try rewrite length_app; simpl; lia).
    rewrite (drop_S tbl ev i Hev). simpl.
    rewrite <- app_assoc, Nat.add_succ_r. reflexivity.
Qed.

Lemma unsched_send_loop_full (k : nat) :
  forall (n i : nat) (event_tbl q : list Z),
    (k < n)%nat ->
    (i + n <= length event_tbl)%nat ->
    Z.of_nat (length q) + Z.of_nat k = capacity ->
    unsched_send_loop (fifo_send capacity) n i event_tbl q
    = Some (0, q ++ take k (drop i event_tbl)).
Proof.
  induction k as [|k IH]; intros n i tbl q Hk Hlen Hcap;
    (destruct n as [|n]; [lia|]); cbn [unsched_send_loop];
    (destruct (lookup_lt_is_Some_2 tbl i) as [ev Hev]; [lia|]);
    rewrite Hev; unfold fifo_send.
  - destruct (Z.ltb_spec (Z.of_nat (length q)) capacity) as [Hlt|_];
      [lia|].
    simpl. rewrite app_nil_r. reflexivity.
  - destruct (Z.ltb_spec (Z.of_nat (length q)) capacity) as [_|Hge];
      [|lia].
    simpl negb. cbv iota.
    rewrite IH by (try rewrite length_app; simpl; lia).
    rewrite (drop_S tbl ev i Hev). simpl.
    rewrite <- app_assoc. reflexivity.
Qed.

Lemma unsched_dequeue_loop_fifo (evs : list Z) :
  forall (n i : nat) (event_tbl rest : list Z),
    length evs = n ->
    (i + n <= length event_tbl)%nat ->
    Forall (valid_event EM_EVENT_UNDEF) evs ->
    unsched_dequeue_loop EM_EVENT_UNDEF (fifo_dequeue EM_EVENT_UNDEF) n i
                         event_tbl (evs ++ rest)
    = Some (Z.of_nat (i + n),
            take i event_tbl ++ evs ++ drop (i + n) event_tbl, rest).
Proof.
  induction evs as [|ev evs IH]; intros n i tbl rest Hn Hlen Hval;
    simpl in Hn; subst n; cbn [unsched_dequeue_loop].
  - rewrite Nat.add_0_r. simpl. rewrite take_drop. reflexivity.
  - destruct (lookup_lt_is_Some_2 tbl i) as [old Hold];
      [simpl in Hlen; lia|].
    rewrite Hold. simpl.
    apply Forall_cons_1 in Hval as [Hev Hval].
    destruct (Z.eqb_spec ev EM_EVENT_UNDEF) as [Heq|_];
      [exfalso; exact (Hev Heq)|].
    rewrite (IH (length evs) (S i) _ rest eq_refl)
      by (try rewrite length_insert; simpl in Hlen; try lia; exact Hval).
    assert (Hu : <[i := ev]> tbl !! i = Some ev)
      by (apply list_lookup_insert_eq; lia).
    rewrite (take_S_r _ i _ Hu), take_insert_ge by lia.
    rewrite drop_insert_lt by lia.
    rewrite <- app_assoc. simpl.
    rewrite Nat.add_succ_r. reflexivity.
Qed.

Lemma unsched_dequeue_loop_starved (evs : list Z) :
  forall (n i : nat) (event_tbl : list Z),
    (length evs < n)%nat ->
    (i + n <= length event_tbl)%nat ->
    Forall (valid_event EM_EVENT_UNDEF) evs ->
    unsched_dequeue_loop EM_EVENT_UNDEF (fifo_dequeue EM_EVENT_UNDEF) n i
                         event_tbl evs
    = Some (0,
            take i event_tbl ++ evs ++ EM_EVENT_UNDEF
                 :: drop (S (i + length evs)) event_tbl,
            []).
Proof.
  induction evs as [|ev evs IH]; intros n i tbl Hn Hlen Hval;
    simpl in Hn; (destruct n as [|n]; [lia|]);
    cbn [unsched_dequeue_loop];
    (destruct (lookup_lt_is_Some_2 tbl i) as [old Hold]; [lia|]);
    rewrite Hold; simpl.
  - rewrite Z.eqb_refl, Nat.add_0_r.
    rewrite <- (take_drop i (<[i := EM_EVENT_UNDEF]> tbl)) at 1.
    rewrite take_insert_ge by lia.
    assert (Hu : <[i := EM_EVENT_UNDEF]> tbl !! i = Some EM_EVENT_UNDEF)
      by (apply list_lookup_insert_eq; lia).
    rewrite (drop_S _ _ i Hu), drop_insert_lt by lia. reflexivity.
  - apply Forall_cons_1 in Hval as [Hev Hval].
    destruct (Z.eqb_spec ev EM_EVENT_UNDEF) as [Heq|_];
      [exfalso; exact (Hev Heq)|].
    rewrite (IH n (S i))
      by (try rewrite length_insert; try lia; exact Hval).
    assert (Hu : <[i := ev]> tbl !! i = Some ev)
      by (apply list_lookup_insert_eq; lia).
    rewrite (take_S_r _ i _ Hu), take_insert_ge by lia.
    rewrite drop_insert_lt by lia.
    rewrite <- app_assoc. simpl.
    rewrite Nat.add_succ_r. reflexivity.
Qed.

Lemma unsched_send_dequeue_loop_fifo (n : nat) :
  forall (i : nat) (event_tbl q : list Z),
    (i + n <= length event_tbl)%nat ->
    Z.of_nat (length q) < capacity ->
    Forall (valid_event EM_EVENT_UNDEF) q ->
    Forall (valid_event EM_EVENT_UNDEF) (take n (drop i event_tbl)) ->
    unsched_send_dequeue_loop EM_EVENT_UNDEF (fifo_send capacity)
                              (fifo_dequeue EM_EVENT_UNDEF) n i event_tbl q
    = Some (Z.of_nat (i + n),
            take i event_tbl ++ take n (q ++ drop i event_tbl)
                 ++ drop (i + n) event_tbl,
            drop n (q ++ take n (drop i event_tbl))).
Proof.
  induction n as [|n IH]; intros i tbl q Hlen Hcap Hq Htbl;
    cbn [unsched_send_dequeue_loop].
  - rewrite Nat.add_0_r, !take_0, drop_0, app_nil_r. simpl.
    rewrite take_drop. reflexivity.
  - destruct (lookup_lt_is_Some_2 tbl i) as [ev Hev]; [lia|].
    rewrite Hev. unfold fifo_send.
    destruct (Z.ltb_spec (Z.of_nat (length q)) capacity) as [_|Hge];
      [|lia].
    simpl negb. cbv iota.
    rewrite (drop_S tbl ev i Hev) in Htbl |- *.
    change (take (S n) (ev :: drop (S i) tbl))
      with (ev :: take n (drop (S i) tbl)) in Htbl |- *.
    apply Forall_cons_1 in Htbl as [Hvev Htbl].
    destruct q as [|h t]; cbn [app fifo_dequeue].
    + destruct (Z.eqb_spec ev EM_EVENT_UNDEF) as [Heq|_];
        [exfalso; exact (Hvev Heq)|].
      rewrite (IH (S i) _ [])
        by (try rewrite length_insert; try rewrite drop_insert_lt by lia;
            simpl; try lia; auto).
      assert (Hu : <[i := ev]> tbl !! i = Some ev)
        by (apply list_lookup_insert_eq; lia).
      rewrite (take_S_r _ i _ Hu), take_insert_ge by lia.
      rewrite !drop_insert_lt by lia.
      rewrite <- app_assoc. simpl.
      rewrite Nat.add_succ_r. reflexivity.
    + apply Forall_cons_1 in Hq as [Hvh Hq].
      destruct (Z.eqb_spec h EM_EVENT_UNDEF) as [Heq|_];
        [exfalso; exact (Hvh Heq)|].
      rewrite (IH (S i) _ (t ++ [ev])).
      * assert (Hu : <[i := h]> tbl !! i = Some h)
          by (apply list_lookup_insert_eq; lia).
        rewrite (take_S_r _ i _ Hu), take_insert_ge by lia.
        rewrite !drop_insert_lt by lia.
        rewrite <- !app_assoc. simpl.
        rewrite Nat.add_succ_r. reflexivity.
      * rewrite length_insert. lia.
      * rewrite length_app. simpl in Hcap |- *. lia.
      * apply Forall_app_2; [exact Hq|].
        apply Forall_cons_2; [exact Hvev | apply Forall_nil_2].
      * rewrite drop_insert_lt by lia. exact Htbl.
Qed.

Lemma event_alloc_loop_spec {pool_t : Type}
      (em_alloc : pool_t -> Z * pool_t) (n : nat) :
  forall (i : nat) (event_tbl : list Z) (p : pool_t),
    (i + n <= length event_tbl)%nat ->
    exists p',
      event_alloc_loop em_alloc n i event_tbl p
      = Some (Z.of_nat (i + n),
              take i event_tbl ++ allocated em_alloc n p
                   ++ drop (i + n) event_tbl,
              p').
Proof.
  induction n as [|n IH]; intros i tbl p Hlen; cbn [event_alloc_loop].
  - exists p. rewrite Nat.add_0_r. simpl. rewrite take_drop. reflexivity.
  - destruct (lookup_lt_is_Some_2 tbl i) as [old Hold]; [lia|].
    rewrite Hold. cbn [allocated].
    destruct (em_alloc p) as [ev p1]. cbn [fst snd].
    destruct (IH (S i) (<[i := ev]> tbl) p1) as [p' Heq];
      [rewrite length_insert; lia|].
    exists p'. rewrite Heq.
    assert (Hu : <[i := ev]> tbl !! i = Some ev)
      by (apply list_lookup_insert_eq; lia).
    rewrite (take_S_r _ i _ Hu), take_insert_ge by lia.
    rewrite drop_insert_lt by lia.
    rewrite <- app_assoc. simpl.
    rewrite Nat.add_succ_r. reflexivity.
Qed.

Lemma allocated_length {pool_t : Type} (em_alloc : pool_t -> Z * pool_t)
      (n : nat) :
  forall p : pool_t, length (allocated em_alloc n p) = n.
Proof.
  induction n as [|n IH]; intros p; simpl; [reflexivity|].
  rewrite IH. reflexivity.
Qed.

(** [free_events] on a table whose first [REPEAT_COUNT] entries are
    [evs]. *)
Lemma free_events_prefix (evs rest : list Z) :
  length evs = Z.to_nat REPEAT_COUNT ->
  free_events EM_EVENT_UNDEF (evs ++ rest)
  = Some (replicate (Z.to_nat REPEAT_COUNT) EM_EVENT_UNDEF ++ rest,
          filter (valid_event EM_EVENT_UNDEF) evs).
Proof.
  intros Hlen. unfold free_events, free_event_tbl.
  rewrite (free_event_loop_spec EM_EVENT_UNDEF (Z.to_nat REPEAT_COUNT) 0
                                (evs ++ rest) [])
    by (rewrite length_app; lia).
  rewrite drop_0, take_0. cbn [app Nat.add].
  rewrite <- Hlen, take_app_length, drop_app_length. reflexivity.
Qed.

Lemma filter_valid_all (evs : list Z) :
  Forall (valid_event EM_EVENT_UNDEF) evs ->
  filter (valid_event EM_EVENT_UNDEF) evs = evs.
Proof.
  induction 1 as [|ev evs Hev _ IH]; [reflexivity|].
  rewrite filter_cons_True by exact Hev. rewrite IH. reflexivity.
Qed.
End FifoFacts.

(** X21.  [unsched_send] on a first-in first-out queue with room for
    [REPEAT_COUNT] more events returns [REPEAT_COUNT] and appends the first
    [REPEAT_COUNT] table entries to the queue, in table order. *)
Theorem unsched_send_queues_table_in_order :
  forall (capacity : Z) (event_tbl q : list Z),
    REPEAT_COUNT <= Z.of_nat (length event_tbl) ->
    Z.of_nat (length q) + REPEAT_COUNT <= capacity ->
    unsched_send (fifo_send capacity) event_tbl q
    = Some (REPEAT_COUNT, q ++ take (Z.to_nat REPEAT_COUNT) event_tbl).
Proof.
  intros capacity tbl q Hlen Hcap. unfold unsched_send.
  rewrite (unsched_send_loop_fifo capacity)
    by (unfold REPEAT_COUNT in *; lia).
  rewrite drop_0. reflexivity.
Qed.

Lemma unsched_send_queues_table_in_order_witness :
  unsched_send (fifo_send 2000) (replicate (Z.to_nat 1200) 7) [5; 6]
  = Some (REPEAT_COUNT,
          [5; 6] ++ take (Z.to_nat REPEAT_COUNT)
                         (replicate (Z.to_nat 1200) 7)).
Proof.
  apply (unsched_send_queues_table_in_order
           2000 (replicate (Z.to_nat 1200) 7) [5; 6]).
  - rewrite length_replicate. unfold REPEAT_COUNT. lia.
  - unfold REPEAT_COUNT. simpl length. lia.
Defined.

(** X22.  [unsched_send] on a queue with room for [k < REPEAT_COUNT] events
    only returns 0, and the [k] events sent before the failure stay in the
    queue: they are not taken back. *)
Theorem unsched_send_failure_leaves_events_queued :
  forall (capacity : Z) (event_tbl q : list Z),
    REPEAT_COUNT <= Z.of_nat (length event_tbl) ->
    Z.of_nat (length q) <= capacity ->
    capacity < Z.of_nat (length q) + REPEAT_COUNT ->
    unsched_send (fifo_send capacity) event_tbl q
    = Some (0, q ++ take (Z.to_nat (capacity - Z.of_nat (length q)))
                         event_tbl).
Proof.
  intros capacity tbl q Hlen Hle Hlt. unfold unsched_send.
  rewrite (unsched_send_loop_full
             capacity (Z.to_nat (capacity - Z.of_nat (length q))))
    by (unfold REPEAT_COUNT in *; lia).
  rewrite drop_0. reflexivity.
Qed.

Lemma unsched_send_failure_leaves_events_queued_witness :
  unsched_send (fifo_send 4) (replicate (Z.to_nat 1200) 7) [5; 6]
  = Some (0, [5; 6] ++ take (Z.to_nat (4 - Z.of_nat (length [5; 6])))
                            (replicate (Z.to_nat 1200) 7)).
Proof.
  apply (unsched_send_failure_leaves_events_queued
           4 (replicate (Z.to_nat 1200) 7) [5; 6]).
  - rewrite length_replicate. unfold REPEAT_COUNT. lia.
  - simpl length. lia.
  - unfold REPEAT_COUNT. simpl length. lia.
Defined.

(** X23.  Round trip: [unsched_send] into an empty first-in first-out queue
    followed by [unsched_dequeue] returns [REPEAT_COUNT] twice, leaves the
    event table as it was and the queue empty. *)
Theorem unsched_send_then_dequeue_restores_table :
  forall (EM_EVENT_UNDEF capacity : Z) (event_tbl : list Z),
    REPEAT_COUNT <= Z.of_nat (length event_tbl) ->
    REPEAT_COUNT <= capacity ->
    Forall (valid_event EM_EVENT_UNDEF)
           (take (Z.to_nat REPEAT_COUNT) event_tbl) ->
    exists q : list Z,
      unsched_send (fifo_send capacity) event_tbl [] = Some (REPEAT_COUNT, q)
      /\ unsched_dequeue EM_EVENT_UNDEF (fifo_dequeue EM_EVENT_UNDEF)
                         event_tbl q
         = Some (REPEAT_COUNT, event_tbl, []).
Proof.
  intros U capacity tbl Hlen Hcap Hval.
  exists (take (Z.to_nat REPEAT_COUNT) tbl). split.
  - unfold unsched_send.
    rewrite (unsched_send_loop_fifo capacity)
      by (unfold REPEAT_COUNT in *; simpl length; lia).
    rewrite drop_0. reflexivity.
  - unfold unsched_dequeue.
    rewrite <- (app_nil_r (take (Z.to_nat REPEAT_COUNT) tbl)) at 1.
    rewrite (unsched_dequeue_loop_fifo U (take (Z.to_nat REPEAT_COUNT) tbl)
                                       (Z.to_nat REPEAT_COUNT) 0 tbl []).
    + rewrite take_0. cbn [app Nat.add]. rewrite take_drop.
      unfold REPEAT_COUNT. reflexivity.
    + rewrite length_take. unfold REPEAT_COUNT in *. lia.
    + unfold REPEAT_COUNT in *. lia.
    + exact Hval.
Qed.

Lemma unsched_send_then_dequeue_restores_table_witness :
  exists q : list Z,
    unsched_send (fifo_send 1000) (replicate (Z.to_nat 1200) 7) []
    = Some (REPEAT_COUNT, q)
    /\ unsched_dequeue 0 (fifo_dequeue 0) (replicate (Z.to_nat 1200) 7) q
       = Some (REPEAT_COUNT, replicate (Z.to_nat 1200) 7, []).
Proof.
  apply (unsched_send_then_dequeue_restores_table
           0 1000 (replicate (Z.to_nat 1200) 7)).
  - rewrite length_replicate. unfold REPEAT_COUNT. lia.
  - unfold REPEAT_COUNT. lia.
  - apply Forall_take, Forall_replicate. unfold valid_event. lia.
Defined.

(** X24.  [unsched_dequeue] on a queue that holds fewer than
    [REPEAT_COUNT] events returns 0: the events dequeued are in the first
    table entries, the entry after them is [EM_EVENT_UNDEF], the later
    entries keep their old handles and the queue is empty. *)
Theorem unsched_dequeue_starved :
  forall (EM_EVENT_UNDEF : Z) (event_tbl q : list Z),
    REPEAT_COUNT <= Z.of_nat (length event_tbl) ->
    Z.of_nat (length q) < REPEAT_COUNT ->
    Forall (valid_event EM_EVENT_UNDEF) q ->
    unsched_dequeue EM_EVENT_UNDEF (fifo_dequeue EM_EVENT_UNDEF) event_tbl q
    = Some (0, q ++ EM_EVENT_UNDEF :: drop (S (length q)) event_tbl, []).
Proof.
  intros U tbl q Hlen Hq Hval. unfold unsched_dequeue.
  rewrite (unsched_dequeue_loop_starved U q)
    by (unfold REPEAT_COUNT in *; try lia; exact Hval).
  rewrite take_0. reflexivity.
Qed.

Lemma unsched_dequeue_starved_witness :
  unsched_dequeue 0 (fifo_dequeue 0) (replicate (Z.to_nat 1200) 7) [5; 6]
  = Some (0, [5; 6] ++ 0 :: drop (S (length [5; 6]))
                                 (replicate (Z.to_nat 1200) 7), []).
Proof.
  apply (unsched_dequeue_starved 0 (replicate (Z.to_nat 1200) 7) [5; 6]).
  - rewrite length_replicate. unfold REPEAT_COUNT. lia.
  - unfold REPEAT_COUNT. simpl length. lia.
  - repeat (apply Forall_cons_2; [unfold valid_event; lia|]).
    apply Forall_nil_2.
Defined.

(** X25.  [unsched_dequeue_free] on a queue that holds exactly
    [REPEAT_COUNT] events frees these events, each once and in queue order,
    and leaves the queue empty and the first [REPEAT_COUNT] table entries
    [EM_EVENT_UNDEF]; the handles the table held before are overwritten
    without being freed. *)
Theorem unsched_dequeue_free_frees_queued_events :
  forall (EM_EVENT_UNDEF : Z) (event_tbl q : list Z),
    REPEAT_COUNT <= Z.of_nat (length event_tbl) ->
    Z.of_nat (length q) = REPEAT_COUNT ->
    Forall (valid_event EM_EVENT_UNDEF) q ->
    unsched_dequeue_free EM_EVENT_UNDEF (fifo_dequeue EM_EVENT_UNDEF)
                         event_tbl q
    = Some (replicate (Z.to_nat REPEAT_COUNT) EM_EVENT_UNDEF
              ++ drop (Z.to_nat REPEAT_COUNT) event_tbl,
            q, []).
Proof.
  intros U tbl q Hlen Hq Hval. unfold unsched_dequeue_free, unsched_dequeue.
  rewrite <- (app_nil_r q) at 1.
  rewrite (unsched_dequeue_loop_fifo U q (Z.to_nat REPEAT_COUNT) 0 tbl [])
    by (unfold REPEAT_COUNT in *; try lia; exact Hval).
  rewrite take_0. cbn [app Nat.add].
  rewrite (free_events_prefix U q) by lia.
  rewrite (filter_valid_all U q Hval). reflexivity.
Qed.

Lemma unsched_dequeue_free_frees_queued_events_witness :
  unsched_dequeue_free 0 (fifo_dequeue 0) (replicate (Z.to_nat 1200) 7)
                       (replicate (Z.to_nat 1000) 5)
  = Some (replicate (Z.to_nat REPEAT_COUNT) 0
            ++ drop (Z.to_nat REPEAT_COUNT) (replicate (Z.to_nat 1200) 7),
          replicate (Z.to_nat 1000) 5, []).
Proof.
  apply (unsched_dequeue_free_frees_queued_events
           0 (replicate (Z.to_nat 1200) 7) (replicate (Z.to_nat 1000) 5)).
  - rewrite length_replicate. unfold REPEAT_COUNT. lia.
  - rewrite length_replicate. unfold REPEAT_COUNT. lia.
  - apply Forall_replicate. unfold valid_event. lia.
Defined.

(** X26.  [unsched_send_dequeue] on a first-in first-out queue that is not
    full returns [REPEAT_COUNT] and rotates the table through the queue:
    the first [REPEAT_COUNT] table entries become the first [REPEAT_COUNT]
    events of the queue followed by the table, and the queue keeps the
    events after them.  On an empty queue the table is unchanged. *)
Theorem unsched_send_dequeue_rotates_table :
  forall (EM_EVENT_UNDEF capacity : Z) (event_tbl q : list Z),
    REPEAT_COUNT <= Z.of_nat (length event_tbl) ->
    Z.of_nat (length q) < capacity ->
    Forall (valid_event EM_EVENT_UNDEF) q ->
    Forall (valid_event EM_EVENT_UNDEF)
           (take (Z.to_nat REPEAT_COUNT) event_tbl) ->
    unsched_send_dequeue EM_EVENT_UNDEF (fifo_send capacity)
                         (fifo_dequeue EM_EVENT_UNDEF) event_tbl q
    = Some (REPEAT_COUNT,
            take (Z.to_nat REPEAT_COUNT) (q ++ event_tbl)
                 ++ drop (Z.to_nat REPEAT_COUNT) event_tbl,
            drop (Z.to_nat REPEAT_COUNT)
                 (q ++ take (Z.to_nat REPEAT_COUNT) event_tbl))
    /\ (q = [] ->
        unsched_send_dequeue EM_EVENT_UNDEF (fifo_send capacity)
                             (fifo_dequeue EM_EVENT_UNDEF) event_tbl q
        = Some (REPEAT_COUNT, event_tbl, [])).
Proof.
  intros U capacity tbl q Hlen Hcap Hq Hval.
  assert (Hrot :
            unsched_send_dequeue U (fifo_send capacity) (fifo_dequeue U) tbl q
            = Some (REPEAT_COUNT,
                    take (Z.to_nat REPEAT_COUNT) (q ++ tbl)
                         ++ drop (Z.to_nat REPEAT_COUNT) tbl,
                    drop (Z.to_nat REPEAT_COUNT)
                         (q ++ take (Z.to_nat REPEAT_COUNT) tbl))).
  { unfold unsched_send_dequeue.
    rewrite (unsched_send_dequeue_loop_fifo U capacity)
      by (try rewrite drop_0; unfold REPEAT_COUNT in *; try lia; auto).
    rewrite take_0, drop_0. unfold REPEAT_COUNT. reflexivity. }
  split; [exact Hrot|].
  intros ->. rewrite Hrot. cbn [app].
  rewrite take_drop, drop_ge by (rewrite length_take; lia).
  reflexivity.
Qed.

Lemma unsched_send_dequeue_rotates_table_witness :
  unsched_send_dequeue 0 (fifo_send 1) (fifo_dequeue 0)
                       (replicate (Z.to_nat 1200) 7) []
  = Some (REPEAT_COUNT,
          take (Z.to_nat REPEAT_COUNT) ([] ++ replicate (Z.to_nat 1200) 7)
               ++ drop (Z.to_nat REPEAT_COUNT)
                       (replicate (Z.to_nat 1200) 7),
          drop (Z.to_nat REPEAT_COUNT)
               ([] ++ take (Z.to_nat REPEAT_COUNT)
                           (replicate (Z.to_nat 1200) 7)))
  /\ (@nil Z = [] ->
      unsched_send_dequeue 0 (fifo_send 1) (fifo_dequeue 0)
                           (replicate (Z.to_nat 1200) 7) []
      = Some (REPEAT_COUNT, replicate (Z.to_nat 1200) 7, [])).
Proof.
  apply (unsched_send_dequeue_rotates_table
           0 1 (replicate (Z.to_nat 1200) 7) []).
  - rewrite length_replicate. unfold REPEAT_COUNT. lia.
  - simpl length. lia.
  - apply Forall_nil_2.
  - apply Forall_take, Forall_replicate. unfold valid_event. lia.
Defined.

(** X27.  [event_alloc] stores the results of [REPEAT_COUNT] allocations in
    the first table entries and returns [REPEAT_COUNT] whether or not the
    allocations succeeded; [free_events] then frees exactly the valid ones
    among them and leaves these entries [EM_EVENT_UNDEF]. *)
Theorem event_alloc_ignores_allocation_failure :
  forall (pool_t : Type) (em_alloc : pool_t -> Z * pool_t)
         (EM_EVENT_UNDEF : Z) (event_tbl : list Z) (p : pool_t),
    REPEAT_COUNT <= Z.of_nat (length event_tbl) ->
    exists (event_tbl' : list Z) (p' : pool_t),
      event_alloc em_alloc event_tbl p = Some (REPEAT_COUNT, event_tbl', p')
      /\ event_tbl' = allocated em_alloc (Z.to_nat REPEAT_COUNT) p
                        ++ drop (Z.to_nat REPEAT_COUNT) event_tbl
      /\ free_events EM_EVENT_UNDEF event_tbl'
         = Some (replicate (Z.to_nat REPEAT_COUNT) EM_EVENT_UNDEF
                   ++ drop (Z.to_nat REPEAT_COUNT) event_tbl,
                 filter (valid_event EM_EVENT_UNDEF)
                        (allocated em_alloc (Z.to_nat REPEAT_COUNT) p)).
Proof.
  intros pool_t em_alloc U tbl p Hlen.
  destruct (event_alloc_loop_spec em_alloc (Z.to_nat REPEAT_COUNT) 0 tbl p)
    as [p' Heq]; [unfold REPEAT_COUNT in *; lia|].
  eexists _, p'. split; [|split; [reflexivity|]].
  - unfold event_alloc. rewrite Heq, take_0. unfold REPEAT_COUNT.
    reflexivity.
  - apply free_events_prefix, allocated_length.
Qed.

Lemma event_alloc_ignores_allocation_failure_witness :
  exists (event_tbl' : list Z) (p' : Z),
    event_alloc (fun p : Z => (if p <? 3 then p + 1 else 0, p + 1))
                (replicate (Z.to_nat 1200) 7) 0
    = Some (REPEAT_COUNT, event_tbl', p')
    /\ event_tbl'
       = allocated (fun p : Z => (if p <? 3 then p + 1 else 0, p + 1))
                   (Z.to_nat REPEAT_COUNT) 0
           ++ drop (Z.to_nat REPEAT_COUNT) (replicate (Z.to_nat 1200) 7)
    /\ free_events 0 event_tbl'
       = Some (replicate (Z.to_nat REPEAT_COUNT) 0
                 ++ drop (Z.to_nat REPEAT_COUNT)
                         (replicate (Z.to_nat 1200) 7),
               filter (valid_event 0)
                      (allocated
                         (fun p : Z => (if p <? 3 then p + 1 else 0, p + 1))
                         (Z.to_nat REPEAT_COUNT) 0)).
Proof.
  apply (event_alloc_ignores_allocation_failure
           Z (fun p : Z => (if p <? 3 then p + 1 else 0, p + 1)) 0
           (replicate (Z.to_nat 1200) 7) 0).
  rewrite length_replicate. unfold REPEAT_COUNT. lia.
Defined.
